(** * Overlay store and drag controller of the live-streaming front end

    A shallow embedding of
      - [src/frontend/src/services/api.js]       (overlayAPI, apiUtils),
      - [src/frontend/src/hooks/useOverlays.js]  (the overlay store hook),
      - [src/frontend/src/components/VideoPlayer.js] (the drag handlers and
        the time display),
      - [src/frontend/src/App.js]                (the overlay handlers),
      - [src/frontend/src/components/Header.js]  (the overlay manager's form),
    together with the properties the specification states about them. *)

From Stdlib Require Import Ascii QArith Qround Qpower Qabs Lqa.
From stdpp Require Import gmap strings list fin_maps pretty.

Local Open Scope string_scope.
Local Open Scope list_scope.

(** ** Double-precision arithmetic

    A JavaScript number is an IEEE 754 binary64 value.  A finite one is
    read as the rational it denotes, [m * 2^e] with [|m| < 2^53] and
    [-1074 <= e]; an arithmetic operation returns the exact result rounded
    to the nearest such number, halves to the one with an even [m].  The
    exponent is not bounded above: the infinities are no numbers of this
    development, so that a result beyond the largest double (about
    [1.8e308]) is rounded like any other. *)
Module Double.

Definition emin : Z := (-1074)%Z.

Definition pow2 (e : Z) : Q := (2 ^ e)%Q.

(** The integer part of the binary logarithm of a positive rational. *)
Definition ilog2 (q : Q) : Z :=
  let n := Qnum q in
  let d := Z.pos (Qden q) in
  let k := (Z.log2 n - Z.log2 d)%Z in
  if (n * 2 ^ Z.max 0 (- k) <? d * 2 ^ Z.max 0 k)%Z then (k - 1)%Z else k.

(** The exponent of the last place of the doubles around [q]: 53
    significant bits, and the subnormal numbers below [2^-1022]. *)
Definition exponent (q : Q) : Z := Z.max emin (ilog2 (Qabs q) - 52).

(** The nearest integer, halves to the even one. *)
Definition nearest_even (q : Q) : Z :=
  let f := Qfloor q in
  match Qcompare (q - inject_Z f) (1 # 2) with
  | Lt => f
  | Gt => (f + 1)%Z
  | Eq => if Z.even f then f else (f + 1)%Z
  end.

(** The double nearest to [q], as a reduced fraction. *)
Definition round (q : Q) : Q :=
  if Qeq_bool q 0 then 0%Q
  else
    let e := exponent q in
    Qred (inject_Z (nearest_even (q / pow2 e)) * pow2 e).

(** [a - b], [a * b] and [a / b] (for [b] that is not zero). *)
Definition minus (a b : Q) : Q := round (a - b).
Definition times (a b : Q) : Q := round (a * b).
Definition divide (a b : Q) : Q := round (a / b).

(** The doubles themselves. *)
Definition representable (q : Q) : Prop :=
  exists m g : Z, (Z.abs m < 2 ^ 53)%Z /\ (emin <= g)%Z /\
                  (q == inject_Z m * pow2 g)%Q.

End Double.

Arguments Double.round : simpl never.
Arguments Double.minus : simpl never.
Arguments Double.times : simpl never.
Arguments Double.divide : simpl never.

(** ** JavaScript values

    Overlay records, patches, drafts and thrown errors are plain JavaScript
    objects: finite maps from property names to values.  A value is a
    primitive or a plain object.  Numbers are the finite doubles, read as
    rationals, and [NaN]; the infinities and the sign of zero are left
    out.  Comparisons, [Math.min], [Math.max] and [Math.round] are exact on
    doubles; subtraction rounds as [Double.minus] does. *)
Module JS.

Inductive number : Type :=
  | NaN
  | Fin (q : Q).

#[warnings="-register-all"]
Inductive value : Type :=
  | VUndefined
  | VNull
  | VBool (b : bool)
  | VNum (n : number)
  | VStr (s : string)
  | VObj (fields : gmap string value).

Abbreviation obj := (gmap string value).

Definition num (z : Z) : value := VNum (Fin (inject_Z z)).

(** ToBoolean: [undefined], [null], [false], [0], [NaN] and the empty
    string are falsy, everything else (every object included) is truthy. *)
Definition truthy (v : value) : bool :=
  match v with
  | VUndefined | VNull => false
  | VBool b => b
  | VNum NaN => false
  | VNum (Fin q) => negb (Qeq_bool q 0)
  | VStr s => negb (String.eqb s "")
  | VObj _ => true
  end.

(** [o.k] on an object: the stored value, [undefined] when absent. *)
Definition prop (o : obj) (k : string) : value :=
  default VUndefined (o !! k).

(** [v.k].  Reading a property of [null] or [undefined] raises a
    TypeError ([None]).  A plain object yields its property; a boolean or a
    number has no own properties, and none of the names read in this
    program is a property of a string. *)
Definition member (v : value) (k : string) : option value :=
  match v with
  | VUndefined | VNull => None
  | VObj o => Some (prop o k)
  | VBool _ | VNum _ | VStr _ => Some VUndefined
  end.

(** [v?.k]: [undefined] where [v.k] would raise. *)
Definition opt_member (v : value) (k : string) : value :=
  default VUndefined (member v k).

(** [v === false] *)
Definition is_false (v : value) : bool :=
  match v with VBool false => true | _ => false end.

(** [typeof v === 'number'] *)
Definition is_number (v : value) : bool :=
  match v with VNum _ => true | _ => false end.

(** [Math.min], [Math.max], [Math.round] and subtraction on numbers.
    [Math.round] rounds to the nearest integer, halves upwards; its result
    is exact, a double with a fractional part being below [2^52]. *)
Definition lift2 (f : Q -> Q -> Q) (a b : number) : number :=
  match a, b with
  | Fin x, Fin y => Fin (f x y)
  | _, _ => NaN
  end.

Definition Qmin (x y : Q) : Q := if Qle_bool x y then x else y.
Definition Qmax (x y : Q) : Q := if Qle_bool x y then y else x.

Definition Math_min : number -> number -> number := lift2 Qmin.
Definition Math_max : number -> number -> number := lift2 Qmax.
Definition minus : number -> number -> number := lift2 Double.minus.

Definition Qround (x : Q) : Z := Qfloor (x + (1 # 2)).

Definition Math_round (a : number) : number :=
  match a with
  | NaN => NaN
  | Fin x => Fin (inject_Z (Qround x))
  end.

(** Relational operators on numbers: every comparison with [NaN] is
    false. *)
Definition lt (a b : number) : bool :=
  match a, b with
  | Fin x, Fin y => negb (Qle_bool y x)
  | _, _ => false
  end.

Definition le (a b : number) : bool :=
  match a, b with
  | Fin x, Fin y => Qle_bool x y
  | _, _ => false
  end.

Section Coercion.
(** The numeric reading of a string (StringToNumber of the language) is
    left abstract. *)
Variable StringToNumber : string -> number.

(** ToNumber.  A plain object converts through its default string form,
    which is not numeric. *)
Definition ToNumber (v : value) : number :=
  match v with
  | VUndefined => NaN
  | VNull => Fin 0
  | VBool b => Fin (if b then 1 else 0)
  | VNum n => n
  | VStr s => StringToNumber s
  | VObj _ => NaN
  end.

(** [v < k], [v <= k] and [v > k] against a number [k]. *)
Definition lt_num (v : value) (k : Q) : bool := lt (ToNumber v) (Fin k).
Definition le_num (v : value) (k : Q) : bool := le (ToNumber v) (Fin k).
Definition gt_num (v : value) (k : Q) : bool := lt (Fin k) (ToNumber v).
End Coercion.

End JS.

Import JS.

(** ** The remote store and the effects of the hook

    [services/api.js] talks to the backend through axios.  A request either
    resolves with the response body or rejects with an error object
    ([message], and [response] when the server answered).  The backend is
    not part of the program: it is an arbitrary oracle, asked with the
    number of requests issued before and the request itself.  [GET
    /overlays] answers with an array of overlay records, the mutations with
    some body.  [new Date().toISOString()] is a second oracle, asked with
    the number of earlier readings.

    A call of the hook is run by itself from its first statement to its
    return or throw, each [await] taking the oracle's answer; calls in
    flight at the same time are not interleaved, and logging to the console
    is left out. *)

Inductive request : Type :=
  | GetOverlays
  | PostOverlay (overlayData : obj)
  | PutOverlay (id : string) (updateData : obj)
  | DeleteOverlay (id : string).

Inductive reply (A : Type) : Type :=
  | Resolve (data : A)
  | Reject (error : obj).
Arguments Resolve {A} data.
Arguments Reject {A} error.

Record remote : Type := {
  overlays_reply : nat -> reply (list obj);
  mutation_reply : nat -> request -> reply value;
  toISOString : nat -> string
}.

(** React state of the hook: [overlays], [loading], [error]. *)
Record hook : Type := {
  overlays : list obj;
  loading : bool;
  error : value
}.

(** What a run can observe: the hook state, the requests sent so far (oldest
    first) and the number of clock readings. *)
Record machine : Type := {
  ui : hook;
  sent : list request;
  ticks : nat
}.

(** An async function either returns or throws an error object. *)
Inductive outcome (A : Type) : Type :=
  | Returned (a : A)
  | Thrown (e : obj).
Arguments Returned {A} a.
Arguments Thrown {A} e.

Definition M (A : Type) : Type := machine -> outcome A * machine.

Definition ret {A} (a : A) : M A := fun m => (Returned a, m).

Definition throw {A} (e : obj) : M A := fun m => (Thrown e, m).

Definition bind {A B} (c : M A) (k : A -> M B) : M B :=
  fun m =>
    match c m with
    | (Returned a, m') => k a m'
    | (Thrown e, m') => (Thrown e, m')
    end.

(** [try { body } catch (error) { handler }] *)
Definition try_catch {A} (body : M A) (handler : obj -> M A) : M A :=
  fun m =>
    match body m with
    | (Returned a, m') => (Returned a, m')
    | (Thrown e, m') => handler e m'
    end.

(** [try { body } finally { final }]: [final] runs on both exits and the
    exit of [body] stands unless [final] throws. *)
Definition try_finally {A} (body : M A) (final : M unit) : M A :=
  fun m =>
    match body m with
    | (r, m') =>
        match final m' with
        | (Returned _, m'') => (r, m'')
        | (Thrown e, m'') => (Thrown e, m'')
        end
    end.

Declare Scope js_scope.
Delimit Scope js_scope with js.
Notation "x <- c1 ;; c2" := (bind c1 (fun x => c2))
  (at level 100, c1 at next level, right associativity) : js_scope.
Notation "c1 ;; c2" := (bind c1 (fun _ => c2))
  (at level 100, right associativity) : js_scope.
Local Open Scope js_scope.

Definition setOverlays (data : list obj) : M unit :=
  fun m => (Returned tt,
            {| ui := {| overlays := data; loading := loading (ui m); error := error (ui m) |};
               sent := sent m; ticks := ticks m |}).

Definition setLoading (b : bool) : M unit :=
  fun m => (Returned tt,
            {| ui := {| overlays := overlays (ui m); loading := b; error := error (ui m) |};
               sent := sent m; ticks := ticks m |}).

Definition setError (v : value) : M unit :=
  fun m => (Returned tt,
            {| ui := {| overlays := overlays (ui m); loading := loading (ui m); error := v |};
               sent := sent m; ticks := ticks m |}).

(** The current [overlays] (the value captured by a callback, or the
    [prevOverlays] handed to a state updater). *)
Definition readOverlays : M (list obj) :=
  fun m => (Returned (overlays (ui m)), m).

Definition record_request (r : request) (m : machine) : machine :=
  {| ui := ui m; sent := sent m ++ [r]; ticks := ticks m |}.

Section Remote.
Variable srv : remote.

(** [api.get('/overlays')] *)
Definition api_get_overlays : M (list obj) :=
  fun m =>
    match overlays_reply srv (length (sent m)) with
    | Resolve data => (Returned data, record_request GetOverlays m)
    | Reject e => (Thrown e, record_request GetOverlays m)
    end.

(** [api.post], [api.put], [api.delete] *)
Definition api_mutate (r : request) : M value :=
  fun m =>
    match mutation_reply srv (length (sent m)) r with
    | Resolve data => (Returned data, record_request r m)
    | Reject e => (Thrown e, record_request r m)
    end.

(** [new Date().toISOString()] *)
Definition now : M string :=
  fun m => (Returned (toISOString srv (ticks m)),
            {| ui := ui m; sent := sent m; ticks := S (ticks m) |}).

End Remote.

(** [Promise.allSettled]: every promise runs to its end, in the order the
    requests were issued, and its exit is recorded. *)
Inductive settled (A : Type) : Type :=
  | Fulfilled (v : A)
  | Rejected (reason : obj).
Arguments Fulfilled {A} v.
Arguments Rejected {A} reason.

Definition settle {A} (p : M A) : M (settled A) :=
  fun m =>
    match p m with
    | (Returned a, m') => (Returned (Fulfilled a), m')
    | (Thrown e, m') => (Returned (Rejected e), m')
    end.

Fixpoint allSettled {A} (promises : list (M A)) : M (list (settled A)) :=
  match promises with
  | [] => ret []
  | p :: rest =>
      r <- settle p ;;
      rs <- allSettled rest ;;
      ret (r :: rs)
  end.

Definition is_fulfilled {A} (r : settled A) : bool :=
  match r with Fulfilled _ => true | Rejected _ => false end.

Definition is_rejected {A} (r : settled A) : bool :=
  match r with Fulfilled _ => false | Rejected _ => true end.

(** One element [{ id, data }] of a batch. *)
Module Update.
Record t : Type := { id : string; data : obj }.
End Update.

(** *** services/api.js *)
Module overlayAPI.
Section Remote.
Variable srv : remote.

Definition getAll : M (list obj) := api_get_overlays srv.

Definition create (overlayData : obj) : M value :=
  api_mutate srv (PostOverlay overlayData).

Definition update (id : string) (updateData : obj) : M value :=
  api_mutate srv (PutOverlay id updateData).

Definition delete (id : string) : M value :=
  api_mutate srv (DeleteOverlay id).

Definition batchUpdate (updates : list Update.t) : M (list (settled value)) :=
  allSettled
    (map (fun u => api_mutate srv (PutOverlay (Update.id u) (Update.data u))) updates).

End Remote.
End overlayAPI.

Module apiUtils.

(** [handleError(error, defaultMessage = 'An error occurred')] *)
Definition handleError (error : obj) (defaultMessage : value) : value :=
  let defaultMessage :=
    match defaultMessage with
    | VUndefined => VStr "An error occurred"
    | _ => defaultMessage
    end in
  let server := opt_member (opt_member (prop error "response") "data") "error" in
  if truthy server then server
  else if truthy (prop error "message") then prop error "message"
  else defaultMessage.

(** [testConnection()], with [check] standing for [healthAPI.check()], the
    [GET /health] request. *)
Record connection : Type := { success : bool; message : value }.

Definition testConnection (check : M value) : M connection :=
  try_catch
    (check ;;
     ret {| success := true; message := VStr "API connection successful" |})
    (fun error =>
       let server := opt_member (opt_member (prop error "response") "data") "error" in
       ret {| success := false;
              message := if truthy server then server
                         else VStr "API connection failed" |}).

(** What [retry] ends with: the value of [apiCall], or what it throws, which
    is an error of [apiCall] or [undefined]. *)
Inductive retried (A : Type) : Type :=
  | Got (a : A)
  | Gave_up (thrown : value).
Arguments Got {A} a.
Arguments Gave_up {A} thrown.

Section Retry.
Variable StringToNumber : string -> number.

(** [error.response?.status >= 400 && error.response?.status < 500] *)
Definition is_client_error (error : obj) : bool :=
  let status := opt_member (prop error "response") "status" in
  le (Fin 400) (ToNumber StringToNumber status) && lt_num StringToNumber status 500.

(** The [for] loop of [retry], entered with the index [i] and [remaining]
    iterations to go ([i < maxRetries] holds exactly while some remain).
    Each [await new Promise(resolve => setTimeout(resolve, ms))] is recorded
    in [waits], oldest first, with [ms] the product [delay * (i + 1)] of
    doubles. *)
Fixpoint retry_loop {A} (apiCall : M A) (maxRetries : Z) (delay : Q)
    (remaining : nat) (i : Z) (lastError : value) (waits : list Q) (m : machine)
    : retried A * machine * list Q :=
  match remaining with
  | 0 => (Gave_up lastError, m, waits)
  | S remaining' =>
      match apiCall m with
      | (Returned a, m') => (Got a, m', waits)
      | (Thrown error, m') =>
          if is_client_error error then (Gave_up (VObj error), m', waits)
          else
            let waits' :=
              if (i <? maxRetries - 1)%Z
              then waits ++ [Double.times delay (inject_Z (i + 1))]
              else waits in
            retry_loop apiCall maxRetries delay remaining' (i + 1)%Z
              (VObj error) waits' m'
      end
  end.

(** [retry(apiCall, maxRetries = 3, delay = 1000)], for a whole number of
    retries and a delay in milliseconds. *)
Definition retry {A} (apiCall : M A) (maxRetries : option Z) (delay : option Q)
    (m : machine) : retried A * machine * list Q :=
  let maxRetries := default 3%Z maxRetries in
  let delay := default 1000%Q delay in
  retry_loop apiCall maxRetries delay (Z.to_nat maxRetries) 0%Z VUndefined [] m.

End Retry.

End apiUtils.

(** *** hooks/useOverlays.js *)

(** [overlay._id === id], for an id that is a string. *)
Definition has_id (id : string) (overlay : obj) : bool :=
  match overlay !! "_id" with
  | Some (VStr s) => String.eqb s id
  | _ => false
  end.

(** [{ ...overlay, ...updateData, updated_at: stamp }] *)
Definition merged (overlay updateData : obj) (stamp : string) : obj :=
  <["updated_at" := VStr stamp]> (updateData ∪ overlay).

(** [array.map(f)] for a callback that may read the clock. *)
Fixpoint map_M {A B} (f : A -> M B) (l : list A) : M (list B) :=
  match l with
  | [] => ret []
  | a :: rest =>
      b <- f a ;;
      bs <- map_M f rest ;;
      ret (b :: bs)
  end.

(** [array.forEach] over an accumulator that the callback updates. *)
Fixpoint forEach_M {A S} (f : S -> A -> M S) (l : list A) (acc : S) : M S :=
  match l with
  | [] => ret acc
  | a :: rest => acc' <- f acc a ;; forEach_M f rest acc'
  end.

(** [setOverlays(prevOverlays => f(prevOverlays))] *)
Definition updateOverlays (f : list obj -> M (list obj)) : M unit :=
  prevOverlays <- readOverlays ;;
  newOverlays <- f prevOverlays ;;
  setOverlays newOverlays.

(** [array.filter((x, index) => f(index, x))] *)
Fixpoint filter_index {A} (f : nat -> A -> bool) (index : nat) (l : list A) : list A :=
  match l with
  | [] => []
  | a :: rest =>
      if f index a then a :: filter_index f (S index) rest
      else filter_index f (S index) rest
  end.

(** [array.findIndex(p)]: [None] stands for [-1]. *)
Definition findIndex {A} (p : A -> bool) (l : list A) : option nat :=
  fst <$> list_find (fun a => p a = true) l.

(** [array.find(p)] *)
Definition find {A} (p : A -> bool) (l : list A) : option A :=
  snd <$> list_find (fun a => p a = true) l.

Module useOverlays.
Section Hook.
Variable srv : remote.

Definition fetchOverlays : M unit :=
  setLoading true ;;
  setError VNull ;;
  try_finally
    (try_catch
       (data <- overlayAPI.getAll srv ;;
        setOverlays data)
       (fun error =>
          let errorMessage := apiUtils.handleError error (VStr "Failed to fetch overlays") in
          setError errorMessage))
    (setLoading false).

Definition createOverlay (overlayData : obj) : M value :=
  try_catch
    (response <- overlayAPI.create srv overlayData ;;
     fetchOverlays ;;
     ret response)
    (fun error =>
       let errorMessage := apiUtils.handleError error (VStr "Failed to create overlay") in
       setError errorMessage ;;
       throw error).

Definition updateOverlay (id : string) (updateData : obj) : M unit :=
  try_catch
    (overlayAPI.update srv id updateData ;;
     updateOverlays (map_M (fun overlay =>
       if has_id id overlay
       then stamp <- now srv ;; ret (merged overlay updateData stamp)
       else ret overlay)))
    (fun error =>
       fetchOverlays ;;
       let errorMessage := apiUtils.handleError error (VStr "Failed to update overlay") in
       setError errorMessage ;;
       throw error).

Definition deleteOverlay (id : string) : M unit :=
  try_catch
    (overlayAPI.delete srv id ;;
     updateOverlays (fun prevOverlays =>
       ret (List.filter (fun overlay => negb (has_id id overlay)) prevOverlays)))
    (fun error =>
       fetchOverlays ;;
       let errorMessage := apiUtils.handleError error (VStr "Failed to delete overlay") in
       setError errorMessage ;;
       throw error).

(** The body of the [forEach] in [batchUpdateOverlays]. *)
Definition apply_update (newOverlays : list obj) (u : Update.t) : M (list obj) :=
  match findIndex (has_id (Update.id u)) newOverlays with
  | Some index =>
      match newOverlays !! index with
      | Some overlay =>
          stamp <- now srv ;;
          ret (<[index := merged overlay (Update.data u) stamp]> newOverlays)
      | None => ret newOverlays
      end
  | None => ret newOverlays
  end.

(** [responses[index].status === 'fulfilled']; [responses] has the length
    of [updates], so the index is always in range. *)
Definition fulfilled_at {A} (responses : list (settled A)) (index : nat) : bool :=
  match responses !! index with
  | Some r => is_fulfilled r
  | None => false
  end.

Definition batchUpdateOverlays (updates : list Update.t) : M (list (settled value)) :=
  try_catch
    (responses <- overlayAPI.batchUpdate srv updates ;;
     let hasErrors := existsb is_rejected responses in
     let successfulUpdates :=
       filter_index (fun index _ => fulfilled_at responses index) 0 updates in
     updateOverlays (fun prevOverlays =>
       forEach_M apply_update successfulUpdates prevOverlays) ;;
     ret responses)
    (fun error =>
       let errorMessage := apiUtils.handleError error (VStr "Failed to update overlays") in
       setError errorMessage ;;
       throw error).

Definition toggleOverlayVisibility (id : string) : M unit :=
  overlays <- readOverlays ;;
  match find (has_id id) overlays with
  | None => ret tt
  | Some overlay =>
      try_catch
        (updateOverlay id
           {[ "visible" := VBool (negb (truthy (prop overlay "visible"))) ]})
        (fun error => throw error)
  end.

(** [toggleOverlayVisibility] is rebuilt whenever [overlays] changes
    ([useCallback] with [overlays] among its dependencies), and each
    instance looks the record up in the [overlays] of the render that built
    it.  This is the instance built with [captured]; the definition above is
    the instance of the current render, called before anything changes the
    collection. *)
Definition toggleOverlayVisibility_of (captured : list obj) (id : string) : M unit :=
  match find (has_id id) captured with
  | None => ret tt
  | Some overlay =>
      try_catch
        (updateOverlay id
           {[ "visible" := VBool (negb (truthy (prop overlay "visible"))) ]})
        (fun error => throw error)
  end.

End Hook.

(** Selectors over the current [overlays]. *)
Definition getOverlay (overlays : list obj) (id : string) : option obj :=
  find (has_id id) overlays.

(** [overlay.visible !== false] *)
Definition shown (overlay : obj) : bool := negb (is_false (prop overlay "visible")).

Definition getVisibleOverlays (overlays : list obj) : list obj :=
  List.filter shown overlays.

(** [overlay.type === type], for a type that is a string. *)
Definition has_type (type : string) (overlay : obj) : bool :=
  match overlay !! "type" with
  | Some (VStr s) => String.eqb s type
  | _ => false
  end.

Definition getOverlaysByType (overlays : list obj) (type : string) : list obj :=
  List.filter (has_type type) overlays.

Definition clearError : M unit := setError VNull.

(** [refreshOverlays]: [await fetchOverlays()]. *)
Definition refreshOverlays (srv : remote) : M unit :=
  fetchOverlays srv ;; ret tt.

(** The state the hook starts with; the mount effect then calls
    [fetchOverlays]. *)
Definition initial : hook := {| overlays := []; loading := false; error := VNull |}.

(** The [stats] object of the hook. *)
Record statistics : Type := { total : nat; visible : nat; text : nat; logo : nat }.

Definition stats (overlays : list obj) : statistics :=
  {| total := length overlays;
     visible := length (List.filter shown overlays);
     text := length (List.filter (has_type "text") overlays);
     logo := length (List.filter (has_type "logo") overlays) |}.

(** [validateOverlay(overlayData)]: the [errors] object and [isValid]. *)
Record validation : Type := { isValid : bool; errors : obj }.

Definition dquote : string := String (Ascii.ascii_of_nat 34) EmptyString.

Definition type_message : string :=
  "Type must be either " +:+ dquote +:+ "text" +:+ dquote +:+ " or " +:+ dquote +:+ "logo" +:+ dquote.

(** [['text', 'logo'].includes(v)] *)
Definition is_text_or_logo (v : value) : bool :=
  match v with
  | VStr s => String.eqb s "text" || String.eqb s "logo"
  | _ => false
  end.

Section Validate.
Variable StringToNumber : string -> number.

Definition validateOverlay (overlayData : obj) : validation :=
  let type := prop overlayData "type" in
  let content := prop overlayData "content" in
  let position := prop overlayData "position" in
  let size := prop overlayData "size" in
  let errors : obj := ∅ in
  let errors :=
    if negb (truthy type) || negb (is_text_or_logo type)
    then <["type" := VStr type_message]> errors else errors in
  let errors :=
    if negb (truthy content)
    then <["content" := VStr "Content is required"]> errors else errors in
  let errors :=
    if negb (truthy position)
       || negb (is_number (opt_member position "x"))
       || negb (is_number (opt_member position "y"))
    then <["position" := VStr "Valid position coordinates are required"]> errors
    else errors in
  let errors :=
    if negb (truthy size)
       || negb (is_number (opt_member size "width"))
       || negb (is_number (opt_member size "height"))
    then <["size" := VStr "Valid size dimensions are required"]> errors
    else errors in
  let errors :=
    if truthy position
    then
      if lt_num StringToNumber (opt_member position "x") 0
         || lt_num StringToNumber (opt_member position "y") 0
      then <["position" := VStr "Position coordinates must be non-negative"]> errors
      else errors
    else errors in
  let errors :=
    if truthy size
    then
      let errors :=
        if le_num StringToNumber (opt_member size "width") 0
           || le_num StringToNumber (opt_member size "height") 0
        then <["size" := VStr "Size dimensions must be positive"]> errors
        else errors in
      if gt_num StringToNumber (opt_member size "width") 1920
         || gt_num StringToNumber (opt_member size "height") 1080
      then <["size" := VStr "Size dimensions are too large"]> errors
      else errors
    else errors in
  {| isValid := Nat.eqb (base.size errors) 0; errors := errors |}.

End Validate.

End useOverlays.

(** *** components/VideoPlayer.js: the drag handler *)
Module VideoPlayer.

Record point : Type := { x : Q; y : Q }.

(** [getBoundingClientRect()] of the container. *)
Record rect : Type := { left : Q; top : Q; width : Q; height : Q }.

(** The drag state of the component; [draggedOverlay = None] is [null]. *)
Record drag : Type := {
  draggedOverlay : option string;
  dragOffset : point;
  isDragging : bool
}.

(** What one pointer-move does: nothing, a TypeError, or one call
    [onOverlayUpdate(id, updateData)]. *)
Inductive moved : Type :=
  | Ignored
  | TypeError
  | Update (id : string) (updateData : obj).

Definition position_patch (px py : number) : obj :=
  {[ "position" := VObj (<["y" := VNum py]> {[ "x" := VNum px ]}) ]}.

(** [overlays.filter(overlay => overlay.visible !== false)]: the overlays
    that are rendered. *)
Definition visibleOverlays (overlays : list obj) : list obj :=
  List.filter (fun overlay => negb (is_false (prop overlay "visible"))) overlays.

Section Handler.
Variable StringToNumber : string -> number.

(** [handleMouseMove(e)], with [videoRect] the container's rectangle when
    the ref is attached, [clientX]/[clientY] the pointer, and
    [onOverlayUpdate] telling whether the callback was passed. *)
Definition handleMouseMove (d : drag) (videoRect : option rect)
    (overlays : list obj) (onOverlayUpdate : bool) (clientX clientY : Q) : moved :=
  match draggedOverlay d with
  | None => Ignored
  | Some id =>
      if String.eqb id "" || negb (isDragging d) then Ignored
      else
        match videoRect with
        | None => Ignored
        | Some videoRect =>
            match find (has_id id) overlays with
            | None => Ignored
            | Some overlay =>
                let newX :=
                  Double.minus (Double.minus clientX (left videoRect))
                               (x (dragOffset d)) in
                let newY :=
                  Double.minus (Double.minus clientY (top videoRect))
                               (y (dragOffset d)) in
                match member (prop overlay "size") "width",
                      member (prop overlay "size") "height" with
                | Some w, Some h =>
                    let maxX := minus (Fin (width videoRect)) (ToNumber StringToNumber w) in
                    let maxY := minus (Fin (height videoRect)) (ToNumber StringToNumber h) in
                    let constrainedX := Math_max (Fin 0) (Math_min (Fin newX) maxX) in
                    let constrainedY := Math_max (Fin 0) (Math_min (Fin newY) maxY) in
                    if onOverlayUpdate
                    then Update id (position_patch (Math_round constrainedX)
                                                   (Math_round constrainedY))
                    else Ignored
                | _, _ => TypeError
                end
            end
        end
  end.

End Handler.
(** The id kept by [setDraggedOverlay(overlay._id)].  Ids are strings; an
    [_id] that is absent (or not a string) leaves no id to drag. *)
Definition dragged_id (overlay : obj) : option string :=
  match overlay !! "_id" with
  | Some (VStr s) => Some s
  | _ => None
  end.

(** [handleOverlayMouseDown(e, overlay)], with [rect] the bounding rectangle
    of the overlay's element and [videoRect] that of the container when the
    ref is attached. *)
Definition handleOverlayMouseDown (d : drag) (videoRect : option rect)
    (rect : rect) (overlay : obj) (clientX clientY : Q) : drag :=
  match videoRect with
  | None => d
  | Some _ =>
      {| draggedOverlay := dragged_id overlay;
         dragOffset := {| x := Double.minus clientX (left rect);
                          y := Double.minus clientY (top rect) |};
         isDragging := true |}
  end.

(** [handleMouseUp()], also bound to the pointer leaving the container. *)
Definition handleMouseUp (d : drag) : drag :=
  {| draggedOverlay := None; dragOffset := dragOffset d; isDragging := false |}.

(** The time display.  [a % b] keeps the sign of [a] and is exact on
    doubles; [padStart] fills on the left with one repeated character. *)
Definition Qtrunc (a : Q) : Z := if Qle_bool 0 a then Qfloor a else Qceiling a.

Definition remainder (a b : Q) : Q := (a - b * inject_Z (Qtrunc (a / b)))%Q.

Fixpoint fill (n : nat) (c : Ascii.ascii) (s : string) : string :=
  match n with
  | 0 => s
  | S n' => String c (fill n' c s)
  end.

Definition padStart (targetLength : nat) (c : Ascii.ascii) (s : string) : string :=
  fill (targetLength - String.length s) c s.

(** The argument of [formatTime]: the current time or the duration of the
    video, a number of the model or an infinity (the duration of a live
    stream). *)
Inductive time : Type :=
  | Infinite (negative : bool)
  | Time (seconds : number).

(** The string form of a whole number.  Below [10^21] in size it is the
    decimal digits; from there on the language prints a decimal exponent,
    which is not modelled ([None]). *)
Definition toString (z : Z) : option string :=
  if (Z.abs z <? 10 ^ 21)%Z then Some (pretty z) else None.

(** [formatTime(seconds)].  [!seconds] holds for [0] and [NaN],
    [!isFinite(seconds)] for [NaN] and the infinities.  [None] where the
    minutes are too large for [toString]. *)
Definition formatTime (seconds : time) : option string :=
  match seconds with
  | Infinite _ => Some "0:00"
  | Time NaN => Some "0:00"
  | Time (Fin q) =>
      if Qeq_bool q 0 then Some "0:00"
      else
        let mins := Qfloor (Double.divide q 60) in
        let secs := Qfloor (remainder q 60) in
        match toString mins, toString secs with
        | Some mins, Some secs => Some (mins +:+ ":" +:+ padStart 2 "0"%char secs)
        | _, _ => None
        end
  end.

End VideoPlayer.

(** *** App.js: the handlers handed to the components

    A toast is recorded with its kind and its message. *)
Module App.

Inductive toast : Type :=
  | toast_success (message : value)
  | toast_error (message : value).

(** [error.response?.data?.error || fallback] *)
Definition server_error_or (error : obj) (fallback : string) : value :=
  let server := opt_member (opt_member (prop error "response") "data") "error" in
  if truthy server then server else VStr fallback.

Section Handlers.
Variable srv : remote.

Definition handleOverlayCreate (overlayData : obj) (m : machine)
    : outcome unit * machine * list toast :=
  match useOverlays.createOverlay srv overlayData m with
  | (Returned _, m') =>
      (Returned tt, m', [toast_success (VStr "Overlay created successfully!")])
  | (Thrown error, m') =>
      let errorMessage := server_error_or error "Failed to create overlay" in
      (Thrown error, m', [toast_error errorMessage])
  end.

Definition handleOverlayUpdate (id : string) (updateData : obj) (m : machine)
    : outcome unit * machine * list toast :=
  match useOverlays.updateOverlay srv id updateData m with
  | (Returned _, m') =>
      (Returned tt, m',
       if negb (truthy (prop updateData "position"))
       then [toast_success (VStr "Overlay updated successfully!")]
       else [])
  | (Thrown error, m') =>
      let errorMessage := server_error_or error "Failed to update overlay" in
      (Returned tt, m',
       if negb (truthy (prop updateData "position"))
       then [toast_error errorMessage]
       else [])
  end.

Definition handleOverlayDelete (id : string) (m : machine)
    : outcome unit * machine * list toast :=
  match useOverlays.deleteOverlay srv id m with
  | (Returned _, m') =>
      (Returned tt, m', [toast_success (VStr "Overlay deleted successfully!")])
  | (Thrown error, m') =>
      let errorMessage := server_error_or error "Failed to delete overlay" in
      (Returned tt, m', [toast_error errorMessage])
  end.

End Handlers.
End App.

(** *** The overlay manager (second component of components/Header.js) *)
Module OverlayManager.

Record form : Type := {
  showForm : bool;
  editingOverlay : option obj;
  formData : obj;
  formErrors : obj
}.

Definition defaultStyle : obj :=
  <["color" := VStr "#ffffff"]>
    (<["fontSize" := VStr "16px"]>
       (<["fontWeight" := VStr "normal"]>
          (<["backgroundColor" := VStr "rgba(0,0,0,0.7)"]>
             {[ "borderRadius" := VStr "6px" ]}))).

Definition defaultFormData : obj :=
  <["type" := VStr "text"]>
    (<["content" := VStr ""]>
       (<["position" := VObj (<["x" := num 10]> {[ "y" := num 10 ]})]>
          (<["size" := VObj (<["width" := num 200]> {[ "height" := num 50 ]})]>
             (<["style" := VObj defaultStyle]>
                {[ "visible" := VBool true ]})))).

(** The form after [resetForm()]. *)
Definition resetForm : form :=
  {| showForm := false; editingOverlay := None;
     formData := defaultFormData; formErrors := ∅ |}.

(** The id passed on as [overlay._id]; ids are strings. *)
Definition id_of (overlay : obj) : option string :=
  match overlay !! "_id" with
  | Some (VStr s) => Some s
  | _ => None
  end.

Section Form.
(** [String.prototype.trim] and the test [isValidUrl] (whether [new URL]
    accepts the string) are left abstract. *)
Variable trim : string -> string.
Variable isValidUrl : string -> bool.
Variable StringToNumber : string -> number.
Variable srv : remote.

Definition is_text (v : value) : bool :=
  match v with VStr s => String.eqb s "text" | _ => false end.

Definition is_logo (v : value) : bool :=
  match v with VStr s => String.eqb s "logo" | _ => false end.

(** [validateForm()]: the [errors] it stores with [setFormErrors]; the form
    is valid when they are empty.  [None] is a TypeError: the content is not
    a string, or the position or the size is [null] or [undefined]. *)
Definition validateForm (formData : obj) : option obj :=
  match prop formData "content" with
  | VStr content =>
      let errors : obj := ∅ in
      let errors :=
        if String.eqb (trim content) ""
        then <["content" :=
                 VStr (if is_text (prop formData "type")
                       then "Text content is required"
                       else "Image URL is required")]> errors
        else errors in
      let errors :=
        if is_logo (prop formData "type")
           && negb (String.eqb (trim content) "")
           && negb (isValidUrl content)
        then <["content" := VStr "Please enter a valid image URL"]> errors
        else errors in
      match member (prop formData "position") "x",
            member (prop formData "position") "y" with
      | Some px, Some py =>
          let errors :=
            if lt_num StringToNumber px 0 || lt_num StringToNumber py 0
            then <["position" := VStr "Position values must be non-negative"]> errors
            else errors in
          match member (prop formData "size") "width",
                member (prop formData "size") "height" with
          | Some w, Some h =>
              let errors :=
                if le_num StringToNumber w 0 || le_num StringToNumber h 0
                then <["size" := VStr "Size values must be positive"]> errors
                else errors in
              let errors :=
                if gt_num StringToNumber w 1920 || gt_num StringToNumber h 1080
                then <["size" := VStr "Size values are too large (max: 1920x1080)"]> errors
                else errors in
              Some errors
          | _, _ => None
          end
      | _, _ => None
      end
  | _ => None
  end.

(** [handleSubmit(e)].  [None]: [validateForm] raised a TypeError, or the
    overlay being edited has no string [_id]. *)
Definition handleSubmit (f : form) (m : machine)
    : option (form * machine * list App.toast) :=
  match validateForm (formData f) with
  | None => None
  | Some errors =>
      let f := {| showForm := showForm f; editingOverlay := editingOverlay f;
                  formData := formData f; formErrors := errors |} in
      if negb (Nat.eqb (base.size errors) 0) then Some (f, m, [])
      else
        match editingOverlay f with
        | Some overlay =>
            match id_of overlay with
            | Some id =>
                match App.handleOverlayUpdate srv id (formData f) m with
                | (Returned _, m', toasts) => Some (resetForm, m', toasts)
                | (Thrown _, m', toasts) => Some (f, m', toasts)
                end
            | None => None
            end
        | None =>
            match App.handleOverlayCreate srv (formData f) m with
            | (Returned _, m', toasts) => Some (resetForm, m', toasts)
            | (Thrown _, m', toasts) => Some (f, m', toasts)
            end
        end
  end.

(** [toggleVisibility(overlay)] of the manager; [None] when the overlay has
    no string [_id]. *)
Definition toggleVisibility (overlay : obj) (m : machine)
    : option (machine * list App.toast) :=
  match id_of overlay with
  | Some id =>
      match App.handleOverlayUpdate srv id
              {[ "visible" := VBool (negb (truthy (prop overlay "visible"))) ]} m with
      | (_, m', toasts) => Some (m', toasts)
      end
  | None => None
  end.

End Form.
End OverlayManager.

(** ** The words of the specification *)
Module Spec.

(** *** Data-model bounds

    [size.width] in (0, 1920], [size.height] in (0, 1080], [position.x]
    and [position.y] non-negative. *)
Definition Qlt_bool (a b : Q) : bool := negb (Qle_bool b a).

Definition size_ok (v : value) : bool :=
  match v with
  | VObj s =>
      match s !! "width", s !! "height" with
      | Some (VNum (Fin w)), Some (VNum (Fin h)) =>
          Qlt_bool 0 w && Qle_bool w 1920 && Qlt_bool 0 h && Qle_bool h 1080
      | _, _ => false
      end
  | _ => false
  end.

Definition position_ok (v : value) : bool :=
  match v with
  | VObj p =>
      match p !! "x", p !! "y" with
      | Some (VNum (Fin px)), Some (VNum (Fin py)) => Qle_bool 0 px && Qle_bool 0 py
      | _, _ => false
      end
  | _ => false
  end.

Definition bounds_ok (overlay : obj) : bool :=
  size_ok (prop overlay "size") && position_ok (prop overlay "position").

(** A patch keeps the bounds when the [size] and the [position] it carries,
    if any, are within them. *)
Definition patch_ok (updateData : obj) : bool :=
  match updateData !! "size" with Some v => size_ok v | None => true end
  && match updateData !! "position" with Some v => position_ok v | None => true end.

(** *** The store operations of section 4.1 *)
Inductive operation : Type :=
  | FetchAll
  | Create (draft : obj)
  | UpdateOne (id : string) (patch : obj)
  | DeleteOne (id : string)
  | BatchUpdate (updates : list Update.t)
  | ToggleVisibility (id : string).

Definition void {A} (c : M A) : M unit := _ <- c ;; ret tt.

Definition perform (srv : remote) (op : operation) : M unit :=
  match op with
  | FetchAll => useOverlays.fetchOverlays srv
  | Create draft => void (useOverlays.createOverlay srv draft)
  | UpdateOne id patch => useOverlays.updateOverlay srv id patch
  | DeleteOne id => useOverlays.deleteOverlay srv id
  | BatchUpdate updates => void (useOverlays.batchUpdateOverlays srv updates)
  | ToggleVisibility id => useOverlays.toggleOverlayVisibility srv id
  end.

Definition patches_ok (op : operation) : bool :=
  match op with
  | UpdateOne _ patch => patch_ok patch
  | BatchUpdate updates => forallb (fun u => patch_ok (Update.data u)) updates
  | _ => true
  end.

Definition succeeded {A} (r : outcome A) : bool :=
  match r with Returned _ => true | Thrown _ => false end.

(** The remote store only ever answers [GET /overlays] with records within
    the bounds. *)
Definition remote_within_bounds (srv : remote) : Prop :=
  forall n data, overlays_reply srv n = Resolve data -> forallb bounds_ok data = true.

(** *** What the validator lets through

    The position and size tests of [validate] compare with [<], [<=] and
    [>], which are all false on [NaN]: a coordinate that is [NaN] passes. *)
Definition position_accepted (v : value) : bool :=
  match v with
  | VObj p =>
      match p !! "x", p !! "y" with
      | Some (VNum px), Some (VNum py) => negb (lt px (Fin 0)) && negb (lt py (Fin 0))
      | _, _ => false
      end
  | _ => false
  end.

Definition size_accepted (v : value) : bool :=
  match v with
  | VObj s =>
      match s !! "width", s !! "height" with
      | Some (VNum w), Some (VNum h) =>
          negb (le w (Fin 0)) && negb (le h (Fin 0))
          && negb (lt (Fin 1920) w) && negb (lt (Fin 1080) h)
      | _, _ => false
      end
  | _ => false
  end.

(** The numbers of a position or size object are all finite. *)
Definition finite_fields (v : value) (k1 k2 : string) : bool :=
  match v with
  | VObj o =>
      match o !! k1, o !! k2 with
      | Some (VNum (Fin _)), Some (VNum (Fin _)) => true
      | _, _ => false
      end
  | _ => false
  end.

(** *** The error-message extraction rule

    Prefer a structured server-provided message, fall back to the
    transport's own message, fall back to the caller-supplied default.  A
    message that is absent or empty does not count as provided. *)
Definition provided (v : value) : option value :=
  if truthy v then Some v else None.

Definition server_message (error : obj) : option value :=
  match error !! "response" with
  | Some (VObj response) =>
      match response !! "data" with
      | Some (VObj data) => data !! "error" ≫= provided
      | _ => None
      end
  | _ => None
  end.

Definition transport_message (error : obj) : option value :=
  error !! "message" ≫= provided.

Definition extraction_rule (error : obj) (default : value) : value :=
  match server_message error with
  | Some msg => msg
  | None =>
      match transport_message error with
      | Some msg => msg
      | None => default
      end
  end.

(** *** Coordinates a drag may send

    A coordinate is a whole number of pixels that is not negative, or [NaN]
    (when the size of the overlay is not numeric). *)
Definition drag_coordinate (n : number) : Prop :=
  n = NaN \/ exists z : Z, (0 <= z)%Z /\ n = Fin (inject_Z z).

(** *** The waits of a retry

    [delay], [2 * delay], ..., [k * delay]. *)
Definition backoff (delay : Q) (k : nat) : list Q :=
  map (fun j => Double.times delay (inject_Z (Z.of_nat j + 1))) (seq 0 k).

(** *** Coordinates on a binary grid

    Multiples of [2^g] that are less than [2^51] steps from the origin:
    whole pixels for [g = 0], halves for [g = -1], and so on.  The
    differences a drag takes of such coordinates are doubles again, so that
    its subtractions are exact. *)
Definition on_grid (g : Z) (q : Q) : Prop :=
  exists z : Z, (Z.abs z < 2 ^ 51)%Z /\ (q == inject_Z z * Double.pow2 g)%Q.

(** *** The clamp law

    [c] is [v] clamped to the range [0, hi]; a range with [hi < 0] has
    collapsed and pins to the origin. *)
Definition clamped (v hi c : Q) : Prop :=
  (hi < 0 -> c == 0)%Q /\
  (0 <= hi -> 0 <= c <= hi)%Q /\
  (0 <= hi -> 0 <= v <= hi -> c == v)%Q /\
  (0 <= hi -> v <= 0 -> c == 0)%Q /\
  (0 <= hi -> hi <= v -> c == hi)%Q.

(** [z] is [c] rounded to the nearest integer. *)
Definition rounded (c : Q) (z : Z) : Prop :=
  (inject_Z z - (1 # 2) <= c < inject_Z z + (1 # 2))%Q.

(** A record after several patches, each merged with its own stamp, in
    order. *)
Fixpoint merge_each (o : obj) (patches : list obj) (stamps : list string) : obj :=
  match patches, stamps with
  | p :: ps, t :: ts => merge_each (merged o p t) ps ts
  | _, _ => o
  end.

(** The field [k] of a record after several patches, in order: the value
    given by the last patch that carries the field, the old value when none
    does. *)
Definition last_write (k : string) (patches : list obj) (old : option value)
    : option value :=
  fold_left (fun acc p => match p !! k with Some v => Some v | None => acc end)
    patches old.

(** The patches of a batch that are meant for the record [id]. *)
Definition patches_for (id : string) (us : list Update.t) : list obj :=
  Update.data <$> List.filter (fun u => String.eqb (Update.id u) id) us.

(** The request [batchUpdate] issues for one element. *)
Definition put_of (u : Update.t) : request :=
  PutOverlay (Update.id u) (Update.data u).

(** How [Promise.allSettled] records a reply. *)
Definition settled_of {A} (r : reply A) : settled A :=
  match r with
  | Resolve data => Fulfilled data
  | Reject e => Rejected e
  end.

Definition resolved {A} (r : reply A) : bool :=
  match r with Resolve _ => true | Reject _ => false end.

(** *** fetchAll

    One [GET /overlays]; on success the collection is replaced wholesale,
    on failure it is kept and the error message is set. *)
Definition after_fetch (srv : remote) (m : machine) : machine :=
  {| ui :=
       match overlays_reply srv (length (sent m)) with
       | Resolve data => {| overlays := data; loading := false; error := VNull |}
       | Reject e =>
           {| overlays := overlays (ui m); loading := false;
              error := apiUtils.handleError e (VStr "Failed to fetch overlays") |}
       end;
     sent := sent m ++ [GetOverlays];
     ticks := ticks m |}.

End Spec.

(** ** Concrete stores and inputs used by the examples *)
Module Examples.

Definition xy (px py : Z) : value :=
  VObj (<["y" := num py]> {[ "x" := num px ]}).

Definition wh (w h : Z) : value :=
  VObj (<["height" := num h]> {[ "width" := num w ]}).

(** A text overlay of 200 by 50 at the given position. *)
Definition overlay (id : string) (px py : Z) (visible : bool) : obj :=
  <["_id" := VStr id]>
    (<["type" := VStr "text"]>
       (<["content" := VStr "Live"]>
          (<["position" := xy px py]>
             (<["size" := wh 200 50]>
                {[ "visible" := VBool visible ]})))).

(** The same record as the backend may serve it, without [visible]. *)
Definition unflagged (id : string) (px py : Z) : obj :=
  delete "visible" (overlay id px py true).

(** The draft of the specification's validation example: a logo with empty
    content. *)
Definition empty_logo : obj :=
  <["type" := VStr "logo"]>
    (<["content" := VStr ""]>
       (<["position" := xy 1 1]> {[ "size" := wh 100 100 ]})).

Definition move_to (px py : Z) : obj := {[ "position" := xy px py ]}.

Definition network_error : obj := {[ "message" := VStr "Network Error" ]}.

Definition not_found : obj :=
  <["message" := VStr "Request failed with status code 404"]>
    {[ "response" := VObj {[ "data" := VObj {[ "error" := VStr "Overlay not found" ]} ]} ]}.

Definition stamp_of (n : nat) : string :=
  if Nat.eqb n 0 then "2024-01-01T00:00:00.000Z" else "2024-01-01T00:00:01.000Z".

(** A backend that accepts every mutation and serves [stored]. *)
Definition accepting (stored : list obj) : remote :=
  {| overlays_reply := fun _ => Resolve stored;
     mutation_reply := fun _ _ => Resolve VNull;
     toISOString := stamp_of |}.

(** A backend that is down. *)
Definition unreachable : remote :=
  {| overlays_reply := fun _ => Reject network_error;
     mutation_reply := fun _ _ => Reject network_error;
     toISOString := stamp_of |}.

(** A backend that rejects the [k]-th request and accepts the others. *)
Definition rejecting_nth (k : nat) (stored : list obj) : remote :=
  {| overlays_reply := fun _ => Resolve stored;
     mutation_reply := fun n _ => if Nat.eqb n k then Reject not_found else Resolve VNull;
     toISOString := stamp_of |}.

(** A drag of [A], grabbed 5 pixels inside its box, over a container of 800
    by 450 whose corner is at (100, 20). *)
Definition dragging_A : VideoPlayer.drag :=
  {| VideoPlayer.draggedOverlay := Some "A";
     VideoPlayer.dragOffset := {| VideoPlayer.x := 5; VideoPlayer.y := 5 |};
     VideoPlayer.isDragging := true |}.

Definition container : VideoPlayer.rect :=
  {| VideoPlayer.left := 100; VideoPlayer.top := 20;
     VideoPlayer.width := 800; VideoPlayer.height := 450 |}.

(** A container smaller than the overlay. *)
Definition narrow_container : VideoPlayer.rect :=
  {| VideoPlayer.left := 100; VideoPlayer.top := 20;
     VideoPlayer.width := 150; VideoPlayer.height := 30 |}.

(** The doubles written [0.1], [0.2], [0.4] and [0.7], and those written
    [300.7] and [100.2]. *)
Definition tenth : Q := 3602879701896397 # 36028797018963968.
Definition fifth : Q := 3602879701896397 # 18014398509481984.
Definition two_fifths : Q := 3602879701896397 # 9007199254740992.
Definition seven_tenths : Q := 3152519739159347 # 4503599627370496.
Definition d300_7 : Q := 5289970343555891 # 17592186044416.
Definition d100_2 : Q := 7050948166601933 # 70368744177664.

(** A container whose corner is a tenth of a pixel off the origin, and the
    box of an overlay in its corner. *)
Definition offset_container : VideoPlayer.rect :=
  {| VideoPlayer.left := tenth; VideoPlayer.top := 0;
     VideoPlayer.width := 800; VideoPlayer.height := 450 |}.

Definition corner_box : VideoPlayer.rect :=
  {| VideoPlayer.left := tenth; VideoPlayer.top := 0;
     VideoPlayer.width := 200; VideoPlayer.height := 50 |}.

(** A drag of [A] grabbed [0.4] pixels inside its box. *)
Definition dragging_A_at_0_4 : VideoPlayer.drag :=
  {| VideoPlayer.draggedOverlay := Some "A";
     VideoPlayer.dragOffset := {| VideoPlayer.x := two_fifths; VideoPlayer.y := 0 |};
     VideoPlayer.isDragging := true |}.

(** A container [300.7] wide and an overlay [100.2] wide. *)
Definition fractional_container : VideoPlayer.rect :=
  {| VideoPlayer.left := 0; VideoPlayer.top := 0;
     VideoPlayer.width := d300_7; VideoPlayer.height := 450 |}.

Definition fractional_A : obj :=
  <["size" := VObj (<["height" := num 50]> {[ "width" := VNum (Fin d100_2) ]})]>
    (overlay "A" 10 10 true).

(** Nothing is being dragged. *)
Definition idle : VideoPlayer.drag :=
  {| VideoPlayer.draggedOverlay := None;
     VideoPlayer.dragOffset := {| VideoPlayer.x := 0; VideoPlayer.y := 0 |};
     VideoPlayer.isDragging := false |}.

(** The box of [A] (at (10, 10), 200 by 50) inside [container]. *)
Definition box_of_A : VideoPlayer.rect :=
  {| VideoPlayer.left := 110; VideoPlayer.top := 30;
     VideoPlayer.width := 200; VideoPlayer.height := 50 |}.

Definition server_down : obj :=
  <["message" := VStr "Request failed with status code 503"]>
    {[ "response" := VObj (<["status" := num 503]>
                             {[ "data" := VObj {[ "error" := VStr "Service unavailable" ]} ]}) ]}.

(** A backend that answers every mutation with a 503. *)
Definition overloaded : remote :=
  {| overlays_reply := fun _ => Reject server_down;
     mutation_reply := fun _ _ => Reject server_down;
     toISOString := stamp_of |}.

Definition gone : obj :=
  <["message" := VStr "Request failed with status code 404"]>
    {[ "response" := VObj (<["status" := num 404]>
                             {[ "data" := VObj {[ "error" := VStr "Overlay not found" ]} ]}) ]}.

(** A backend that answers every mutation with a 404. *)
Definition forgetful : remote :=
  {| overlays_reply := fun _ => Resolve [];
     mutation_reply := fun _ _ => Reject gone;
     toISOString := stamp_of |}.

(** The form filled in to rename [A], and the form filled in for a new
    overlay. *)
Definition renamed_A : obj := <["content" := VStr "Replay"]> (overlay "A" 10 10 true).

Definition editing_A : OverlayManager.form :=
  {| OverlayManager.showForm := true;
     OverlayManager.editingOverlay := Some (overlay "A" 10 10 true);
     OverlayManager.formData := renamed_A;
     OverlayManager.formErrors := ∅ |}.

Definition new_text : obj := <["content" := VStr "Live"]> OverlayManager.defaultFormData.

Definition creating : OverlayManager.form :=
  {| OverlayManager.showForm := true;
     OverlayManager.editingOverlay := None;
     OverlayManager.formData := new_text;
     OverlayManager.formErrors := ∅ |}.

(** Stand-ins for [trim] and [isValidUrl] in the examples. *)
Definition no_trim (s : string) : string := s.
Definition any_url (s : string) : bool := true.

Definition no_numeric_strings (s : string) : number := NaN.

(** Three position updates, one per overlay of [three_overlays]. *)
Definition three_updates : list Update.t :=
  [ {| Update.id := "A"; Update.data := move_to 50 60 |};
    {| Update.id := "B"; Update.data := move_to 1 2 |};
    {| Update.id := "C"; Update.data := move_to 7 8 |} ].

Definition started (l : list obj) : machine :=
  {| ui := {| overlays := l; loading := false; error := VNull |}; sent := []; ticks := 0 |}.

Definition two_overlays : list obj := [overlay "A" 10 10 true; overlay "B" 300 40 true].

Definition three_overlays : list obj :=
  [overlay "A" 10 10 true; overlay "B" 300 40 true; overlay "C" 5 90 false].

End Examples.

(** * Properties *)

Import useOverlays Spec.

(** ** Running the monad *)

Lemma bind_returned {A B} (c : M A) (k : A -> M B) m a m' :
  c m = (Returned a, m') -> bind c k m = k a m'.
Proof. intros H. unfold bind. now rewrite H. Qed.

Lemma bind_thrown {A B} (c : M A) (k : A -> M B) m e m' :
  c m = (Thrown e, m') -> bind c k m = (Thrown e, m').
Proof. intros H. unfold bind. now rewrite H. Qed.

(** ** fetchOverlays *)

Lemma fetchOverlays_run srv m :
  fetchOverlays srv m = (Returned tt, after_fetch srv m).
Proof.
  unfold fetchOverlays, after_fetch, overlayAPI.getAll, api_get_overlays,
    try_finally, try_catch, bind, setLoading, setError, setOverlays; simpl.
  destruct (overlays_reply srv (length (sent m))); reflexivity.
Qed.

(** The message [handleError] returns with a non-empty default is never
    empty: an error is always surfaced. *)
Lemma handleError_truthy error s :
  s <> "" -> truthy (apiUtils.handleError error (VStr s)) = true.
Proof.
  intros Hs. unfold apiUtils.handleError.
  destruct (truthy (opt_member _ _)) eqn:E1; [exact E1|].
  destruct (truthy (prop error "message")) eqn:E2; [exact E2|].
  simpl. destruct (String.eqb_spec s ""); [contradiction|reflexivity].
Qed.

(** C6.  A failed [fetchAll] leaves the previous collection untouched and
    surfaces a non-empty error message; only a successful fetch replaces the
    collection, and then wholesale by the fetched one.  In both cases the
    call returns with [loading] cleared after exactly one [GET /overlays]. *)
Theorem fetchOverlays_failure_keeps_collection (srv : remote) (m : machine) :
  let m' := snd (fetchOverlays srv m) in
  fst (fetchOverlays srv m) = Returned tt /\
  sent m' = sent m ++ [GetOverlays] /\
  loading (ui m') = false /\
  match overlays_reply srv (length (sent m)) with
  | Reject e =>
      overlays (ui m') = overlays (ui m) /\
      error (ui m') = apiUtils.handleError e (VStr "Failed to fetch overlays") /\
      truthy (error (ui m')) = true
  | Resolve data =>
      overlays (ui m') = data /\ error (ui m') = VNull
  end.
Proof.
  rewrite fetchOverlays_run. unfold after_fetch; simpl.
  destruct (overlays_reply srv (length (sent m))); simpl;
    repeat split; try reflexivity.
  now apply handleError_truthy.
Qed.

(** ** apiUtils.handleError *)

Lemma handleError_extraction_rule (error : obj) (s : string) :
  apiUtils.handleError error (VStr s) = extraction_rule error (VStr s).
Proof.
  unfold apiUtils.handleError, extraction_rule, server_message,
    transport_message, provided, opt_member, member, prop.
  destruct (error !! "response") as [[| | | | |response]|]; simpl;
    try (destruct (error !! "message") as [msg|]; simpl;
         [destruct (truthy msg)|]; reflexivity).
  destruct (response !! "data") as [[| | | | |data]|]; simpl;
    try (destruct (error !! "message") as [msg|]; simpl;
         [destruct (truthy msg)|]; reflexivity).
  destruct (data !! "error") as [srv_msg|]; simpl;
    [destruct (truthy srv_msg); simpl|];
    try reflexivity;
    (destruct (error !! "message") as [msg|]; simpl;
     [destruct (truthy msg)|]; reflexivity).
Qed.

(** The state a failed mutation leaves in [error]. *)
Lemma createOverlay_rejected srv draft m e :
  mutation_reply srv (length (sent m)) (PostOverlay draft) = Reject e ->
  createOverlay srv draft m =
    (Thrown e,
     {| ui := {| overlays := overlays (ui m); loading := loading (ui m);
                 error := apiUtils.handleError e (VStr "Failed to create overlay") |};
        sent := sent m ++ [PostOverlay draft]; ticks := ticks m |}).
Proof.
  intros H. unfold createOverlay, try_catch, bind, overlayAPI.create, api_mutate.
  rewrite H. reflexivity.
Qed.

Lemma createOverlay_resolved srv draft m response :
  mutation_reply srv (length (sent m)) (PostOverlay draft) = Resolve response ->
  createOverlay srv draft m =
    (Returned response, after_fetch srv (record_request (PostOverlay draft) m)).
Proof.
  intros H. unfold createOverlay, try_catch, bind, overlayAPI.create, api_mutate.
  rewrite H, fetchOverlays_run. reflexivity.
Qed.

Lemma updateOverlay_rejected srv id updateData m e :
  mutation_reply srv (length (sent m)) (PutOverlay id updateData) = Reject e ->
  updateOverlay srv id updateData m =
    (Thrown e,
     let m1 := after_fetch srv (record_request (PutOverlay id updateData) m) in
     {| ui := {| overlays := overlays (ui m1); loading := false;
                 error := apiUtils.handleError e (VStr "Failed to update overlay") |};
        sent := sent m ++ [PutOverlay id updateData; GetOverlays];
        ticks := ticks m |}).
Proof.
  intros H. unfold updateOverlay, try_catch, bind, overlayAPI.update, api_mutate.
  rewrite H, fetchOverlays_run. unfold setError, throw, after_fetch; simpl.
  rewrite <- app_assoc; simpl.
  destruct (overlays_reply srv _); reflexivity.
Qed.

Lemma deleteOverlay_rejected srv id m e :
  mutation_reply srv (length (sent m)) (DeleteOverlay id) = Reject e ->
  deleteOverlay srv id m =
    (Thrown e,
     let m1 := after_fetch srv (record_request (DeleteOverlay id) m) in
     {| ui := {| overlays := overlays (ui m1); loading := false;
                 error := apiUtils.handleError e (VStr "Failed to delete overlay") |};
        sent := sent m ++ [DeleteOverlay id; GetOverlays];
        ticks := ticks m |}).
Proof.
  intros H. unfold deleteOverlay, try_catch, bind, overlayAPI.delete, api_mutate.
  rewrite H, fetchOverlays_run. unfold setError, throw, after_fetch; simpl.
  rewrite <- app_assoc; simpl.
  destruct (overlays_reply srv _); reflexivity.
Qed.

Lemma deleteOverlay_resolved srv id m response :
  mutation_reply srv (length (sent m)) (DeleteOverlay id) = Resolve response ->
  deleteOverlay srv id m =
    (Returned tt,
     {| ui := {| overlays := List.filter (fun o => negb (has_id id o)) (overlays (ui m));
                 loading := loading (ui m); error := error (ui m) |};
        sent := sent m ++ [DeleteOverlay id]; ticks := ticks m |}).
Proof.
  intros H. unfold deleteOverlay, try_catch, bind, overlayAPI.delete, api_mutate.
  rewrite H. reflexivity.
Qed.

(** C8.  [handleError] is the extraction rule of the specification: the
    structured server-provided message when there is one, otherwise the
    transport's own message when there is one, otherwise the caller's default
    string.  Every failed remote call of the store (fetch, create, update,
    delete) surfaces in [error] the message this rule computes. *)
Theorem handleError_single_extraction_rule (srv : remote) (m : machine) :
  (forall error s,
     apiUtils.handleError error (VStr s) = extraction_rule error (VStr s)) /\
  (forall e, overlays_reply srv (length (sent m)) = Reject e ->
     error (ui (snd (fetchOverlays srv m))) =
       extraction_rule e (VStr "Failed to fetch overlays")) /\
  (forall draft e,
     mutation_reply srv (length (sent m)) (PostOverlay draft) = Reject e ->
     error (ui (snd (createOverlay srv draft m))) =
       extraction_rule e (VStr "Failed to create overlay")) /\
  (forall id updateData e,
     mutation_reply srv (length (sent m)) (PutOverlay id updateData) = Reject e ->
     error (ui (snd (updateOverlay srv id updateData m))) =
       extraction_rule e (VStr "Failed to update overlay")) /\
  (forall id e,
     mutation_reply srv (length (sent m)) (DeleteOverlay id) = Reject e ->
     error (ui (snd (deleteOverlay srv id m))) =
       extraction_rule e (VStr "Failed to delete overlay")).
Proof.
  split; [exact handleError_extraction_rule|].
  split; [|split; [|split]].
  - intros e H. rewrite fetchOverlays_run. unfold after_fetch; simpl.
    rewrite H. simpl. apply handleError_extraction_rule.
  - intros draft e H. rewrite (createOverlay_rejected _ _ _ _ H). simpl.
    apply handleError_extraction_rule.
  - intros id updateData e H. rewrite (updateOverlay_rejected _ _ _ _ _ H). simpl.
    apply handleError_extraction_rule.
  - intros id e H. rewrite (deleteOverlay_rejected _ _ _ _ H). simpl.
    apply handleError_extraction_rule.
Qed.

(** The theorem at an update rejected with a 404. *)
Lemma handleError_single_extraction_rule_witness :
  error (ui (snd (updateOverlay (Examples.rejecting_nth 0 []) "A"
                    (Examples.move_to 50 60)
                    (Examples.started Examples.two_overlays))))
  = extraction_rule Examples.not_found (VStr "Failed to update overlay").
Proof.
  exact (proj1 (proj2 (proj2 (proj2
           (handleError_single_extraction_rule (Examples.rejecting_nth 0 [])
              (Examples.started Examples.two_overlays)))))
           "A" (Examples.move_to 50 60) Examples.not_found eq_refl).
Defined.

(** ** updateOverlay *)

(** How a merged record reads: the stamp under [updated_at], the patch
    where it has the key, the old record elsewhere. *)
Lemma merged_lookup (overlay updateData : obj) (stamp k : string) :
  merged overlay updateData stamp !! k =
    if String.eqb k "updated_at" then Some (VStr stamp)
    else match updateData !! k with
         | Some v => Some v
         | None => overlay !! k
         end.
Proof.
  unfold merged. destruct (String.eqb_spec k "updated_at") as [->|Hk].
  - apply lookup_insert_eq.
  - rewrite lookup_insert_ne by congruence.
    rewrite lookup_union. destruct (updateData !! k), (overlay !! k); reflexivity.
Qed.

(** The optimistic [map]: every record with the id is merged and stamped
    with a reading of the clock taken during the call, the others are
    kept. *)
Lemma map_M_merge srv id updateData (l : list obj) (m : machine) :
  exists l' k,
    map_M (fun overlay =>
             if has_id id overlay
             then stamp <- now srv ;; ret (merged overlay updateData stamp)
             else ret overlay) l m
    = (Returned l', {| ui := ui m; sent := sent m; ticks := ticks m + k |}) /\
    length l' = length l /\
    forall j overlay, l !! j = Some overlay ->
      if has_id id overlay
      then exists t, ticks m <= t < ticks m + k /\
             l' !! j = Some (merged overlay updateData (toISOString srv t))
      else l' !! j = Some overlay.
Proof.
  revert m. induction l as [|o l IH]; intros m.
  - exists [], 0. simpl. unfold ret. rewrite Nat.add_0_r.
    destruct m; simpl. repeat split. intros j overlay H. discriminate.
  - simpl. destruct (has_id id o) eqn:Ho.
    + destruct (IH {| ui := ui m; sent := sent m; ticks := S (ticks m) |})
        as (l' & k & Hrun & Hlen & Hl'). simpl in *.
      exists (merged o updateData (toISOString srv (ticks m)) :: l'), (S k).
      split; [|split].
      * unfold bind at 1. unfold bind at 1. unfold now at 1. simpl.
        unfold bind at 1. rewrite Hrun. unfold ret. simpl.
        repeat f_equal. lia.
      * simpl. now rewrite Hlen.
      * intros [|j] overlay Hj; simpl in Hj.
        -- injection Hj as <-. rewrite Ho. exists (ticks m). split; [lia|reflexivity].
        -- specialize (Hl' j overlay Hj). destruct (has_id id overlay).
           ++ destruct Hl' as (t & Ht & Hl't). exists t. split; [lia|exact Hl't].
           ++ exact Hl'.
    + destruct (IH m) as (l' & k & Hrun & Hlen & Hl').
      exists (o :: l'), k. split; [|split].
      * unfold bind at 1. unfold ret at 1. unfold bind at 1. rewrite Hrun.
        reflexivity.
      * simpl. now rewrite Hlen.
      * intros [|j] overlay Hj; simpl in Hj.
        -- injection Hj as <-. rewrite Ho. reflexivity.
        -- exact (Hl' j overlay Hj).
Qed.

Lemma updateOverlay_resolved srv id updateData m response :
  mutation_reply srv (length (sent m)) (PutOverlay id updateData) = Resolve response ->
  exists l' k,
    updateOverlay srv id updateData m =
      (Returned tt,
       {| ui := {| overlays := l'; loading := loading (ui m); error := error (ui m) |};
          sent := sent m ++ [PutOverlay id updateData];
          ticks := ticks m + k |}) /\
    length l' = length (overlays (ui m)) /\
    forall j overlay, overlays (ui m) !! j = Some overlay ->
      if has_id id overlay
      then exists t, ticks m <= t < ticks m + k /\
             l' !! j = Some (merged overlay updateData (toISOString srv t))
      else l' !! j = Some overlay.
Proof.
  intros H.
  destruct (map_M_merge srv id updateData (overlays (ui m))
              (record_request (PutOverlay id updateData) m))
    as (l' & k & Hrun & Hlen & Hl').
  exists l', k. split; [|split; assumption].
  unfold updateOverlay, try_catch, bind at 1, overlayAPI.update, api_mutate.
  rewrite H. unfold updateOverlays, bind at 1, readOverlays.
  unfold bind at 1. simpl in Hrun |- *. rewrite Hrun. reflexivity.
Qed.

Lemma after_fetch_recorded srv r m :
  overlays (ui (after_fetch srv (record_request r m))) =
    match overlays_reply srv (S (length (sent m))) with
    | Resolve data => data
    | Reject _ => overlays (ui m)
    end.
Proof.
  unfold after_fetch, record_request; simpl.
  rewrite length_app, Nat.add_1_r; simpl.
  destruct (overlays_reply srv _); reflexivity.
Qed.

(** C1.  [update(id, patch)].  When the remote store accepts the patch, the
    call returns after that single request, and every local record with the
    id is the old record merged with the patch and stamped with a reading of
    the clock taken during the call, all other records being kept.  When the
    remote store rejects it, the call re-throws the error after a full
    [fetchAll]: the collection is what that fetch leaves (the fetched
    collection when it answers), never the optimistic merge. *)
Theorem updateOverlay_optimistic_then_correct
    (srv : remote) (id : string) (updateData : obj) (m : machine) :
  let put := PutOverlay id updateData in
  let r := fst (updateOverlay srv id updateData m) in
  let m' := snd (updateOverlay srv id updateData m) in
  match mutation_reply srv (length (sent m)) put with
  | Resolve _ =>
      r = Returned tt /\
      sent m' = sent m ++ [put] /\
      error (ui m') = error (ui m) /\
      length (overlays (ui m')) = length (overlays (ui m)) /\
      forall j overlay, overlays (ui m) !! j = Some overlay ->
        if has_id id overlay
        then exists t updated,
               ticks m <= t < ticks m' /\
               overlays (ui m') !! j = Some updated /\
               updated = merged overlay updateData (toISOString srv t) /\
               updated !! "updated_at" = Some (VStr (toISOString srv t)) /\
               forall k, k <> "updated_at" ->
                 updated !! k = match updateData !! k with
                                | Some v => Some v
                                | None => overlay !! k
                                end
        else overlays (ui m') !! j = Some overlay
  | Reject e =>
      r = Thrown e /\
      sent m' = sent m ++ [put; GetOverlays] /\
      overlays (ui m') = overlays (ui (snd (fetchOverlays srv (record_request put m)))) /\
      overlays (ui m') =
        match overlays_reply srv (S (length (sent m))) with
        | Resolve data => data
        | Reject _ => overlays (ui m)
        end /\
      error (ui m') = apiUtils.handleError e (VStr "Failed to update overlay")
  end.
Proof.
  intros put r m'. subst put r m'.
  destruct (mutation_reply srv (length (sent m)) (PutOverlay id updateData))
    as [response|e] eqn:Hreply.
  - destruct (updateOverlay_resolved srv id updateData m response Hreply)
      as (l' & k & Hrun & Hlen & Hl').
    rewrite Hrun; simpl. repeat split; try assumption.
    intros j overlay Hj. specialize (Hl' j overlay Hj).
    destruct (has_id id overlay); [|exact Hl'].
    destruct Hl' as (t & Ht & Hl't).
    exists t, (merged overlay updateData (toISOString srv t)).
    repeat split; try assumption; try lia.
    + rewrite merged_lookup. reflexivity.
    + intros k' Hk'. rewrite merged_lookup.
      destruct (String.eqb_spec k' "updated_at"); [contradiction|reflexivity].
  - rewrite (updateOverlay_rejected srv id updateData m e Hreply).
    rewrite fetchOverlays_run. cbv zeta. cbn [fst snd ui overlays error sent].
    rewrite after_fetch_recorded. repeat split; reflexivity.
Qed.

(** The theorem at the update of [A], first record of the collection. *)
Lemma updateOverlay_optimistic_then_correct_witness :
  exists t updated,
    overlays (ui (snd (updateOverlay (Examples.accepting []) "A"
                         (Examples.move_to 50 60)
                         (Examples.started Examples.two_overlays)))) !! 0
      = Some updated /\
    updated = merged (Examples.overlay "A" 10 10 true) (Examples.move_to 50 60)
                (Examples.stamp_of t) /\
    updated !! "position" = Some (Examples.xy 50 60).
Proof.
  destruct (proj2 (proj2 (proj2 (proj2
              (updateOverlay_optimistic_then_correct (Examples.accepting []) "A"
                 (Examples.move_to 50 60)
                 (Examples.started Examples.two_overlays)))))
              0 (Examples.overlay "A" 10 10 true) eq_refl)
    as (t & updated & _ & Hj & Hmerged & _ & Hkeys).
  exists t, updated. split; [exact Hj|]. split; [exact Hmerged|].
  exact (Hkeys "position" ltac:(discriminate)).
Defined.

(** The example of the specification: overlay [A] at (10, 10) updated with
    position (50, 60). *)
Example update_position_accepted :
  updateOverlay (Examples.accepting []) "A" (Examples.move_to 50 60)
    (Examples.started Examples.two_overlays)
  = (Returned tt,
     {| ui := {| overlays :=
                   [ <["updated_at" := VStr "2024-01-01T00:00:00.000Z"]>
                       (Examples.overlay "A" 50 60 true);
                     Examples.overlay "B" 300 40 true ];
                 loading := false; error := VNull |};
        sent := [PutOverlay "A" (Examples.move_to 50 60)];
        ticks := 1 |}).
Proof. vm_compute. reflexivity. Qed.

(** The same update rejected by the remote store: the collection is the
    fetched one, where [A] stands at (20, 20). *)
Example update_position_rejected :
  updateOverlay (Examples.rejecting_nth 0 [Examples.overlay "A" 20 20 true]) "A"
    (Examples.move_to 50 60) (Examples.started Examples.two_overlays)
  = (Thrown Examples.not_found,
     {| ui := {| overlays := [Examples.overlay "A" 20 20 true];
                 loading := false; error := VStr "Overlay not found" |};
        sent := [PutOverlay "A" (Examples.move_to 50 60); GetOverlays];
        ticks := 0 |}).
Proof. vm_compute. reflexivity. Qed.

(** ** Lookups by id *)

Lemma find_None_has_id id (l : list obj) :
  find (has_id id) l = None ->
  forall j overlay, l !! j = Some overlay -> has_id id overlay = false.
Proof.
  unfold find. intros H j overlay Hj.
  destruct (list_find (fun a => has_id id a = true) l) as [p|] eqn:E; [discriminate|].
  apply list_find_None in E. rewrite Forall_lookup in E.
  specialize (E j overlay Hj). simpl in E.
  destruct (has_id id overlay); [contradiction E; reflexivity|reflexivity].
Qed.

Lemma find_Some_has_id id (l : list obj) overlay :
  find (has_id id) l = Some overlay ->
  has_id id overlay = true /\ exists j, l !! j = Some overlay.
Proof.
  unfold find. intros H.
  destruct (list_find (fun a => has_id id a = true) l) as [[j o]|] eqn:E;
    [|discriminate].
  simpl in H. injection H as ->.
  apply list_find_Some in E. destruct E as (Hj & Ho & _).
  split; [exact Ho|exists j; exact Hj].
Qed.

(** C10.  [update(id, patch)] for an id that no local record carries still
    sends the update request; when the remote store accepts it, the call
    returns normally and the hook state (collection, loading flag, error) is
    exactly what it was. *)
Theorem updateOverlay_absent_id
    (srv : remote) (id : string) (updateData : obj) (m : machine) :
  getOverlay (overlays (ui m)) id = None ->
  let put := PutOverlay id updateData in
  let r := fst (updateOverlay srv id updateData m) in
  let m' := snd (updateOverlay srv id updateData m) in
  (exists rest, sent m' = sent m ++ put :: rest) /\
  match mutation_reply srv (length (sent m)) put with
  | Resolve _ => r = Returned tt /\ sent m' = sent m ++ [put] /\ ui m' = ui m
  | Reject e => r = Thrown e
  end.
Proof.
  intros Habsent put r m'. subst put r m'.
  destruct (mutation_reply srv (length (sent m)) (PutOverlay id updateData))
    as [response|e] eqn:Hreply.
  - destruct (updateOverlay_resolved srv id updateData m response Hreply)
      as (l' & k & Hrun & Hlen & Hl').
    rewrite Hrun; simpl. split; [exists []; reflexivity|].
    repeat split.
    assert (l' = overlays (ui m)) as ->.
    { apply list_eq. intros j.
      destruct (overlays (ui m) !! j) as [overlay|] eqn:Hj.
      - specialize (Hl' j overlay Hj).
        rewrite (find_None_has_id id _ Habsent j overlay Hj) in Hl'. exact Hl'.
      - apply lookup_ge_None. apply lookup_ge_None in Hj. lia. }
    destruct m as [[l ld err] s t]; reflexivity.
  - rewrite (updateOverlay_rejected srv id updateData m e Hreply); simpl.
    split; [exists [GetOverlays]; reflexivity|reflexivity].
Qed.

(** An update of [Z], which is not in the collection, accepted remotely. *)
Lemma updateOverlay_absent_id_witness :
  updateOverlay (Examples.accepting []) "Z" (Examples.move_to 50 60)
    (Examples.started Examples.two_overlays)
  = (Returned tt,
     {| ui := ui (Examples.started Examples.two_overlays);
        sent := [PutOverlay "Z" (Examples.move_to 50 60)];
        ticks := ticks (snd (updateOverlay (Examples.accepting []) "Z"
                               (Examples.move_to 50 60)
                               (Examples.started Examples.two_overlays))) |}).
Proof.
  pose proof (updateOverlay_absent_id (Examples.accepting []) "Z"
                (Examples.move_to 50 60) (Examples.started Examples.two_overlays)
                eq_refl) as H.
  cbv zeta in H. destruct H as (_ & Hr & Hs & Hu).
  destruct (updateOverlay _ _ _ _) as [r m']. simpl in *.
  destruct m' as [u s t]. simpl in *. subst. reflexivity.
Defined.

(** ** toggleOverlayVisibility *)

Lemma try_catch_rethrow {A} (c : M A) (m : machine) :
  try_catch c (fun error => throw error) m = c m.
Proof. unfold try_catch, throw. destruct (c m) as [[a|e] m']; reflexivity. Qed.

Lemma toggleOverlayVisibility_found srv id m overlay :
  getOverlay (overlays (ui m)) id = Some overlay ->
  toggleOverlayVisibility srv id m =
    updateOverlay srv id
      {[ "visible" := VBool (negb (truthy (prop overlay "visible"))) ]} m.
Proof.
  intros H. unfold toggleOverlayVisibility, bind, readOverlays.
  unfold getOverlay in H. rewrite H. apply try_catch_rethrow.
Qed.

Lemma toggleOverlayVisibility_absent srv id m :
  getOverlay (overlays (ui m)) id = None ->
  toggleOverlayVisibility srv id m = (Returned tt, m).
Proof.
  intros H. unfold toggleOverlayVisibility, bind, readOverlays.
  unfold getOverlay in H. rewrite H. reflexivity.
Qed.

(** What the patch [{ visible: b }] does to a record. *)
Lemma merged_visible (overlay : obj) (b : bool) (stamp k : string) :
  merged overlay {[ "visible" := VBool b ]} stamp !! k =
    if String.eqb k "updated_at" then Some (VStr stamp)
    else if String.eqb k "visible" then Some (VBool b)
    else overlay !! k.
Proof.
  rewrite merged_lookup. destruct (String.eqb k "updated_at"); [reflexivity|].
  destruct (String.eqb_spec k "visible") as [->|Hk].
  - now rewrite lookup_singleton_eq.
  - rewrite lookup_singleton_ne by congruence. reflexivity.
Qed.

(** C7.  [toggleVisibility(id)].  For an id that is not in the local
    collection the call returns at once: no request is sent and nothing
    changes.  For an id whose record has [visible = true], once the remote
    store accepts the update, a record with that id reads [visible = false]
    and a fresh [updated_at], keeps every other field, and the records with
    another id are kept as they were; so when ids are unique in the
    collection, every other record is unchanged. *)
Theorem toggleOverlayVisibility_hides_or_ignores
    (srv : remote) (id : string) (m : machine) :
  match getOverlay (overlays (ui m)) id with
  | None => toggleOverlayVisibility srv id m = (Returned tt, m)
  | Some overlay =>
      overlay !! "visible" = Some (VBool true) ->
      let put := PutOverlay id {[ "visible" := VBool false ]} in
      forall response,
        mutation_reply srv (length (sent m)) put = Resolve response ->
        let r := fst (toggleOverlayVisibility srv id m) in
        let m' := snd (toggleOverlayVisibility srv id m) in
        r = Returned tt /\
        sent m' = sent m ++ [put] /\
        length (overlays (ui m')) = length (overlays (ui m)) /\
        (forall j o, overlays (ui m) !! j = Some o ->
           if has_id id o
           then exists t updated,
                  ticks m <= t < ticks m' /\
                  overlays (ui m') !! j = Some updated /\
                  updated !! "visible" = Some (VBool false) /\
                  updated !! "updated_at" = Some (VStr (toISOString srv t)) /\
                  forall k, k <> "visible" -> k <> "updated_at" ->
                    updated !! k = o !! k
           else overlays (ui m') !! j = Some o) /\
        exists j0,
          overlays (ui m) !! j0 = Some overlay /\ has_id id overlay = true /\
          ((forall j o, overlays (ui m) !! j = Some o -> has_id id o = true -> j = j0) ->
           forall j, j <> j0 -> overlays (ui m') !! j = overlays (ui m) !! j)
  end.
Proof.
  destruct (getOverlay (overlays (ui m)) id) as [overlay|] eqn:Hget.
  - intros Hvis put response Hreply r m'. subst put r m'.
    rewrite (toggleOverlayVisibility_found srv id m overlay Hget).
    unfold prop. rewrite Hvis. simpl negb.
    destruct (updateOverlay_resolved srv id _ m response Hreply)
      as (l' & k & Hrun & Hlen & Hl').
    rewrite Hrun; cbn [fst snd ui overlays sent ticks].
    refine (conj eq_refl (conj eq_refl (conj Hlen (conj _ _)))).
    + intros j o Hj. specialize (Hl' j o Hj).
      destruct (has_id id o); [|exact Hl'].
      destruct Hl' as (t & Ht & Hl't).
      exists t, (merged o {[ "visible" := VBool false ]} (toISOString srv t)).
      refine (conj Ht (conj Hl't (conj _ (conj _ _)))).
      * rewrite merged_visible. reflexivity.
      * rewrite merged_visible. reflexivity.
      * intros k' Hv Hu. rewrite merged_visible.
        destruct (String.eqb_spec k' "updated_at"); [contradiction|].
        destruct (String.eqb_spec k' "visible"); [contradiction|reflexivity].
    + destruct (find_Some_has_id id _ overlay Hget) as (Hid & j0 & Hj0).
      exists j0. refine (conj Hj0 (conj Hid _)).
      intros Hunique j Hne.
      destruct (overlays (ui m) !! j) as [o|] eqn:Hj.
      * specialize (Hl' j o Hj). destruct (has_id id o) eqn:Ho; [|exact Hl'].
        contradiction Hne. exact (Hunique j o Hj Ho).
      * apply lookup_ge_None. apply lookup_ge_None in Hj. lia.
  - apply toggleOverlayVisibility_absent. exact Hget.
Qed.

(** The theorem at the toggle of [A], which is visible. *)
Lemma toggleOverlayVisibility_hides_or_ignores_witness :
  fst (toggleOverlayVisibility (Examples.accepting []) "A"
         (Examples.started Examples.two_overlays)) = Returned tt /\
  sent (snd (toggleOverlayVisibility (Examples.accepting []) "A"
               (Examples.started Examples.two_overlays)))
    = [PutOverlay "A" {[ "visible" := VBool false ]}].
Proof.
  destruct (toggleOverlayVisibility_hides_or_ignores (Examples.accepting []) "A"
              (Examples.started Examples.two_overlays) eq_refl VNull eq_refl)
    as (Hr & Hs & _).
  split; [exact Hr|exact Hs].
Defined.

(** Toggling the visible overlay [A] hides it and leaves [B] alone. *)
Example toggle_visible_overlay :
  toggleOverlayVisibility (Examples.accepting []) "A"
    (Examples.started Examples.two_overlays)
  = (Returned tt,
     {| ui := {| overlays :=
                   [ <["updated_at" := VStr "2024-01-01T00:00:00.000Z"]>
                       (Examples.overlay "A" 10 10 false);
                     Examples.overlay "B" 300 40 true ];
                 loading := false; error := VNull |};
        sent := [PutOverlay "A" {[ "visible" := VBool false ]}];
        ticks := 1 |}).
Proof. vm_compute. reflexivity. Qed.

(** Toggling an unknown id does nothing, even with the backend down. *)
Example toggle_unknown_overlay :
  toggleOverlayVisibility Examples.unreachable "Z"
    (Examples.started Examples.two_overlays)
  = (Returned tt, Examples.started Examples.two_overlays).
Proof. vm_compute. reflexivity. Qed.

Lemma elem_of_filter_lookup (p : obj -> bool) (l : list obj) j o :
  l !! j = Some o -> p o = true -> In o (List.filter p l).
Proof.
  intros Hj Hp. apply filter_In. split; [|exact Hp].
  apply list_elem_of_In. apply list_elem_of_lookup. exists j. exact Hj.
Qed.

(** C9.  A record without a [visible] field is rendered and is returned by
    the visible-only accessor; toggling it sends [update(id, {visible:
    true})], so that after the remote store accepts, every record with the
    id carries [visible = true] and is still among the visible ones. *)
Theorem toggleOverlayVisibility_absent_flag
    (srv : remote) (id : string) (m : machine) (overlay : obj) :
  getOverlay (overlays (ui m)) id = Some overlay ->
  overlay !! "visible" = None ->
  let shows := {[ "visible" := VBool true ]} : obj in
  let m' := snd (toggleOverlayVisibility srv id m) in
  In overlay (getVisibleOverlays (overlays (ui m))) /\
  In overlay (VideoPlayer.visibleOverlays (overlays (ui m))) /\
  toggleOverlayVisibility srv id m = updateOverlay srv id shows m /\
  (exists rest, sent m' = sent m ++ PutOverlay id shows :: rest) /\
  forall response,
    mutation_reply srv (length (sent m)) (PutOverlay id shows) = Resolve response ->
    sent m' = sent m ++ [PutOverlay id shows] /\
    forall j o, overlays (ui m) !! j = Some o -> has_id id o = true ->
      exists updated,
        overlays (ui m') !! j = Some updated /\
        updated !! "visible" = Some (VBool true) /\
        In updated (getVisibleOverlays (overlays (ui m'))) /\
        In updated (VideoPlayer.visibleOverlays (overlays (ui m'))).
Proof.
  intros Hget Hvis shows m'. subst shows m'.
  destruct (find_Some_has_id id _ overlay Hget) as (Hid & j0 & Hj0).
  assert (Hshown : shown overlay = true).
  { unfold shown, prop. rewrite Hvis. reflexivity. }
  pose proof (toggleOverlayVisibility_found srv id m overlay Hget) as Htoggle.
  unfold prop in Htoggle. rewrite Hvis in Htoggle. simpl in Htoggle.
  rewrite Htoggle.
  split; [exact (elem_of_filter_lookup shown _ j0 overlay Hj0 Hshown)|].
  split; [exact (elem_of_filter_lookup _ _ j0 overlay Hj0 Hshown)|].
  split; [reflexivity|].
  destruct (mutation_reply srv (length (sent m))
              (PutOverlay id {[ "visible" := VBool true ]})) as [response|e] eqn:Hreply.
  - destruct (updateOverlay_resolved srv id _ m response Hreply)
      as (l' & k & Hrun & Hlen & Hl').
    rewrite Hrun; simpl. split; [exists []; reflexivity|].
    intros _ _. split; [reflexivity|].
    intros j o Hj Ho. specialize (Hl' j o Hj). rewrite Ho in Hl'.
    destruct Hl' as (t & Ht & Hl't).
    assert (Hnew : shown (merged o {[ "visible" := VBool true ]} (toISOString srv t)) = true).
    { unfold shown, prop. rewrite merged_visible. reflexivity. }
    exists (merged o {[ "visible" := VBool true ]} (toISOString srv t)).
    split; [exact Hl't|]. split; [rewrite merged_visible; reflexivity|].
    split; [exact (elem_of_filter_lookup shown _ j _ Hl't Hnew)|].
    exact (elem_of_filter_lookup _ _ j _ Hl't Hnew).
  - rewrite (updateOverlay_rejected srv id _ m e Hreply); simpl.
    split; [exists [GetOverlays]; reflexivity|].
    intros response Hfalse. discriminate.
Qed.

(** Toggling a record that has no [visible] field asks for [visible: true]. *)
Lemma toggleOverlayVisibility_absent_flag_witness :
  toggleOverlayVisibility (Examples.accepting []) "N"
    (Examples.started [Examples.unflagged "N" 0 0])
  = updateOverlay (Examples.accepting []) "N" {[ "visible" := VBool true ]}
      (Examples.started [Examples.unflagged "N" 0 0]).
Proof.
  exact (proj1 (proj2 (proj2
    (toggleOverlayVisibility_absent_flag (Examples.accepting []) "N"
       (Examples.started [Examples.unflagged "N" 0 0])
       (Examples.unflagged "N" 0 0) eq_refl eq_refl)))).
Defined.

(** ... and the record stays visible. *)
Example toggle_unflagged_overlay :
  overlays (ui (snd (toggleOverlayVisibility (Examples.accepting []) "N"
                       (Examples.started [Examples.unflagged "N" 0 0]))))
  = [ <["updated_at" := VStr "2024-01-01T00:00:00.000Z"]>
        (Examples.overlay "N" 0 0 true) ].
Proof. vm_compute. reflexivity. Qed.

(** ** Double-precision arithmetic *)

Section DoubleFacts.
Local Open Scope Q_scope.

Lemma pow2_pos (e : Z) : 0 < Double.pow2 e.
Proof. apply Qpower_0_lt. reflexivity. Qed.

Lemma pow2_plus (a b : Z) : Double.pow2 (a + b) == Double.pow2 a * Double.pow2 b.
Proof. apply Qpower_plus. discriminate. Qed.

Lemma pow2_inject (n : Z) : (0 <= n)%Z -> Double.pow2 n == inject_Z (2 ^ n).
Proof. intros H. unfold Double.pow2. rewrite Zpower_Qpower by exact H. reflexivity. Qed.

Lemma pow2_le (a b : Z) : (a <= b)%Z -> Double.pow2 a <= Double.pow2 b.
Proof. intros H. apply Qpower_le_compat_l; [exact H|]. discriminate. Qed.

Lemma pow2_lt_inv (a b : Z) : Double.pow2 a < Double.pow2 b -> (a < b)%Z.
Proof. intros H. apply (Qpower_lt_compat_l_inv 2); [exact H|reflexivity]. Qed.

(** [2 ^ ilog2 q <= q] for a positive [q]. *)
Lemma ilog2_le (q : Q) : 0 < q -> Double.pow2 (Double.ilog2 q) <= q.
Proof.
  intros Hq. destruct q as [n d]. unfold Double.ilog2. cbn [Qnum Qden].
  assert (Hn : (0 < n)%Z).
  { unfold Qlt in Hq. cbn in Hq. lia. }
  set (a := Z.log2 n). set (b := Z.log2 (Z.pos d)).
  destruct (Z.log2_spec n Hn) as [Ha1 Ha2]. fold a in Ha1, Ha2.
  destruct (Z.log2_spec (Z.pos d) eq_refl) as [Hb1 Hb2]. fold b in Hb1, Hb2.
  rewrite <- Z.add_1_r in Ha2, Hb2.
  assert (Ha0 : (0 <= a)%Z) by apply Z.log2_nonneg.
  assert (Hb0 : (0 <= b)%Z) by apply Z.log2_nonneg.
  clearbody a b.
  assert (Hd : 0 < inject_Z (Z.pos d)) by reflexivity.
  assert (Hnd : n # d == inject_Z n / inject_Z (Z.pos d)) by apply Qmake_Qdiv.
  rewrite Hnd.
  apply Qle_shift_div_l; [exact Hd|].
  destruct (n * 2 ^ Z.max 0 (- (a - b)) <? Z.pos d * 2 ^ Z.max 0 (a - b))%Z eqn:E.
  - (* 2^(k-1) * d < 2^(k-1) * 2^(b+1) = 2^a <= n *)
    apply Qle_trans with (Double.pow2 (a - b - 1) * Double.pow2 (b + 1)).
    + apply Qmult_le_l; [apply pow2_pos|].
      rewrite pow2_inject by lia. rewrite <- Zle_Qle. exact (Z.lt_le_incl _ _ Hb2).
    + rewrite <- pow2_plus. replace (a - b - 1 + (b + 1))%Z with a by lia.
      rewrite pow2_inject by lia. rewrite <- Zle_Qle. exact Ha1.
  - apply Z.ltb_ge in E.
    destruct (Z.le_gt_cases 0 (a - b)) as [Hk|Hk].
    + rewrite (Z.max_l 0 (- (a - b))), (Z.max_r 0 (a - b)) in E by lia.
      change (2 ^ 0)%Z with 1%Z in E.
      rewrite pow2_inject by lia. rewrite <- inject_Z_mult, <- Zle_Qle. lia.
    + rewrite (Z.max_r 0 (- (a - b))), (Z.max_l 0 (a - b)) in E by lia.
      change (2 ^ 0)%Z with 1%Z in E.
      (* d <= n * 2^(-k) *)
      apply Qle_trans with (Double.pow2 (a - b) * inject_Z (n * 2 ^ (- (a - b)))).
      * apply Qmult_le_l; [apply pow2_pos|]. rewrite <- Zle_Qle. lia.
      * rewrite inject_Z_mult, <- pow2_inject by lia.
        rewrite (Qmult_comm (inject_Z n)), Qmult_assoc, <- pow2_plus.
        replace (a - b + - (a - b))%Z with 0%Z by lia.
        change (Double.pow2 0) with 1. lra.
Qed.

(** *** Rounding to the nearest integer, halves to even *)

Lemma nearest_even_floor (y : Q) :
  (Qfloor y <= Double.nearest_even y <= Qfloor y + 1)%Z.
Proof.
  unfold Double.nearest_even.
  destruct (Qcompare (y - inject_Z (Qfloor y)) (1 # 2)); [destruct (Z.even _)| |]; lia.
Qed.

Lemma nearest_even_bounds (y : Q) :
  y - (1 # 2) <= inject_Z (Double.nearest_even y) <= y + (1 # 2).
Proof.
  pose proof (Qfloor_le y) as Hlo. pose proof (Qlt_floor y) as Hhi.
  rewrite inject_Z_plus in Hhi. change (inject_Z 1) with 1 in Hhi.
  unfold Double.nearest_even.
  destruct (Qcompare (y - inject_Z (Qfloor y)) (1 # 2)) eqn:E.
  - apply Qeq_alt in E.
    destruct (Z.even (Qfloor y)); [|rewrite inject_Z_plus; change (inject_Z 1) with 1];
      split; lra.
  - apply Qlt_alt in E. split; lra.
  - apply Qgt_alt in E. rewrite inject_Z_plus. change (inject_Z 1) with 1. split; lra.
Qed.

Lemma nearest_even_ge (y : Q) (z : Z) :
  inject_Z z <= y -> (z <= Double.nearest_even y)%Z.
Proof.
  intros H. pose proof (nearest_even_floor y) as [Hf _].
  pose proof (Qlt_floor y) as Hhi.
  assert (inject_Z z < inject_Z (Qfloor y + 1)) by lra.
  rewrite <- Zlt_Qlt in *. lia.
Qed.

Lemma nearest_even_le (y : Q) (z : Z) :
  y <= inject_Z z -> (Double.nearest_even y <= z)%Z.
Proof.
  intros H. pose proof (Qfloor_le y) as Hlo.
  assert (Hfz : (Qfloor y <= z)%Z) by (rewrite Zle_Qle; lra).
  unfold Double.nearest_even.
  destruct (Qcompare (y - inject_Z (Qfloor y)) (1 # 2)) eqn:E.
  - apply Qeq_alt in E. destruct (Z.even (Qfloor y)); [exact Hfz|].
    assert (inject_Z (Qfloor y) < inject_Z z) by lra.
    rewrite <- Zlt_Qlt in *. lia.
  - exact Hfz.
  - apply Qgt_alt in E.
    assert (inject_Z (Qfloor y) < inject_Z z) by lra.
    rewrite <- Zlt_Qlt in *. lia.
Qed.

Lemma nearest_even_inject (y : Q) (z : Z) :
  y == inject_Z z -> Double.nearest_even y = z.
Proof.
  intros H. apply Z.le_antisymm.
  - apply nearest_even_le. lra.
  - apply nearest_even_ge. lra.
Qed.

(** *** Rounding to a double *)

Lemma round_zero (q : Q) : q == 0 -> Double.round q = 0.
Proof.
  intros H. unfold Double.round.
  apply Qeq_bool_iff in H. rewrite H. reflexivity.
Qed.

Lemma round_eq (q : Q) :
  ~ q == 0 ->
  Double.round q
  == inject_Z (Double.nearest_even (q / Double.pow2 (Double.exponent q)))
     * Double.pow2 (Double.exponent q).
Proof.
  intros H. unfold Double.round.
  destruct (Qeq_bool q 0) eqn:E; [apply Qeq_bool_iff in E; contradiction|].
  cbv zeta. apply Qred_correct.
Qed.

Lemma round_nonneg (q : Q) : 0 <= q -> 0 <= Double.round q.
Proof.
  intros Hq. destruct (Qeq_dec q 0) as [H0|H0].
  - rewrite (round_zero q H0). lra.
  - rewrite (round_eq q H0).
    apply Qmult_le_0_compat; [|apply Qlt_le_weak, pow2_pos].
    change 0 with (inject_Z 0). rewrite <- Zle_Qle.
    apply nearest_even_ge. change (inject_Z 0) with 0.
    apply Qle_shift_div_l; [apply pow2_pos|]. lra.
Qed.

Lemma round_nonpos (q : Q) : q <= 0 -> Double.round q <= 0.
Proof.
  intros Hq. destruct (Qeq_dec q 0) as [H0|H0].
  - rewrite (round_zero q H0). lra.
  - rewrite (round_eq q H0).
    pose proof (pow2_pos (Double.exponent q)) as Hp.
    assert (Hn : (Double.nearest_even (q / Double.pow2 (Double.exponent q)) <= 0)%Z).
    { apply nearest_even_le. change (inject_Z 0) with 0.
      apply Qle_shift_div_r; [exact Hp|]. lra. }
    rewrite Zle_Qle in Hn. change (inject_Z 0) with 0 in Hn. nra.
Qed.

(** The error of rounding is at most half a unit in the last place. *)
Lemma round_error (q : Q) :
  ~ q == 0 ->
  q - Double.pow2 (Double.exponent q) * (1 # 2) <= Double.round q
  /\ Double.round q <= q + Double.pow2 (Double.exponent q) * (1 # 2).
Proof.
  intros H0. rewrite (round_eq q H0).
  pose proof (pow2_pos (Double.exponent q)) as Hp.
  pose proof (nearest_even_bounds (q / Double.pow2 (Double.exponent q))) as [Hlo Hhi].
  set (p := Double.pow2 (Double.exponent q)) in *.
  set (n := inject_Z (Double.nearest_even (q / p))) in *.
  clearbody n. clearbody p.
  assert (Hp0 : ~ p == 0) by lra.
  split.
  - setoid_replace (q - p * (1 # 2)) with ((q / p - (1 # 2)) * p)
      using relation Qeq by (field; exact Hp0).
    apply Qmult_le_compat_r; lra.
  - setoid_replace (q + p * (1 # 2)) with ((q / p + (1 # 2)) * p)
      using relation Qeq by (field; exact Hp0).
    apply Qmult_le_compat_r; lra.
Qed.


Lemma exponent_le (q : Q) (t : Z) :
  ~ q == 0 -> Qabs q < Double.pow2 (t + 53) -> (Double.emin <= t)%Z ->
  (Double.exponent q <= t)%Z.
Proof.
  intros H0 Hlt Ht. unfold Double.exponent.
  assert (Hpos : 0 < Qabs q).
  { pose proof (Qabs_nonneg q) as Hn.
    destruct (Qeq_dec (Qabs q) 0) as [E|E]; [|lra].
    exfalso. apply H0. revert E. apply Qabs_case; intros; lra. }
  pose proof (ilog2_le (Qabs q) Hpos) as Hl.
  assert (Hk : (Double.ilog2 (Qabs q) < t + 53)%Z) by (apply pow2_lt_inv; lra).
  lia.
Qed.

Lemma round_representable (q : Q) : Double.representable q -> Double.round q == q.
Proof.
  intros (m & g & Hm & Hg & Hq).
  destruct (Qeq_dec q 0) as [H0|H0]; [rewrite (round_zero q H0); lra|].
  rewrite (round_eq q H0).
  pose proof (pow2_pos g) as Hpg.
  assert (He : (Double.exponent q <= g)%Z).
  { apply exponent_le; [exact H0| |exact Hg].
    rewrite Hq, Qabs_Qmult, (Qabs_pos (Double.pow2 g)) by lra.
    rewrite pow2_plus, Qmult_comm.
    apply Qmult_lt_l; [exact Hpg|].
    change (Qabs (inject_Z m)) with (inject_Z (Z.abs m)).
    rewrite pow2_inject by lia. rewrite <- Zlt_Qlt. exact Hm. }
  set (e := Double.exponent q) in *.
  pose proof (pow2_pos e) as Hpe.
  assert (Hsplit : Double.pow2 g == Double.pow2 (g - e) * Double.pow2 e).
  { rewrite <- pow2_plus. replace (g - e + e)%Z with g by lia. reflexivity. }
  assert (Hint : q / Double.pow2 e == inject_Z (m * 2 ^ (g - e))).
  { rewrite inject_Z_mult, <- pow2_inject by lia.
    rewrite Hq, Hsplit. field. lra. }
  rewrite (nearest_even_inject _ _ Hint).
  rewrite inject_Z_mult, <- pow2_inject by lia.
  rewrite Hq, Hsplit. ring.
Qed.

Lemma representable_inject (z : Z) :
  (Z.abs z < 2 ^ 53)%Z -> Double.representable (inject_Z z).
Proof.
  intros H. exists z, 0%Z. split; [exact H|]. split; [discriminate|].
  change (Double.pow2 0) with 1. ring.
Qed.

Lemma Qfloor_unique (a : Q) (z : Z) :
  (inject_Z z <= a < inject_Z z + 1)%Q -> Qfloor a = z.
Proof.
  intros [Hlo Hhi].
  pose proof (Qfloor_le a) as H1. pose proof (Qlt_floor a) as H2.
  rewrite inject_Z_plus in H2. change (inject_Z 1) with 1%Q in H2.
  assert (Ha : (inject_Z (Qfloor a) < inject_Z (z + 1))%Q)
    by (rewrite inject_Z_plus; change (inject_Z 1) with 1%Q; lra).
  assert (Hb : (inject_Z z < inject_Z (Qfloor a + 1))%Q)
    by (rewrite inject_Z_plus; change (inject_Z 1) with 1%Q; lra).
  rewrite <- Zlt_Qlt in Ha, Hb. lia.
Qed.

(** A positive double below [2^53] is [m * 2^g] with [g <= 0]. *)
Lemma representable_small (q : Q) :
  Double.representable q -> 0 < q -> q < inject_Z (2 ^ 53) ->
  exists m g : Z, (0 < m < 2 ^ 53)%Z /\ (Double.emin <= g <= 0)%Z /\
                  q == inject_Z m * Double.pow2 g.
Proof.
  intros (m & g & Hm & Hg & Hq) Hpos Hlt.
  pose proof (pow2_pos g) as Hpg.
  assert (Hm0 : (0 < m)%Z).
  { rewrite Zlt_Qlt. change (inject_Z 0) with 0.
    rewrite Hq in Hpos. nra. }
  destruct (Z.le_gt_cases g 0) as [Hg0|Hg0].
  - exists m, g. repeat split; try lia. exact Hq.
  - exists (m * 2 ^ g)%Z, 0%Z.
    assert (Hq' : q == inject_Z (m * 2 ^ g)).
    { rewrite inject_Z_mult, <- pow2_inject by lia. exact Hq. }
    split; [|split; [split; [discriminate|lia]|]].
    + split; [apply Z.mul_pos_pos; [exact Hm0|apply Z.pow_pos_nonneg; lia]|].
      rewrite Zlt_Qlt, <- Hq'. exact Hlt.
    + change (Double.pow2 0) with 1. rewrite Hq'. ring.
Qed.

(** Dividing a double below [2^53] by 60 and rounding the quotient never
    reaches the next whole number. *)
Lemma divide_60_floor (q : Q) :
  Double.representable q -> 0 < q -> q < inject_Z (2 ^ 53) ->
  Qfloor (Double.divide q 60) = Qfloor (q / 60).
Proof.
  intros Hrep Hpos Hlt.
  destruct (representable_small q Hrep Hpos Hlt) as (m & g & [Hm0 Hm] & [Hg Hg0] & Hq).
  unfold Double.divide.
  set (x := q / 60).
  assert (Hx : x == q * (1 # 60)) by reflexivity. clearbody x.
  assert (Hxpos : 0 < x) by lra.
  assert (Hx0 : ~ x == 0) by lra.
  pose proof (pow2_pos g) as Hpg.
  pose proof (Qfloor_le x) as Hn1. pose proof (Qlt_floor x) as Hn.
  set (n1 := Qfloor x) in *.
  rewrite inject_Z_plus in Hn. change (inject_Z 1) with 1 in Hn.
  assert (Hn1pos : 0 <= inject_Z n1).
  { change 0 with (inject_Z 0). rewrite <- Zle_Qle. unfold n1.
    change 0%Z with (Qfloor 0). apply Qfloor_resp_le. lra. }
  (* the size of x *)
  assert (Hm' : inject_Z m < Double.pow2 53).
  { rewrite pow2_inject by lia. rewrite <- Zlt_Qlt. exact Hm. }
  assert (Hsize : x < Double.pow2 (g - 5 + 53)).
  { replace (g - 5 + 53)%Z with (g + 53 + -5)%Z by lia.
    rewrite !pow2_plus. change (Double.pow2 (-5)) with (1 # 32).
    assert (HM : inject_Z m * Double.pow2 g < Double.pow2 g * Double.pow2 53).
    { rewrite (Qmult_comm (Double.pow2 g)). apply Qmult_lt_r; assumption. }
    rewrite Hx. rewrite Hq in Hpos |- *.
    generalize dependent (inject_Z m * Double.pow2 g).
    generalize (Double.pow2 g * Double.pow2 53). intros P M HMpos _ HM. lra. }
  set (t := Z.max Double.emin (g - 5)).
  assert (He : (Double.exponent x <= t)%Z).
  { apply exponent_le; [exact Hx0| |unfold t; lia].
    rewrite Qabs_pos by lra.
    apply Qlt_le_trans with (Double.pow2 (g - 5 + 53)); [exact Hsize|].
    apply pow2_le. unfold t. lia. }
  pose proof (round_error x Hx0) as [_ Herr].
  rewrite (round_eq x Hx0) in *.
  set (e := Double.exponent x) in *.
  pose proof (pow2_pos e) as Hpe.
  assert (He0 : (e <= 0)%Z) by (unfold t, Double.emin in He; lia).
  apply Qfloor_unique. split.
  - (* n1 <= round x *)
    assert (Hone : Double.pow2 (- e) * Double.pow2 e == 1).
    { rewrite <- pow2_plus. replace (- e + e)%Z with 0%Z by lia. reflexivity. }
    assert (Hle : (n1 * 2 ^ (- e) <= Double.nearest_even (x / Double.pow2 e))%Z).
    { apply nearest_even_ge. rewrite inject_Z_mult, <- pow2_inject by lia.
      apply Qle_shift_div_l; [exact Hpe|].
      rewrite <- Qmult_assoc, Hone. lra. }
    rewrite Zle_Qle, inject_Z_mult, <- pow2_inject in Hle by lia.
    apply Qle_trans with (inject_Z n1 * Double.pow2 (- e) * Double.pow2 e).
    + rewrite <- Qmult_assoc, Hone. lra.
    + apply Qmult_le_compat_r; lra.
  - (* round x < n1 + 1 *)
    apply Qle_lt_trans with (x + Double.pow2 e * (1 # 2)); [exact Herr|].
    destruct (Z.le_gt_cases Double.emin (g - 5)) as [Hcase|Hcase].
    + (* a normal quotient: half a unit is below the distance to n1 + 1 *)
      assert (Het : (e <= g - 5)%Z) by (unfold t in He; lia).
      assert (Hpe' : Double.pow2 e <= Double.pow2 g * (1 # 32)).
      { change (1 # 32) with (Double.pow2 (-5)). rewrite <- pow2_plus.
        apply pow2_le. lia. }
      assert (Hone : Double.pow2 (- g) * Double.pow2 g == 1).
      { rewrite <- pow2_plus. replace (- g + g)%Z with 0%Z by lia. reflexivity. }
      (* 60 (n1 + 1) - q is a positive multiple of 2^g *)
      assert (Hgap : Double.pow2 g <= 60 * (inject_Z n1 + 1) - q).
      { set (K := (60 * (n1 + 1) * 2 ^ (- g) - m)%Z).
        assert (HK : inject_Z K * Double.pow2 g == 60 * (inject_Z n1 + 1) - q).
        { unfold K, Z.sub. rewrite Hq.
          rewrite inject_Z_plus, inject_Z_opp, !inject_Z_mult, inject_Z_plus,
            <- pow2_inject by lia.
          change (inject_Z 60) with 60. change (inject_Z 1) with 1.
          setoid_replace ((60 * (inject_Z n1 + 1) * Double.pow2 (- g) + - inject_Z m)
                          * Double.pow2 g)
            with (60 * (inject_Z n1 + 1) * (Double.pow2 (- g) * Double.pow2 g)
                  - inject_Z m * Double.pow2 g) using relation Qeq by ring.
          rewrite Hone. ring. }
        assert (HKpos : (0 < K)%Z).
        { rewrite Zlt_Qlt. change (inject_Z 0) with 0.
          assert (Hprod : 0 < inject_Z K * Double.pow2 g) by (rewrite HK; lra).
          destruct (Qlt_le_dec 0 (inject_Z K)) as [HK0|HK0]; [exact HK0|].
          exfalso. assert (inject_Z K * Double.pow2 g <= 0 * Double.pow2 g)
            by (apply Qmult_le_compat_r; lra). lra. }
        rewrite <- HK.
        assert (HK1 : 1 <= inject_Z K)
          by (change 1 with (inject_Z 1); rewrite <- Zle_Qle; lia).
        assert (1 * Double.pow2 g <= inject_Z K * Double.pow2 g)
          by (apply Qmult_le_compat_r; lra).
        lra. }
      lra.
    + (* a quotient so small that its rounding stays below 1 *)
      assert (Het : (e <= Double.emin)%Z) by (unfold t in He; lia).
      assert (Hpe' : Double.pow2 e <= 1).
      { change 1 with (Double.pow2 0). apply pow2_le. lia. }
      assert (Hx' : x < 1 # 4).
      { change (1 # 4) with (Double.pow2 (-2)).
        apply Qlt_le_trans with (Double.pow2 (g - 5 + 53)); [exact Hsize|].
        apply pow2_le. unfold Double.emin in Hcase. lia. }
      lra.
Qed.

Lemma pow2_lt (a b : Z) : (a < b)%Z -> Double.pow2 a < Double.pow2 b.
Proof. intros H. apply Qpower_lt_compat_l; [exact H|reflexivity]. Qed.

(** [q < 2 ^ (ilog2 q + 1)] for a positive [q]. *)
Lemma ilog2_lt (q : Q) : 0 < q -> q < Double.pow2 (Double.ilog2 q + 1).
Proof.
  intros Hq. destruct q as [n d]. unfold Double.ilog2. cbn [Qnum Qden].
  assert (Hn : (0 < n)%Z).
  { unfold Qlt in Hq. cbn in Hq. lia. }
  set (a := Z.log2 n). set (b := Z.log2 (Z.pos d)).
  destruct (Z.log2_spec n Hn) as [Ha1 Ha2]. fold a in Ha1, Ha2.
  destruct (Z.log2_spec (Z.pos d) eq_refl) as [Hb1 Hb2]. fold b in Hb1, Hb2.
  rewrite <- Z.add_1_r in Ha2, Hb2.
  assert (Ha0 : (0 <= a)%Z) by apply Z.log2_nonneg.
  assert (Hb0 : (0 <= b)%Z) by apply Z.log2_nonneg.
  clearbody a b.
  assert (Hd : 0 < inject_Z (Z.pos d)) by reflexivity.
  assert (Hnd : n # d == inject_Z n / inject_Z (Z.pos d)) by apply Qmake_Qdiv.
  rewrite Hnd.
  apply Qlt_shift_div_r; [exact Hd|].
  destruct (n * 2 ^ Z.max 0 (- (a - b)) <? Z.pos d * 2 ^ Z.max 0 (a - b))%Z eqn:E.
  - apply Z.ltb_lt in E. replace (a - b - 1 + 1)%Z with (a - b)%Z by lia.
    destruct (Z.le_gt_cases 0 (a - b)) as [Hk|Hk].
    + rewrite (Z.max_l 0 (- (a - b))), (Z.max_r 0 (a - b)) in E by lia.
      change (2 ^ 0)%Z with 1%Z in E.
      rewrite pow2_inject by lia. rewrite <- inject_Z_mult, <- Zlt_Qlt. lia.
    + rewrite (Z.max_r 0 (- (a - b))), (Z.max_l 0 (a - b)) in E by lia.
      change (2 ^ 0)%Z with 1%Z in E.
      apply Qle_lt_trans with (Double.pow2 (a - b) * inject_Z (n * 2 ^ (- (a - b)))).
      * rewrite inject_Z_mult, <- pow2_inject by lia.
        rewrite (Qmult_comm (inject_Z n)), Qmult_assoc, <- pow2_plus.
        replace (a - b + - (a - b))%Z with 0%Z by lia.
        change (Double.pow2 0) with 1. lra.
      * apply Qmult_lt_l; [apply pow2_pos|]. rewrite <- Zlt_Qlt. lia.
  - apply Qlt_le_trans with (Double.pow2 (a - b + 1) * Double.pow2 b).
    + rewrite <- pow2_plus. replace (a - b + 1 + b)%Z with (a + 1)%Z by lia.
      rewrite pow2_inject by lia. rewrite <- Zlt_Qlt. exact Ha2.
    + apply Qmult_le_l; [apply pow2_pos|].
      rewrite pow2_inject by lia. rewrite <- Zle_Qle. exact Hb1.
Qed.

(** What [round] returns is a double. *)
Lemma round_is_representable (q : Q) : Double.representable (Double.round q).
Proof.
  destruct (Qeq_dec q 0) as [H0|H0].
  - rewrite (round_zero q H0). exists 0%Z, 0%Z.
    split; [reflexivity|]. split; [discriminate|reflexivity].
  - pose proof (round_eq q H0) as Hr.
    set (e := Double.exponent q) in *.
    set (m := Double.nearest_even (q / Double.pow2 e)) in *.
    pose proof (pow2_pos e) as Hpe.
    assert (Hpos : 0 < Qabs q).
    { pose proof (Qabs_nonneg q) as Hn.
      destruct (Qeq_dec (Qabs q) 0) as [E|E]; [|lra].
      exfalso. apply H0. revert E. apply Qabs_case; intros; lra. }
    assert (He : (Double.emin <= e)%Z /\ (Double.ilog2 (Qabs q) - 52 <= e)%Z)
      by (unfold e, Double.exponent; lia).
    assert (Hsize : Qabs q < Double.pow2 53 * Double.pow2 e).
    { apply Qlt_le_trans with (Double.pow2 (Double.ilog2 (Qabs q) + 1));
        [exact (ilog2_lt _ Hpos)|].
      rewrite <- pow2_plus. apply pow2_le. lia. }
    assert (Hm : (Z.abs m <= 2 ^ 53)%Z).
    { assert (Hup : q <= Double.pow2 53 * Double.pow2 e)
        by (pose proof (Qle_Qabs q); lra).
      assert (Hlo : - (Double.pow2 53 * Double.pow2 e) <= q).
      { pose proof (Qle_Qabs (- q)) as H. rewrite Qabs_opp in H. lra. }
      assert (H1 : (m <= 2 ^ 53)%Z).
      { apply nearest_even_le. rewrite <- pow2_inject by lia.
        apply Qle_shift_div_r; [exact Hpe|exact Hup]. }
      assert (H2 : (- 2 ^ 53 <= m)%Z).
      { apply nearest_even_ge. rewrite inject_Z_opp, <- pow2_inject by lia.
        apply Qle_shift_div_l; [exact Hpe|]. lra. }
      lia. }
    destruct (Z.eq_dec (Z.abs m) (2 ^ 53)%Z) as [Heq|Hne].
    + exists (m / 2)%Z, (e + 1)%Z.
      assert (Hm2 : m = (2 * (m / 2))%Z).
      { destruct (Z.abs_eq_or_opp m) as [E|E]; rewrite E in Heq.
        - rewrite Heq. reflexivity.
        - assert (m = (- 2 ^ 53)%Z) as -> by lia. reflexivity. }
      split; [|split; [lia|]].
      * change (2 ^ 53)%Z with 9007199254740992%Z in *. lia.
      * rewrite Hr, pow2_plus. rewrite Hm2 at 1. rewrite inject_Z_mult.
        change (Double.pow2 1) with 2. change (inject_Z 2) with 2. ring.
    + exists m, e. split; [lia|]. split; [lia|exact Hr].
Qed.

Lemma nearest_even_nearest (y : Q) (z : Z) :
  Qabs (inject_Z (Double.nearest_even y) - y) <= Qabs (inject_Z z - y).
Proof.
  pose proof (nearest_even_bounds y) as [Hlo Hhi].
  set (N := Double.nearest_even y) in *.
  destruct (Z.eq_dec z N) as [->|Hne]; [lra|].
  assert (Hfar : inject_Z z <= inject_Z N - 1 \/ inject_Z N + 1 <= inject_Z z).
  { destruct (Z.lt_ge_cases z N) as [H|H]; [left|right].
    - setoid_replace (inject_Z N - 1) with (inject_Z (N - 1))
        using relation Qeq
        by (unfold Z.sub; rewrite inject_Z_plus, inject_Z_opp; reflexivity).
      rewrite <- Zle_Qle. lia.
    - setoid_replace (inject_Z N + 1) with (inject_Z (N + 1))
        using relation Qeq by (rewrite inject_Z_plus; reflexivity).
      rewrite <- Zle_Qle. lia. }
  apply Qabs_case; intros H1; apply Qabs_case; intros H2; lra.
Qed.

(** [round q] is a double nearest to [q]. *)
Lemma round_nearest (q r : Q) :
  Double.representable r -> Qabs (Double.round q - q) <= Qabs (r - q).
Proof.
  intros (m & g & Hm & Hg & Hr).
  destruct (Qeq_dec q 0) as [H0|H0].
  { rewrite (round_zero q H0), H0.
    setoid_replace (0 - 0) with 0 using relation Qeq by ring. apply Qabs_nonneg. }
  rewrite (round_eq q H0).
  set (e := Double.exponent q).
  pose proof (pow2_pos e) as Hpe.
  set (y := q / Double.pow2 e).
  assert (Hq : q == y * Double.pow2 e) by (unfold y; field; lra).
  (* against a multiple of the unit *)
  assert (Hmult : forall z : Z,
            Qabs (inject_Z (Double.nearest_even y) * Double.pow2 e - q)
            <= Qabs (inject_Z z * Double.pow2 e - q)).
  { intros z. rewrite Hq at 1 2.
    setoid_replace (inject_Z (Double.nearest_even y) * Double.pow2 e - y * Double.pow2 e)
      with ((inject_Z (Double.nearest_even y) - y) * Double.pow2 e) using relation Qeq by ring.
    setoid_replace (inject_Z z * Double.pow2 e - y * Double.pow2 e)
      with ((inject_Z z - y) * Double.pow2 e) using relation Qeq by ring.
    rewrite !Qabs_Qmult, (Qabs_pos (Double.pow2 e)) by lra.
    apply Qmult_le_compat_r; [apply nearest_even_nearest|lra]. }
  destruct (Z.le_gt_cases e g) as [Heg|Heg].
  - (* r is a multiple of the unit *)
    assert (Hrz : r == inject_Z (m * 2 ^ (g - e)) * Double.pow2 e).
    { rewrite Hr, inject_Z_mult, <- pow2_inject by lia.
      rewrite <- Qmult_assoc, <- pow2_plus.
      replace (g - e + e)%Z with g by lia. reflexivity. }
    rewrite Hrz. apply Hmult.
  - (* r is below the binade of q *)
    assert (Hpos : 0 < Qabs q).
    { pose proof (Qabs_nonneg q) as Hn.
      destruct (Qeq_dec (Qabs q) 0) as [E|E]; [|lra].
      exfalso. apply H0. revert E. apply Qabs_case; intros; lra. }
    assert (He : e = (Double.ilog2 (Qabs q) - 52)%Z)
      by (unfold e, Double.exponent in *; lia).
    assert (HB : Double.pow2 52 * Double.pow2 e <= Qabs q).
    { rewrite <- pow2_plus. replace (52 + e)%Z with (Double.ilog2 (Qabs q)) by lia.
      apply ilog2_le. exact Hpos. }
    assert (Hrsmall : Qabs r < Double.pow2 52 * Double.pow2 e).
    { rewrite Hr, Qabs_Qmult, (Qabs_pos (Double.pow2 g)) by (apply Qlt_le_weak, pow2_pos).
      apply Qlt_le_trans with (Double.pow2 53 * Double.pow2 g).
      - apply Qmult_lt_r; [apply pow2_pos|].
        change (Qabs (inject_Z m)) with (inject_Z (Z.abs m)).
        rewrite pow2_inject by lia. rewrite <- Zlt_Qlt. exact Hm.
      - rewrite <- !pow2_plus. apply pow2_le. lia. }
    set (B := Double.pow2 52 * Double.pow2 e) in *.
    assert (HBz : B == inject_Z (2 ^ 52) * Double.pow2 e)
      by (unfold B; rewrite pow2_inject by lia; reflexivity).
    pose proof (Hmult (2 ^ 52)%Z) as Hplus.
    pose proof (Hmult (- 2 ^ 52)%Z) as Hminus.
    rewrite inject_Z_opp in Hminus.
    rewrite <- HBz in Hplus.
    setoid_replace (- inject_Z (2 ^ 52) * Double.pow2 e) with (- B)
      using relation Qeq in Hminus by (rewrite HBz; ring).
    clearbody B. clear HBz Hmult.
    set (R := inject_Z (Double.nearest_even y) * Double.pow2 e) in *. clearbody R.
    revert HB Hrsmall Hplus Hminus.
    apply (Qabs_case q); intros Hq1 HB; apply (Qabs_case r); intros Hr1 Hrsmall;
      apply (Qabs_case (R - q)); intros HR1;
      apply (Qabs_case (B - q)); intros HB1;
      apply (Qabs_case (- B - q)); intros HB2;
      apply (Qabs_case (r - q)); intros Hrq; intros; lra.
Qed.

End DoubleFacts.

(** ** The drag handler *)

Lemma Qle_bool_false (a b : Q) : Qle_bool a b = false -> (b < a)%Q.
Proof.
  intros H. apply Qnot_le_lt. intros Hle.
  apply Qle_bool_iff in Hle. congruence.
Qed.

(** [Math.max(0, Math.min(v, hi))] obeys the clamp law. *)
Lemma max_min_clamped (v hi : Q) : clamped v hi (Qmax 0 (Qmin v hi)).
Proof.
  unfold clamped, Qmax, Qmin.
  destruct (Qle_bool v hi) eqn:E1;
    [apply Qle_bool_iff in E1|apply Qle_bool_false in E1];
    match goal with
    | |- context [Qle_bool 0 ?c] =>
        destruct (Qle_bool 0 c) eqn:E2;
          [apply Qle_bool_iff in E2|apply Qle_bool_false in E2]
    end;
    repeat split; intros; try lra.
Qed.

Lemma Qround_rounded (c : Q) : rounded c (Qround c).
Proof.
  unfold rounded, Qround.
  pose proof (Qfloor_le (c + (1 # 2))) as Hlo.
  pose proof (Qlt_floor (c + (1 # 2))) as Hhi.
  rewrite inject_Z_plus in Hhi. change (inject_Z 1) with 1%Q in Hhi.
  split; lra.
Qed.

Lemma rounded_zero (c : Q) (z : Z) : (c == 0)%Q -> rounded c z -> z = 0%Z.
Proof.
  unfold rounded. intros Hc [Hlo Hhi]. rewrite Hc in Hlo, Hhi.
  assert (H1 : (inject_Z z < inject_Z 1)%Q) by (change (inject_Z 1) with 1%Q; lra).
  assert (H2 : (inject_Z (-1) < inject_Z z)%Q) by (change (inject_Z (-1)) with (-1)%Q; lra).
  rewrite <- Zlt_Qlt in H1, H2. lia.
Qed.

(** C5.  A pointer-move during a drag of an overlay with a numeric size
    calls the update path once, with the patch [{ position: { x, y } }] and
    nothing else in it.  Each coordinate is the pointer position relative to
    the container less the grab offset (subtractions of doubles), clamped to
    [0, containerWidth - overlayWidth] and [0, containerHeight -
    overlayHeight], then rounded to the nearest integer.  When the overlay is
    larger than the container in a direction, that coordinate is 0. *)
Theorem handleMouseMove_clamps_and_rounds
    (StringToNumber : string -> number) (d : VideoPlayer.drag)
    (videoRect : VideoPlayer.rect) (overlays : list obj)
    (clientX clientY : Q) (id : string) (overlay size : obj) (w h : Q) :
  VideoPlayer.draggedOverlay d = Some id ->
  id <> "" ->
  VideoPlayer.isDragging d = true ->
  find (has_id id) overlays = Some overlay ->
  overlay !! "size" = Some (VObj size) ->
  size !! "width" = Some (VNum (Fin w)) ->
  size !! "height" = Some (VNum (Fin h)) ->
  let newX := Double.minus (Double.minus clientX (VideoPlayer.left videoRect))
                           (VideoPlayer.x (VideoPlayer.dragOffset d)) in
  let newY := Double.minus (Double.minus clientY (VideoPlayer.top videoRect))
                           (VideoPlayer.y (VideoPlayer.dragOffset d)) in
  let maxX := Double.minus (VideoPlayer.width videoRect) w in
  let maxY := Double.minus (VideoPlayer.height videoRect) h in
  exists (cx cy : Q) (px py : Z),
    VideoPlayer.handleMouseMove StringToNumber d (Some videoRect) overlays true
      clientX clientY
    = VideoPlayer.Update id
        {[ "position" := VObj (<["y" := VNum (Fin (inject_Z py))]>
                                 {[ "x" := VNum (Fin (inject_Z px)) ]}) ]} /\
    clamped newX maxX cx /\ rounded cx px /\
    clamped newY maxY cy /\ rounded cy py /\
    ((maxX < 0)%Q -> px = 0%Z) /\
    ((maxY < 0)%Q -> py = 0%Z) /\
    ((VideoPlayer.width videoRect < w)%Q -> px = 0%Z) /\
    ((VideoPlayer.height videoRect < h)%Q -> py = 0%Z).
Proof.
  intros Hd Hid Hdrag Hfind Hsize Hw Hh newX newY maxX maxY.
  exists (Qmax 0 (Qmin newX maxX)), (Qmax 0 (Qmin newY maxY)).
  exists (Qround (Qmax 0 (Qmin newX maxX))), (Qround (Qmax 0 (Qmin newY maxY))).
  pose proof (max_min_clamped newX maxX) as HcX.
  pose proof (max_min_clamped newY maxY) as HcY.
  pose proof (Qround_rounded (Qmax 0 (Qmin newX maxX))) as HrX.
  pose proof (Qround_rounded (Qmax 0 (Qmin newY maxY))) as HrY.
  assert (Hpin : forall v hi c z, clamped v hi c -> rounded c z ->
                   (hi <= 0)%Q -> z = 0%Z).
  { intros v hi c z (Hneg & Hin & _) Hr Hhi. apply (rounded_zero c); [|exact Hr].
    destruct (Qlt_le_dec hi 0) as [Hlt|Hge]; [exact (Hneg Hlt)|].
    specialize (Hin Hge). lra. }
  refine (conj _ (conj HcX (conj HrX (conj HcY (conj HrY
            (conj _ (conj _ (conj _ _)))))))).
  - unfold VideoPlayer.handleMouseMove. rewrite Hd, Hdrag.
    destruct (String.eqb_spec id ""); [contradiction|]. simpl.
    rewrite Hfind. unfold prop. rewrite Hsize. simpl. unfold prop.
    rewrite Hw, Hh. simpl. reflexivity.
  - intros Hneg. apply (Hpin _ _ _ _ HcX HrX). lra.
  - intros Hneg. apply (Hpin _ _ _ _ HcY HrY). lra.
  - intros Hneg. apply (Hpin _ _ _ _ HcX HrX).
    apply round_nonpos. lra.
  - intros Hneg. apply (Hpin _ _ _ _ HcY HrY).
    apply round_nonpos. lra.
Qed.

(** A move during the drag of [A] is passed on as a position update. *)
Lemma handleMouseMove_clamps_and_rounds_witness :
  exists px py : Z,
    VideoPlayer.handleMouseMove Examples.no_numeric_strings Examples.dragging_A
      (Some Examples.container) Examples.two_overlays true 855 65
    = VideoPlayer.Update "A"
        {[ "position" := VObj (<["y" := VNum (Fin (inject_Z py))]>
                                 {[ "x" := VNum (Fin (inject_Z px)) ]}) ]}.
Proof.
  destruct (handleMouseMove_clamps_and_rounds Examples.no_numeric_strings
              Examples.dragging_A Examples.container Examples.two_overlays
              855 65 "A" (Examples.overlay "A" 10 10 true)
              (<["height" := num 50]> {[ "width" := num 200 ]}) 200 50
              eq_refl ltac:(discriminate) eq_refl eq_refl eq_refl eq_refl eq_refl)
    as (cx & cy & px & py & Heq & _).
  exists px, py. exact Heq.
Defined.

(** The clamp law of the specification: container 800 wide, overlay 200
    wide.  The pointer at 855 computes [newX = 855 - 100 - 5 = 750], clamped
    to 600; the pointer at 75 computes [newX = -30], clamped to 0. *)
Example clamp_750_to_600 :
  VideoPlayer.handleMouseMove Examples.no_numeric_strings Examples.dragging_A
    (Some Examples.container) Examples.two_overlays true 855 65
  = VideoPlayer.Update "A" (Examples.move_to 600 40).
Proof. vm_compute. reflexivity. Qed.

Example clamp_minus_30_to_0 :
  VideoPlayer.handleMouseMove Examples.no_numeric_strings Examples.dragging_A
    (Some Examples.container) Examples.two_overlays true 75 65
  = VideoPlayer.Update "A" (Examples.move_to 0 40).
Proof. vm_compute. reflexivity. Qed.

(** The subtractions are those of doubles.  With the container's corner
    at [0.1] and a grab offset of [0.4], the pointer at 1 computes
    [1 - 0.1 - 0.4 = 0.5] and the position asked for is 1, although the
    exact difference of these three doubles is below one half. *)
Example move_subtracts_doubles :
  VideoPlayer.handleMouseMove Examples.no_numeric_strings Examples.dragging_A_at_0_4
    (Some Examples.offset_container) Examples.two_overlays true 1 0
  = VideoPlayer.Update "A" (Examples.move_to 1 0)
  /\ (1 - Examples.tenth - Examples.two_fifths < 1 # 2)%Q.
Proof. split; vm_compute; reflexivity. Qed.

(** An overlay of 200 by 50 in a container of 150 by 30 pins to the
    origin. *)
Example clamp_pins_to_origin :
  VideoPlayer.handleMouseMove Examples.no_numeric_strings Examples.dragging_A
    (Some Examples.narrow_container) Examples.two_overlays true 855 65
  = VideoPlayer.Update "A" (Examples.move_to 0 0).
Proof. vm_compute. reflexivity. Qed.

(** ** validateOverlay and createOverlay *)

Lemma size_nonzero (errors : obj) k v :
  errors !! k = Some v -> Nat.eqb (base.size errors) 0 = false.
Proof.
  intros H. destruct (base.size errors) eqn:E; [|reflexivity].
  apply map_size_empty_iff in E. subst errors.
  rewrite lookup_empty in H. discriminate.
Qed.

(** A draft with empty (or missing) content is invalid and the mapping
    carries the [content] message. *)
Lemma validateOverlay_empty_content StringToNumber (draft : obj) :
  truthy (prop draft "content") = false ->
  isValid (validateOverlay StringToNumber draft) = false /\
  errors (validateOverlay StringToNumber draft) !! "content"
    = Some (VStr "Content is required").
Proof.
  intros Hc.
  assert (H : errors (validateOverlay StringToNumber draft) !! "content"
              = Some (VStr "Content is required")).
  { unfold validateOverlay. rewrite Hc. cbn [negb errors].
    repeat match goal with
           | |- context [if ?b then _ else _] => destruct b
           end;
      repeat (rewrite lookup_insert_ne by discriminate);
      apply lookup_insert_eq. }
  split; [|exact H].
  exact (size_nonzero _ _ _ H).
Qed.

(** A draft with a negative coordinate is invalid and the mapping carries a
    [position] message. *)
Lemma validateOverlay_negative_position StringToNumber (draft position : obj) px py :
  draft !! "position" = Some (VObj position) ->
  position !! "x" = Some (VNum (Fin px)) ->
  position !! "y" = Some (VNum (Fin py)) ->
  (px < 0 \/ py < 0)%Q ->
  isValid (validateOverlay StringToNumber draft) = false /\
  errors (validateOverlay StringToNumber draft) !! "position"
    = Some (VStr "Position coordinates must be non-negative").
Proof.
  intros Hp Hx Hy Hneg.
  assert (Hlt : lt_num StringToNumber (VNum (Fin px)) 0
                || lt_num StringToNumber (VNum (Fin py)) 0 = true).
  { unfold lt_num, lt; simpl. apply orb_true_iff.
    destruct Hneg as [H|H]; [left|right];
      apply negb_true_iff; apply not_true_is_false; intros Hle;
      apply Qle_bool_iff in Hle; lra. }
  assert (H : errors (validateOverlay StringToNumber draft) !! "position"
              = Some (VStr "Position coordinates must be non-negative")).
  { unfold validateOverlay, opt_member, member, prop. rewrite Hp. simpl.
    unfold prop. rewrite Hx, Hy. simpl default. rewrite Hlt. cbn [errors].
    repeat match goal with
           | |- context [if ?b then _ else _] => destruct b
           end;
      repeat (rewrite lookup_insert_ne by discriminate);
      apply lookup_insert_eq. }
  split; [|exact H].
  exact (size_nonzero _ _ _ H).
Qed.

(** A draft whose size is not within (0, 1920] by (0, 1080] is invalid and
    the mapping carries a [size] message. *)
Lemma validateOverlay_size_out_of_bounds StringToNumber (draft size : obj) w h :
  draft !! "size" = Some (VObj size) ->
  size !! "width" = Some (VNum (Fin w)) ->
  size !! "height" = Some (VNum (Fin h)) ->
  (w <= 0 \/ h <= 0 \/ 1920 < w \/ 1080 < h)%Q ->
  isValid (validateOverlay StringToNumber draft) = false /\
  exists msg, errors (validateOverlay StringToNumber draft) !! "size" = Some (VStr msg) /\
    (msg = "Size dimensions must be positive" \/ msg = "Size dimensions are too large").
Proof.
  intros Hs Hw Hh Hout.
  assert (Hbad : le_num StringToNumber (VNum (Fin w)) 0
                 || le_num StringToNumber (VNum (Fin h)) 0 = true
                 \/ gt_num StringToNumber (VNum (Fin w)) 1920
                    || gt_num StringToNumber (VNum (Fin h)) 1080 = true).
  { unfold le_num, gt_num, le, lt; simpl.
    destruct Hout as [H|[H|[H|H]]].
    - left. apply orb_true_iff. left. now apply Qle_bool_iff.
    - left. apply orb_true_iff. right. now apply Qle_bool_iff.
    - right. apply orb_true_iff. left. apply negb_true_iff, not_true_is_false.
      intros Hle. apply Qle_bool_iff in Hle. lra.
    - right. apply orb_true_iff. right. apply negb_true_iff, not_true_is_false.
      intros Hle. apply Qle_bool_iff in Hle. lra. }
  assert (H : exists msg,
             errors (validateOverlay StringToNumber draft) !! "size" = Some (VStr msg) /\
             (msg = "Size dimensions must be positive" \/
              msg = "Size dimensions are too large")).
  { unfold validateOverlay, opt_member, member, prop. rewrite Hs. simpl.
    unfold prop. rewrite Hw, Hh. simpl default. cbn [errors].
    destruct (gt_num StringToNumber (VNum (Fin w)) 1920
              || gt_num StringToNumber (VNum (Fin h)) 1080) eqn:Hgt.
    - exists "Size dimensions are too large". split; [|now right].
      apply lookup_insert_eq.
    - destruct Hbad as [Hle|Hgt']; [|discriminate]. rewrite Hle.
      exists "Size dimensions must be positive". split; [|now left].
      apply lookup_insert_eq. }
  split; [|exact H].
  destruct H as (msg & H & _). exact (size_nonzero _ _ _ H).
Qed.

(** The validation example of the specification run on the code: the draft
    is invalid, yet [createOverlay] posts it, re-fetches and returns. *)
Lemma createOverlay_posts_invalid_draft :
  isValid (validateOverlay Examples.no_numeric_strings Examples.empty_logo) = false /\
  errors (validateOverlay Examples.no_numeric_strings Examples.empty_logo)
    = {[ "content" := VStr "Content is required" ]} /\
  createOverlay (Examples.accepting []) Examples.empty_logo (Examples.started [])
  = (Returned VNull,
     {| ui := {| overlays := []; loading := false; error := VNull |};
        sent := [PostOverlay Examples.empty_logo; GetOverlays];
        ticks := 0 |}).
Proof. vm_compute. repeat split; reflexivity. Qed.

(** C3, amended.  [create(draft)] does not validate: whatever the draft, it
    is posted to the remote store; when the store accepts, a full [fetchAll]
    follows and the response is returned; when it rejects, the error is
    surfaced and re-thrown with the collection unchanged.  The check lives
    in the separate pure function [validate(draft)], which sends nothing and
    which, for a draft with empty content, answers invalid with a
    field-to-message mapping carrying the [content] message. *)
Theorem createOverlay_submits_without_validation
    (srv : remote) (StringToNumber : string -> number) (draft : obj) (m : machine) :
  let post := PostOverlay draft in
  let r := fst (createOverlay srv draft m) in
  let m' := snd (createOverlay srv draft m) in
  match mutation_reply srv (length (sent m)) post with
  | Resolve response =>
      r = Returned response /\
      sent m' = sent m ++ [post; GetOverlays] /\
      overlays (ui m') =
        match overlays_reply srv (S (length (sent m))) with
        | Resolve data => data
        | Reject _ => overlays (ui m)
        end
  | Reject e =>
      r = Thrown e /\
      sent m' = sent m ++ [post] /\
      overlays (ui m') = overlays (ui m) /\
      error (ui m') = apiUtils.handleError e (VStr "Failed to create overlay")
  end /\
  (truthy (prop draft "content") = false ->
   isValid (validateOverlay StringToNumber draft) = false /\
   errors (validateOverlay StringToNumber draft) !! "content"
     = Some (VStr "Content is required")).
Proof.
  intros post r m'. subst post r m'.
  split; [|apply validateOverlay_empty_content].
  destruct (mutation_reply srv (length (sent m)) (PostOverlay draft))
    as [response|e] eqn:Hreply.
  - rewrite (createOverlay_resolved srv draft m response Hreply).
    cbn [fst snd]. rewrite after_fetch_recorded.
    repeat split. unfold after_fetch, record_request; simpl.
    now rewrite <- app_assoc.
  - rewrite (createOverlay_rejected srv draft m e Hreply). simpl.
    repeat split.
Qed.

(** The theorem at the draft with empty content. *)
Lemma createOverlay_submits_without_validation_witness :
  isValid (validateOverlay Examples.no_numeric_strings Examples.empty_logo) = false /\
  errors (validateOverlay Examples.no_numeric_strings Examples.empty_logo) !! "content"
    = Some (VStr "Content is required").
Proof.
  exact (proj2 (createOverlay_submits_without_validation (Examples.accepting [])
                  Examples.no_numeric_strings Examples.empty_logo
                  (Examples.started []))
               eq_refl).
Defined.

(** ** batchUpdateOverlays *)

Lemma settle_mutate srv r m :
  settle (api_mutate srv r) m =
    (Returned (settled_of (mutation_reply srv (length (sent m)) r)),
     record_request r m).
Proof.
  unfold settle, api_mutate.
  destruct (mutation_reply srv (length (sent m)) r); reflexivity.
Qed.

(** [overlayAPI.batchUpdate] sends one [PUT] per element, in order, never
    throws, and answers with one settled result per element. *)
Lemma batchUpdate_run srv (updates : list Update.t) (m : machine) :
  overlayAPI.batchUpdate srv updates m =
    (Returned (imap (fun i u =>
                 settled_of (mutation_reply srv (length (sent m) + i) (put_of u)))
                 updates),
     {| ui := ui m; sent := sent m ++ map put_of updates; ticks := ticks m |}).
Proof.
  unfold overlayAPI.batchUpdate. revert m.
  induction updates as [|u updates IH]; intros m.
  - simpl. unfold ret. rewrite app_nil_r. destruct m; reflexivity.
  - cbn [map allSettled]. unfold bind at 1.
    change (PutOverlay (Update.id u) (Update.data u)) with (put_of u).
    rewrite settle_mutate. unfold bind at 1. rewrite IH. unfold ret.
    rewrite imap_cons. unfold record_request; cbn [sent ui ticks].
    rewrite Nat.add_0_r, <- app_assoc. cbn [app].
    f_equal. f_equal. f_equal. apply imap_ext. intros i x _. simpl.
    rewrite length_app. simpl. do 2 f_equal. lia.
Qed.

Lemma findIndex_cons {A} (p : A -> bool) (a : A) (l : list A) :
  findIndex p (a :: l) = if p a then Some 0 else S <$> findIndex p l.
Proof.
  unfold findIndex. cbn [list_find].
  destruct (decide (p a = true)) as [H|H].
  - rewrite H. reflexivity.
  - destruct (p a); [contradiction H; reflexivity|].
    destruct (list_find _ l) as [[j x]|]; reflexivity.
Qed.

Lemma findIndex_Some {A} (p : A -> bool) (l : list A) j :
  findIndex p l = Some j -> exists a, l !! j = Some a /\ p a = true.
Proof.
  unfold findIndex. intros H.
  destruct (list_find (fun a => p a = true) l) as [[j' a]|] eqn:E; [|discriminate].
  simpl in H. injection H as ->. apply list_find_Some in E.
  exists a. tauto.
Qed.

(** [findIndex] by id only looks at the [_id] fields. *)
Lemma findIndex_same_ids id (l l' : list obj) :
  (fun o : obj => o !! "_id") <$> l = (fun o : obj => o !! "_id") <$> l' ->
  findIndex (has_id id) l = findIndex (has_id id) l'.
Proof.
  revert l'. induction l as [|o l IH]; intros [|o' l'] H; try discriminate.
  - reflexivity.
  - rewrite !fmap_cons in H. injection H as Ho Hl.
    rewrite !findIndex_cons. unfold has_id at 1 3. rewrite Ho.
    rewrite (IH l' Hl). reflexivity.
Qed.

Lemma has_id_unique o a b : has_id a o = true -> has_id b o = true -> a = b.
Proof.
  unfold has_id. destruct (o !! "_id") as [[| | | |s|]|]; try discriminate.
  intros Ha Hb. apply String.eqb_eq in Ha, Hb. congruence.
Qed.

Lemma has_id_merged id o updateData stamp :
  updateData !! "_id" = None ->
  has_id id (merged o updateData stamp) = has_id id o.
Proof.
  intros H. unfold has_id. rewrite merged_lookup. simpl. rewrite H. reflexivity.
Qed.

(** One step of the [forEach]: the first record with the id, if any, is
    merged and stamped with the next reading of the clock. *)
Lemma apply_update_run srv (l : list obj) (u : Update.t) (m : machine) :
  match findIndex (has_id (Update.id u)) l with
  | Some j =>
      exists o, l !! j = Some o /\ has_id (Update.id u) o = true /\
        apply_update srv l u m =
          (Returned (<[j := merged o (Update.data u) (toISOString srv (ticks m))]> l),
           {| ui := ui m; sent := sent m; ticks := S (ticks m) |})
  | None => apply_update srv l u m = (Returned l, m)
  end.
Proof.
  unfold apply_update.
  destruct (findIndex (has_id (Update.id u)) l) as [j|] eqn:E; [|reflexivity].
  destruct (findIndex_Some _ _ _ E) as (o & Hj & Ho).
  exists o. rewrite Hj. repeat split; assumption.
Qed.

(** The whole [forEach]: it returns a list of the same length, only the
    clock moves, and a record that no element of the batch names is kept. *)
Lemma forEach_frame srv (us : list Update.t) (l : list obj) (m : machine) :
  exists l' k,
    forEach_M (apply_update srv) us l m =
      (Returned l', {| ui := ui m; sent := sent m; ticks := ticks m + k |}) /\
    length l' = length l /\
    (forall j o, l !! j = Some o ->
       (forall u, In u us -> has_id (Update.id u) o = false) ->
       l' !! j = Some o) /\
    (Forall (fun u => Update.data u !! "_id" = None) us ->
     (fun o : obj => o !! "_id") <$> l' = (fun o : obj => o !! "_id") <$> l).
Proof.
  revert l m. induction us as [|u us IH]; intros l m.
  - exists l, 0. simpl. unfold ret. rewrite Nat.add_0_r. destruct m.
    repeat split; auto.
  - cbn [forEach_M]. unfold bind at 1.
    pose proof (apply_update_run srv l u m) as Hstep.
    destruct (findIndex (has_id (Update.id u)) l) as [j0|] eqn:Hfind.
    + destruct Hstep as (o0 & Hj0 & Ho0 & Hrun). rewrite Hrun.
      set (l1 := <[j0 := merged o0 (Update.data u) (toISOString srv (ticks m))]> l).
      destruct (IH l1 {| ui := ui m; sent := sent m; ticks := S (ticks m) |})
        as (l' & k & Hrun' & Hlen & Hframe & Hids).
      exists l', (S k). cbn [ui sent ticks] in Hrun'. rewrite Hrun'.
      split; [replace (ticks m + S k) with (S (ticks m) + k) by lia; reflexivity|].
      split; [rewrite Hlen; apply length_insert|].
      split.
      * intros j o Hj Hnone. apply Hframe.
        -- unfold l1. rewrite list_lookup_insert_ne; [exact Hj|].
           intros ->. rewrite Hj in Hj0. injection Hj0 as ->.
           rewrite (Hnone u (or_introl eq_refl)) in Ho0. discriminate.
        -- intros u' Hu'. apply Hnone. now right.
      * intros Hall. inversion Hall as [|? ? Hu Hus]; subst.
        rewrite (Hids Hus). unfold l1. rewrite list_fmap_insert.
        apply list_insert_id. rewrite list_lookup_fmap, Hj0. simpl.
        f_equal. rewrite merged_lookup. simpl. now rewrite Hu.
    + rewrite Hstep.
      destruct (IH l m) as (l' & k & Hrun' & Hlen & Hframe & Hids).
      exists l', k. rewrite Hrun'. split; [reflexivity|].
      split; [exact Hlen|]. split.
      * intros j o Hj Hnone. apply Hframe; [exact Hj|].
        intros u' Hu'. apply Hnone. now right.
      * intros Hall. inversion Hall; subst. now apply Hids.
Qed.

Lemma forEach_app {A S} (f : S -> A -> M S) (l1 l2 : list A) (acc : S) (m : machine) :
  forEach_M f (l1 ++ l2) acc m = bind (forEach_M f l1 acc) (forEach_M f l2) m.
Proof.
  revert acc m. induction l1 as [|a l1 IH]; intros acc m.
  - reflexivity.
  - cbn [app forEach_M]. unfold bind.
    destruct (f acc a m) as [[acc'|e] m1]; [|reflexivity].
    rewrite IH. reflexivity.
Qed.

(** An element whose id no other element of the batch shares is merged
    into the first record with that id, provided no patch renames a
    record. *)
Lemma forEach_merge srv (before after : list Update.t) (u : Update.t)
    (l : list obj) (m : machine) j o :
  Forall (fun u' => Update.data u' !! "_id" = None) (before ++ u :: after) ->
  (forall u', In u' (before ++ after) -> Update.id u' <> Update.id u) ->
  findIndex (has_id (Update.id u)) l = Some j ->
  l !! j = Some o ->
  exists l' k t,
    forEach_M (apply_update srv) (before ++ u :: after) l m =
      (Returned l', {| ui := ui m; sent := sent m; ticks := ticks m + k |}) /\
    ticks m <= t < ticks m + k /\
    l' !! j = Some (merged o (Update.data u) (toISOString srv t)).
Proof.
  intros Hall Hother Hfind Hj.
  apply Forall_app in Hall. destruct Hall as [Hbefore Hrest].
  inversion Hrest as [|? ? Hu Hafter]; subst.
  destruct (findIndex_Some _ _ _ Hfind) as (o' & Hj' & Ho).
  rewrite Hj in Hj'. injection Hj' as <-.
  assert (Hdiff : forall o1 u', has_id (Update.id u) o1 = true ->
                    In u' (before ++ after) -> has_id (Update.id u') o1 = false).
  { intros o1 u' H1 Hin. destruct (has_id (Update.id u') o1) eqn:E; [|reflexivity].
    exfalso. apply (Hother u' Hin). exact (has_id_unique o1 _ _ E H1). }
  destruct (forEach_frame srv before l m) as (l1 & k1 & Hrun1 & _ & Hframe1 & Hids1).
  assert (Hj1 : l1 !! j = Some o).
  { apply Hframe1; [exact Hj|]. intros u' Hin. apply Hdiff; [exact Ho|].
    apply in_or_app. now left. }
  assert (Hfind1 : findIndex (has_id (Update.id u)) l1 = Some j).
  { rewrite (findIndex_same_ids _ l1 l (Hids1 Hbefore)). exact Hfind. }
  set (m1 := {| ui := ui m; sent := sent m; ticks := ticks m + k1 |}) in *.
  pose proof (apply_update_run srv l1 u m1) as Hstep. rewrite Hfind1 in Hstep.
  destruct Hstep as (o1 & Hj1' & _ & Hrun2).
  rewrite Hj1 in Hj1'. injection Hj1' as <-.
  set (l2 := <[j := merged o (Update.data u) (toISOString srv (ticks m1))]> l1) in *.
  set (m2 := {| ui := ui m1; sent := sent m1; ticks := S (ticks m1) |}) in *.
  destruct (forEach_frame srv after l2 m2) as (l3 & k3 & Hrun3 & _ & Hframe3 & _).
  exists l3, (k1 + S k3), (ticks m + k1).
  split; [|split].
  - rewrite forEach_app. unfold bind at 1. rewrite Hrun1.
    cbn [forEach_M]. unfold bind at 1. fold m1. rewrite Hrun2. fold m2.
    rewrite Hrun3. unfold m2, m1; cbn [ui sent ticks].
    replace (ticks m + (k1 + S k3)) with (S (ticks m + k1) + k3) by lia. reflexivity.
  - lia.
  - apply Hframe3.
    + unfold l2. apply list_lookup_insert_eq. apply lookup_lt_Some in Hj1. exact Hj1.
    + intros u' Hin. rewrite (has_id_merged _ _ _ _ Hu). apply Hdiff; [exact Ho|].
      apply in_or_app. now right.
Qed.

Lemma ids_insert_merged (l : list obj) j o updateData stamp :
  l !! j = Some o -> updateData !! "_id" = None ->
  (fun o : obj => o !! "_id") <$> <[j := merged o updateData stamp]> l
  = (fun o : obj => o !! "_id") <$> l.
Proof.
  intros Hj Hp. rewrite list_fmap_insert. apply list_insert_id.
  rewrite list_lookup_fmap, Hj. simpl. f_equal.
  rewrite merged_lookup. simpl. now rewrite Hp.
Qed.

(** All the patches for one id, accepted in the batch, pile up in order on
    the first record with that id. *)
Lemma forEach_merge_each srv (us : list Update.t) (l : list obj) (m : machine) id j o :
  Forall (fun u => Update.data u !! "_id" = None) us ->
  findIndex (has_id id) l = Some j ->
  l !! j = Some o ->
  exists l' k stamps,
    forEach_M (apply_update srv) us l m =
      (Returned l', {| ui := ui m; sent := sent m; ticks := ticks m + k |}) /\
    length stamps = length (patches_for id us) /\
    Forall (fun t => exists n, ticks m <= n < ticks m + k /\ t = toISOString srv n)
      stamps /\
    l' !! j = Some (merge_each o (patches_for id us) stamps).
Proof.
  revert l m o. induction us as [|u us IH]; intros l m o Hall Hfind Hj.
  - exists l, 0, []. simpl. unfold ret. rewrite Nat.add_0_r. destruct m.
    repeat split; auto.
  - inversion Hall as [|? ? Hu Hus]; subst.
    destruct (findIndex_Some _ _ _ Hfind) as (o' & Hj' & Ho).
    rewrite Hj in Hj'. injection Hj' as <-.
    cbn [forEach_M]. unfold bind at 1. unfold patches_for. cbn [List.filter].
    pose proof (apply_update_run srv l u m) as Hstep.
    destruct (String.eqb_spec (Update.id u) id) as [Heq|Hne].
    + rewrite Heq, Hfind in Hstep. destruct Hstep as (o1 & Hj1 & _ & Hrun).
      rewrite Hj in Hj1. injection Hj1 as <-. rewrite Hrun.
      set (o1 := merged o (Update.data u) (toISOString srv (ticks m))).
      set (m1 := {| ui := ui m; sent := sent m; ticks := S (ticks m) |}).
      destruct (IH (<[j := o1]> l) m1 o1 Hus) as (l' & k & stamps & Hrun' & Hlen & Hst & Hl').
      * rewrite (findIndex_same_ids id _ l); [exact Hfind|].
        now apply ids_insert_merged.
      * apply list_lookup_insert_eq. apply lookup_lt_Some in Hj. exact Hj.
      * exists l', (S k), (toISOString srv (ticks m) :: stamps).
        rewrite Hrun'. unfold m1; cbn [ui sent ticks].
        split; [replace (ticks m + S k) with (S (ticks m) + k) by lia; reflexivity|].
        split; [cbn [fmap list_fmap length]; f_equal; exact Hlen|].
        split.
        -- constructor.
           ++ exists (ticks m). split; [lia|reflexivity].
           ++ eapply Forall_impl; [exact Hst|]. cbn [ticks].
              intros t (n & Hn & Ht). unfold m1 in Hn; cbn [ticks] in Hn.
              exists n. split; [lia|exact Ht].
        -- exact Hl'.
    + assert (Hfalse : has_id (Update.id u) o = false).
      { destruct (has_id (Update.id u) o) eqn:E; [|reflexivity].
        exfalso. apply Hne. exact (has_id_unique o _ _ E Ho). }
      destruct (findIndex (has_id (Update.id u)) l) as [j0|].
      * destruct Hstep as (o0 & Hj0 & Ho0 & Hrun). rewrite Hrun.
        assert (Hjj : j0 <> j).
        { intros ->. rewrite Hj in Hj0. injection Hj0 as <-. congruence. }
        set (l1 := <[j0 := merged o0 (Update.data u) (toISOString srv (ticks m))]> l).
        set (m1 := {| ui := ui m; sent := sent m; ticks := S (ticks m) |}).
        destruct (IH l1 m1 o Hus) as (l' & k & stamps & Hrun' & Hlen & Hst & Hl').
        -- rewrite (findIndex_same_ids id _ l); [exact Hfind|].
           now apply ids_insert_merged.
        -- unfold l1. rewrite list_lookup_insert_ne by exact Hjj. exact Hj.
        -- exists l', (S k), stamps.
           rewrite Hrun'. unfold m1; cbn [ui sent ticks].
           split; [replace (ticks m + S k) with (S (ticks m) + k) by lia; reflexivity|].
           split; [exact Hlen|]. split; [|exact Hl'].
           eapply Forall_impl; [exact Hst|]. cbn [ticks].
           intros t (n & Hn & Ht). unfold m1 in Hn; cbn [ticks] in Hn.
              exists n. split; [lia|exact Ht].
      * rewrite Hstep.
        destruct (IH l m o Hus Hfind Hj) as (l' & k & stamps & Hrun' & Hlen & Hst & Hl').
        exists l', k, stamps. rewrite Hrun'. repeat split; assumption.
Qed.

Lemma filter_index_ext {A} (f g : nat -> A -> bool) k (l : list A) :
  (forall i a, l !! i = Some a -> f (k + i) a = g (k + i) a) ->
  filter_index f k l = filter_index g k l.
Proof.
  revert k. induction l as [|a l IH]; intros k H.
  - reflexivity.
  - cbn [filter_index]. pose proof (H 0 a eq_refl) as H0.
    rewrite Nat.add_0_r in H0. rewrite H0, (IH (S k)).
    + reflexivity.
    + intros i b Hi. replace (S k + i) with (k + S i) by lia. exact (H (S i) b Hi).
Qed.

Lemma filter_index_app {A} (f : nat -> A -> bool) k (l1 l2 : list A) :
  filter_index f k (l1 ++ l2) =
    filter_index f k l1 ++ filter_index f (k + length l1) l2.
Proof.
  revert k. induction l1 as [|a l1 IH]; intros k.
  - simpl. now rewrite Nat.add_0_r.
  - cbn [app filter_index length]. rewrite IH.
    replace (S k + length l1) with (k + S (length l1)) by lia.
    destruct (f k a); reflexivity.
Qed.

Lemma filter_index_In {A} (f : nat -> A -> bool) k (l : list A) a :
  In a (filter_index f k l) -> exists i, l !! i = Some a /\ f (k + i) a = true.
Proof.
  revert k. induction l as [|b l IH]; intros k H.
  - destruct H.
  - cbn [filter_index] in H. destruct (f k b) eqn:E.
    + destruct H as [->|H].
      * exists 0. rewrite Nat.add_0_r. split; [reflexivity|exact E].
      * destruct (IH _ H) as (i & Hi & Hf). exists (S i).
        replace (k + S i) with (S k + i) by lia. split; assumption.
    + destruct (IH _ H) as (i & Hi & Hf). exists (S i).
      replace (k + S i) with (S k + i) by lia. split; assumption.
Qed.

Lemma fulfilled_at_imap {A} (g : nat -> Update.t -> reply A) (updates : list Update.t) i u :
  updates !! i = Some u ->
  fulfilled_at (imap (fun i u => settled_of (g i u)) updates) i = resolved (g i u).
Proof.
  intros H. unfold fulfilled_at. rewrite list_lookup_imap, H. simpl.
  destruct (g i u); reflexivity.
Qed.

(** The run of [batchUpdateOverlays]: the settled results are returned, and
    the collection is what the [forEach] over the fulfilled elements
    leaves. *)
Lemma batchUpdateOverlays_run srv (updates : list Update.t) (m : machine) :
  let responses :=
    imap (fun i u => settled_of (mutation_reply srv (length (sent m) + i) (put_of u)))
      updates in
  let successes := filter_index (fun index _ => fulfilled_at responses index) 0 updates in
  forall l' k,
    forEach_M (apply_update srv) successes (overlays (ui m))
      {| ui := ui m; sent := sent m ++ map put_of updates; ticks := ticks m |}
    = (Returned l',
       {| ui := ui m; sent := sent m ++ map put_of updates; ticks := ticks m + k |}) ->
    batchUpdateOverlays srv updates m =
      (Returned responses,
       {| ui := {| overlays := l'; loading := loading (ui m); error := error (ui m) |};
          sent := sent m ++ map put_of updates;
          ticks := ticks m + k |}).
Proof.
  intros responses successes l' k Hrun.
  unfold batchUpdateOverlays, try_catch. unfold bind at 1.
  rewrite batchUpdate_run. fold responses. cbv zeta. fold successes.
  unfold bind at 1. unfold updateOverlays. unfold bind at 1. unfold readOverlays.
  cbn [ui]. unfold bind at 1. rewrite Hrun. reflexivity.
Qed.

(** The fields of a record after several patches. *)
Lemma merge_each_lookup (patches : list obj) :
  forall (o : obj) (stamps : list string) (k : string),
  length stamps = length patches ->
  merge_each o patches stamps !! k =
    if String.eqb k "updated_at"
    then match last stamps with
         | Some t => Some (VStr t)
         | None => o !! k
         end
    else last_write k patches (o !! k).
Proof.
  induction patches as [|p ps IH]; intros o [|t ts] k Hlen; try discriminate.
  - cbn. destruct (String.eqb k "updated_at"); reflexivity.
  - cbn [merge_each]. rewrite IH by (cbn in Hlen; lia).
    unfold last_write. cbn [fold_left]. rewrite merged_lookup.
    destruct (String.eqb_spec k "updated_at") as [->|Hk]; [|reflexivity].
    destruct ts as [|t' ts]; [reflexivity|].
    cbn [last]. destruct (last (t' :: ts)) eqn:E; [reflexivity|].
    now apply last_None in E.
Qed.

(** C4.  [batchUpdate(updates)].  One [PUT] is sent per element and
    nothing else, so no re-fetch happens; the call returns one settled
    result per element, fulfilled exactly where the remote store accepted;
    the error state is untouched.  A record that no accepted element names
    keeps its pre-call value.  Provided that no patch renames a record: an
    accepted element whose id no other accepted element shares is merged
    into the first record with that id, so that each field the patch carries
    has the patch's value, each other field its old value, and [updated_at]
    a reading of the clock taken during the call; and in general the first
    record with an id has received, in order and each with such a stamp, the
    patches of all the accepted elements for that id, and only those: a
    field has the value of the last accepted patch that carries it, its old
    value when none does, and [updated_at] is the last stamp. *)
Theorem batchUpdateOverlays_partial_failure
    (srv : remote) (updates : list Update.t) (m : machine) :
  let answer i u := mutation_reply srv (length (sent m) + i) (put_of u) in
  let r := fst (batchUpdateOverlays srv updates m) in
  let m' := snd (batchUpdateOverlays srv updates m) in
  r = Returned (imap (fun i u => settled_of (answer i u)) updates) /\
  sent m' = sent m ++ map put_of updates /\
  error (ui m') = error (ui m) /\
  loading (ui m') = loading (ui m) /\
  length (overlays (ui m')) = length (overlays (ui m)) /\
  (forall j o, overlays (ui m) !! j = Some o ->
     (forall i u, updates !! i = Some u -> resolved (answer i u) = true ->
        has_id (Update.id u) o = false) ->
     overlays (ui m') !! j = Some o) /\
  (Forall (fun u => Update.data u !! "_id" = None) updates ->
   forall i u j o,
     updates !! i = Some u ->
     resolved (answer i u) = true ->
     (forall i' u', updates !! i' = Some u' -> resolved (answer i' u') = true ->
        i' <> i -> Update.id u' <> Update.id u) ->
     findIndex (has_id (Update.id u)) (overlays (ui m)) = Some j ->
     overlays (ui m) !! j = Some o ->
     exists t updated,
       ticks m <= t < ticks m' /\
       overlays (ui m') !! j = Some updated /\
       updated = merged o (Update.data u) (toISOString srv t) /\
       updated !! "updated_at" = Some (VStr (toISOString srv t)) /\
       forall k, k <> "updated_at" ->
         updated !! k = match Update.data u !! k with
                        | Some v => Some v
                        | None => o !! k
                        end) /\
  (Forall (fun u => Update.data u !! "_id" = None) updates ->
   forall id j o,
     findIndex (has_id id) (overlays (ui m)) = Some j ->
     overlays (ui m) !! j = Some o ->
     let accepted := filter_index (fun i u => resolved (answer i u)) 0 updates in
     exists stamps final,
       length stamps = length (patches_for id accepted) /\
       Forall (fun t => exists n, ticks m <= n < ticks m' /\ t = toISOString srv n)
         stamps /\
       overlays (ui m') !! j = Some final /\
       final = merge_each o (patches_for id accepted) stamps /\
       final !! "updated_at" = match last stamps with
                               | Some t => Some (VStr t)
                               | None => o !! "updated_at"
                               end /\
       forall k, k <> "updated_at" ->
         final !! k = last_write k (patches_for id accepted) (o !! k)).
Proof.
  intros answer r m'. subst r m'.
  set (responses := imap (fun i u => settled_of (answer i u)) updates).
  set (f := fun (index : nat) (_ : Update.t) => fulfilled_at responses index).
  set (successes := filter_index f 0 updates).
  set (m0 := {| ui := ui m; sent := sent m ++ map put_of updates; ticks := ticks m |}).
  assert (Hsucc : forall k u, In u (filter_index f k (drop k updates)) ->
            exists i, k <= i /\ updates !! i = Some u /\ resolved (answer i u) = true).
  { intros k u Hin. apply filter_index_In in Hin. destruct Hin as (i & Hi & Hf).
    rewrite lookup_drop in Hi. exists (k + i). split; [lia|]. split; [exact Hi|].
    unfold f, responses in Hf. rewrite (fulfilled_at_imap answer updates _ u Hi) in Hf.
    exact Hf. }
  destruct (forEach_frame srv successes (overlays (ui m)) m0)
    as (l' & k & Hrun & Hlen & Hframe & _).
  rewrite (batchUpdateOverlays_run srv updates m l' k Hrun).
  cbn [fst snd ui sent overlays error loading ticks].
  repeat (split; [first [reflexivity|exact Hlen]|]). split; [|split].
  - intros j o Hj Hnone. apply Hframe; [exact Hj|].
    intros u Hin. destruct (Hsucc 0 u Hin) as (i & _ & Hi & Hres).
    exact (Hnone i u Hi Hres).
  - intros Hall i u j o Hi Hres Hother Hfind Hj.
    assert (Hsplit : successes =
              filter_index f 0 (take i updates) ++
              u :: filter_index f (S i) (drop (S i) updates)).
    { unfold successes. rewrite <- (take_drop_middle updates i u Hi) at 1.
      rewrite filter_index_app. f_equal.
      assert (Hlt : i < length updates) by (apply lookup_lt_Some in Hi; exact Hi).
      rewrite length_take. replace (0 + i `min` length updates) with i by lia.
      cbn [filter_index]. unfold f at 1. unfold responses.
      rewrite (fulfilled_at_imap answer updates i u Hi), Hres. reflexivity. }
    assert (Hbefore : forall u', In u' (filter_index f 0 (take i updates)) ->
              exists i', i' < i /\ updates !! i' = Some u' /\
                resolved (answer i' u') = true).
    { intros u' Hin. apply filter_index_In in Hin. destruct Hin as (i' & Hi' & Hf).
      apply lookup_take_Some in Hi'. destruct Hi' as [Hi' Hlt].
      exists i'. split; [exact Hlt|]. split; [exact Hi'|].
      unfold f, responses in Hf. simpl in Hf.
      rewrite (fulfilled_at_imap answer updates _ u' Hi') in Hf. exact Hf. }
    assert (Hno_id : Forall (fun u' => Update.data u' !! "_id" = None) successes).
    { apply List.Forall_forall. intros u' Hin.
      destruct (Hsucc 0 u' Hin) as (i' & _ & Hi' & _).
      rewrite Forall_lookup in Hall. exact (Hall i' u' Hi'). }
    rewrite Hsplit in Hno_id, Hrun.
    destruct (forEach_merge srv _ _ u (overlays (ui m)) m0 j o Hno_id) as
      (l'' & k'' & t & Hrun'' & Ht & Hmerged); try assumption.
    + intros u' Hin. apply in_app_or in Hin. destruct Hin as [Hin|Hin].
      * destruct (Hbefore u' Hin) as (i' & Hlt & Hi' & Hres').
        apply (Hother i' u' Hi' Hres'). lia.
      * destruct (Hsucc (S i) u' Hin) as (i' & Hlt & Hi' & Hres').
        apply (Hother i' u' Hi' Hres'). lia.
    + rewrite Hrun in Hrun''. injection Hrun'' as -> Hk.
      assert (k = k'') as -> by (cbn [ticks] in Hk; lia).
      exists t, (merged o (Update.data u) (toISOString srv t)).
      split; [exact Ht|]. split; [exact Hmerged|]. split; [reflexivity|].
      split.
      * rewrite merged_lookup. reflexivity.
      * intros k0 Hk0. rewrite merged_lookup.
        destruct (String.eqb_spec k0 "updated_at"); [contradiction|reflexivity].
  - intros Hall id j o Hfind Hj. cbv zeta.
    set (accepted := filter_index (fun i u => resolved (answer i u)) 0 updates).
    assert (Hacc : successes = accepted).
    { unfold successes, accepted. apply filter_index_ext. intros i u Hi.
      unfold f, responses. simpl. exact (fulfilled_at_imap answer updates i u Hi). }
    assert (Hno_id : Forall (fun u' => Update.data u' !! "_id" = None) successes).
    { apply List.Forall_forall. intros u' Hin.
      destruct (Hsucc 0 u' Hin) as (i' & _ & Hi' & _).
      rewrite Forall_lookup in Hall. exact (Hall i' u' Hi'). }
    destruct (forEach_merge_each srv successes (overlays (ui m)) m0 id j o
                Hno_id Hfind Hj)
      as (l'' & k'' & stamps & Hrun'' & Hlen'' & Hst & Hmerged).
    rewrite Hrun in Hrun''. injection Hrun'' as -> Hk.
    assert (k = k'') as -> by (cbn [ticks] in Hk; lia).
    rewrite <- Hacc.
    exists stamps, (merge_each o (patches_for id successes) stamps).
    split; [exact Hlen''|]. split; [exact Hst|]. split; [exact Hmerged|].
    split; [reflexivity|]. split.
    + rewrite (merge_each_lookup _ _ _ _ Hlen''). reflexivity.
    + intros k0 Hk0. rewrite (merge_each_lookup _ _ _ _ Hlen'').
      destruct (String.eqb_spec k0 "updated_at"); [contradiction|reflexivity].
Qed.

(** The theorem at the partial batch: [B], whose update is rejected, keeps
    its value, and [A] has the position of its patch and a stamp. *)
Lemma batchUpdateOverlays_partial_failure_witness :
  overlays (ui (snd (batchUpdateOverlays (Examples.rejecting_nth 1 [])
                       Examples.three_updates
                       (Examples.started Examples.three_overlays)))) !! 1
    = Some (Examples.overlay "B" 300 40 true) /\
  exists stamp final,
    overlays (ui (snd (batchUpdateOverlays (Examples.rejecting_nth 1 [])
                         Examples.three_updates
                         (Examples.started Examples.three_overlays)))) !! 0
      = Some final /\
    final !! "position" = Some (Examples.xy 50 60) /\
    final !! "content" = Some (VStr "Live") /\
    final !! "updated_at" = Some (VStr stamp).
Proof.
  pose proof (batchUpdateOverlays_partial_failure (Examples.rejecting_nth 1 [])
                Examples.three_updates (Examples.started Examples.three_overlays))
    as (_ & _ & _ & _ & _ & Hframe & _ & Hmerge).
  split.
  - apply Hframe; [reflexivity|].
    intros [|[|[|i]]] u Hu Hres; try discriminate;
      injection Hu as <-; reflexivity.
  - destruct (Hmerge ltac:(repeat constructor) "A" 0
                (Examples.overlay "A" 10 10 true) eq_refl eq_refl)
      as (stamps & final & Hlen & _ & Hj & _ & Hstamp & Hfields).
    destruct stamps as [|stamp [|? ?]]; try discriminate.
    exists stamp, final. split; [exact Hj|]. split; [|split].
    + rewrite (Hfields "position" ltac:(discriminate)). reflexivity.
    + rewrite (Hfields "content" ltac:(discriminate)). reflexivity.
    + exact Hstamp.
Defined.

(** The partial batch of the specification: three updates, the second
    rejected.  [A] and [C] are moved and stamped, [B] stays where it was, and
    the result reports two fulfilled elements and one rejected. *)
Example batch_second_rejected :
  batchUpdateOverlays (Examples.rejecting_nth 1 []) Examples.three_updates
    (Examples.started Examples.three_overlays)
  = (Returned [Fulfilled VNull; Rejected Examples.not_found; Fulfilled VNull],
     {| ui := {| overlays :=
                   [ <["updated_at" := VStr "2024-01-01T00:00:00.000Z"]>
                       (Examples.overlay "A" 50 60 true);
                     Examples.overlay "B" 300 40 true;
                     <["updated_at" := VStr "2024-01-01T00:00:01.000Z"]>
                       (Examples.overlay "C" 7 8 false) ];
                 loading := false; error := VNull |};
        sent := [ PutOverlay "A" (Examples.move_to 50 60);
                  PutOverlay "B" (Examples.move_to 1 2);
                  PutOverlay "C" (Examples.move_to 7 8) ];
        ticks := 2 |}).
Proof. vm_compute. reflexivity. Qed.

(** ** The bounds of the data model *)

Lemma bounds_ok_merged (o updateData : obj) stamp :
  bounds_ok o = true -> patch_ok updateData = true ->
  bounds_ok (merged o updateData stamp) = true.
Proof.
  unfold bounds_ok, patch_ok, prop. intros Ho Hp.
  rewrite !merged_lookup. simpl.
  apply andb_true_iff in Ho. destruct Ho as [Hs Hpos].
  apply andb_true_iff in Hp. destruct Hp as [Hps Hpp].
  apply andb_true_iff. split.
  - destruct (updateData !! "size"); [exact Hps|exact Hs].
  - destruct (updateData !! "position"); [exact Hpp|exact Hpos].
Qed.

Lemma forallb_lookup {A} (p : A -> bool) (l : list A) :
  forallb p l = true <-> forall j a, l !! j = Some a -> p a = true.
Proof.
  rewrite forallb_forall. split.
  - intros H j a Hj. apply H. apply list_elem_of_In, list_elem_of_lookup. eauto.
  - intros H a Hin. apply list_elem_of_In, list_elem_of_lookup in Hin.
    destruct Hin as (j & Hj). eauto.
Qed.

Lemma after_fetch_bounds srv m :
  remote_within_bounds srv ->
  forallb bounds_ok (overlays (ui m)) = true ->
  forallb bounds_ok (overlays (ui (after_fetch srv m))) = true.
Proof.
  intros Hsrv Hm. unfold after_fetch; simpl.
  destruct (overlays_reply srv (length (sent m))) as [data|e] eqn:E; simpl.
  - exact (Hsrv _ _ E).
  - exact Hm.
Qed.

Lemma updateOverlay_bounds srv id updateData m :
  remote_within_bounds srv ->
  forallb bounds_ok (overlays (ui m)) = true ->
  patch_ok updateData = true ->
  forallb bounds_ok (overlays (ui (snd (updateOverlay srv id updateData m)))) = true.
Proof.
  intros Hsrv Hm Hp.
  destruct (mutation_reply srv (length (sent m)) (PutOverlay id updateData))
    as [response|e] eqn:Hreply.
  - destruct (updateOverlay_resolved srv id updateData m response Hreply)
      as (l' & k & Hrun & Hlen & Hl').
    rewrite Hrun. cbn [snd ui overlays].
    apply forallb_lookup. intros j a Hj.
    assert (Hlt : j < length (overlays (ui m))).
    { rewrite <- Hlen. apply lookup_lt_Some in Hj. exact Hj. }
    apply lookup_lt_is_Some in Hlt. destruct Hlt as (o & Ho).
    pose proof (proj1 (forallb_lookup _ _) Hm j o Ho) as Hok.
    specialize (Hl' j o Ho). destruct (has_id id o).
    + destruct Hl' as (t & _ & Hl't). rewrite Hj in Hl't. injection Hl't as ->.
      now apply bounds_ok_merged.
    + rewrite Hj in Hl'. injection Hl' as ->. exact Hok.
  - rewrite (updateOverlay_rejected srv id updateData m e Hreply).
    cbv zeta. cbn [snd ui overlays].
    apply after_fetch_bounds; assumption.
Qed.

Lemma forEach_bounds srv (us : list Update.t) (l : list obj) (m : machine) l' m' :
  forEach_M (apply_update srv) us l m = (Returned l', m') ->
  forallb (fun u => patch_ok (Update.data u)) us = true ->
  forallb bounds_ok l = true ->
  forallb bounds_ok l' = true.
Proof.
  revert l m. induction us as [|u us IH]; intros l m Hrun Hus Hl.
  - simpl in Hrun. injection Hrun as <- _. exact Hl.
  - cbn [forEach_M] in Hrun. unfold bind at 1 in Hrun.
    cbn [forallb] in Hus. apply andb_true_iff in Hus. destruct Hus as [Hu Hus].
    pose proof (apply_update_run srv l u m) as Hstep.
    destruct (findIndex (has_id (Update.id u)) l) as [j|].
    + destruct Hstep as (o & Hj & _ & Hstep). rewrite Hstep in Hrun.
      apply (IH _ _ Hrun Hus).
      apply forallb_lookup. intros i a Hi.
      destruct (decide (j = i)) as [->|Hne].
      * rewrite list_lookup_insert_eq in Hi by (apply lookup_lt_Some in Hj; exact Hj).
        injection Hi as <-. apply bounds_ok_merged; [|exact Hu].
        exact (proj1 (forallb_lookup _ _) Hl i o Hj).
      * rewrite list_lookup_insert_ne in Hi by exact Hne.
        exact (proj1 (forallb_lookup _ _) Hl i a Hi).
    + rewrite Hstep in Hrun. exact (IH _ _ Hrun Hus Hl).
Qed.

Lemma batchUpdateOverlays_bounds srv updates m :
  forallb bounds_ok (overlays (ui m)) = true ->
  forallb (fun u => patch_ok (Update.data u)) updates = true ->
  forallb bounds_ok (overlays (ui (snd (batchUpdateOverlays srv updates m)))) = true.
Proof.
  intros Hm Hus.
  set (responses := imap (fun i u =>
         settled_of (mutation_reply srv (length (sent m) + i) (put_of u))) updates).
  set (successes := filter_index (fun index _ => fulfilled_at responses index) 0 updates).
  set (m0 := {| ui := ui m; sent := sent m ++ map put_of updates; ticks := ticks m |}).
  destruct (forEach_frame srv successes (overlays (ui m)) m0)
    as (l' & k & Hrun & _).
  rewrite (batchUpdateOverlays_run srv updates m l' k Hrun). cbn [snd ui overlays].
  apply (forEach_bounds srv successes _ _ _ _ Hrun); [|exact Hm].
  apply forallb_forall. intros u Hin.
  apply filter_index_In in Hin. destruct Hin as (i & Hi & _).
  rewrite forallb_forall in Hus. apply Hus.
  apply list_elem_of_In, list_elem_of_lookup. eauto.
Qed.

Lemma void_snd {A} (c : M A) m : snd (void c m) = snd (c m).
Proof. unfold void, bind, ret. destruct (c m) as [[a|e] m']; reflexivity. Qed.

(** The bounds fail after an accepted update: [update] merges whatever
    position it is given. *)
Lemma update_breaks_bounds :
  forallb bounds_ok (overlays (ui (Examples.started Examples.two_overlays))) = true /\
  fst (perform (Examples.accepting Examples.two_overlays)
         (UpdateOne "A" (Examples.move_to (-5) 0))
         (Examples.started Examples.two_overlays)) = Returned tt /\
  forallb bounds_ok
    (overlays (ui (snd (perform (Examples.accepting Examples.two_overlays)
                          (UpdateOne "A" (Examples.move_to (-5) 0))
                          (Examples.started Examples.two_overlays))))) = false.
Proof. vm_compute. repeat split; reflexivity. Qed.

(** C2, amended.  The store does not check the bounds itself; it keeps
    them.  If every local overlay is within the bounds, the remote store
    only serves overlays within the bounds, and the patches handed to
    [update] and [batchUpdate] carry a size and a position within the bounds
    whenever they carry one, then after a successful operation (fetchAll,
    create, update, delete, batchUpdate, toggleVisibility) every local
    overlay is within the bounds. *)
Theorem store_operations_keep_bounds
    (srv : remote) (op : operation) (m : machine) :
  remote_within_bounds srv ->
  forallb bounds_ok (overlays (ui m)) = true ->
  patches_ok op = true ->
  succeeded (fst (perform srv op m)) = true ->
  forallb bounds_ok (overlays (ui (snd (perform srv op m)))) = true.
Proof.
  intros Hsrv Hm Hp _. destruct op as [|draft|id patch|id|updates|id]; cbn [perform].
  - rewrite fetchOverlays_run. now apply after_fetch_bounds.
  - rewrite void_snd.
    destruct (mutation_reply srv (length (sent m)) (PostOverlay draft))
      as [response|e] eqn:Hreply.
    + rewrite (createOverlay_resolved srv draft m response Hreply). cbn [snd].
      now apply after_fetch_bounds.
    + rewrite (createOverlay_rejected srv draft m e Hreply). exact Hm.
  - now apply updateOverlay_bounds.
  - destruct (mutation_reply srv (length (sent m)) (DeleteOverlay id))
      as [response|e] eqn:Hreply.
    + rewrite (deleteOverlay_resolved srv id m response Hreply). cbn [snd ui overlays].
      apply forallb_forall. intros o Hin. apply filter_In in Hin.
      rewrite forallb_forall in Hm. apply Hm. tauto.
    + rewrite (deleteOverlay_rejected srv id m e Hreply).
      cbv zeta. cbn [snd ui overlays]. now apply after_fetch_bounds.
  - rewrite void_snd. now apply batchUpdateOverlays_bounds.
  - destruct (getOverlay (overlays (ui m)) id) as [overlay|] eqn:Hget.
    + rewrite (toggleOverlayVisibility_found srv id m overlay Hget).
      apply updateOverlay_bounds; [assumption|assumption|reflexivity].
    + rewrite (toggleOverlayVisibility_absent srv id m Hget). exact Hm.
Qed.

(** A drag update of [A] to (50, 60) against a well-behaved backend. *)
Lemma store_operations_keep_bounds_witness :
  forallb bounds_ok
    (overlays (ui (snd (perform (Examples.accepting Examples.two_overlays)
                          (UpdateOne "A" (Examples.move_to 50 60))
                          (Examples.started Examples.two_overlays))))) = true.
Proof.
  apply (store_operations_keep_bounds (Examples.accepting Examples.two_overlays)
           (UpdateOne "A" (Examples.move_to 50 60))
           (Examples.started Examples.two_overlays)).
  - intros n data H. injection H as <-. reflexivity.
  - reflexivity.
  - reflexivity.
  - reflexivity.
Defined.

(** ** The extraction rule on the three kinds of error *)

Example handleError_server_message :
  apiUtils.handleError Examples.not_found (VStr "Failed to update overlay")
  = VStr "Overlay not found".
Proof. vm_compute. reflexivity. Qed.

Example handleError_transport_message :
  apiUtils.handleError Examples.network_error (VStr "Failed to update overlay")
  = VStr "Network Error".
Proof. vm_compute. reflexivity. Qed.

Example handleError_default_message :
  apiUtils.handleError ∅ (VStr "Failed to update overlay")
  = VStr "Failed to update overlay".
Proof. vm_compute. reflexivity. Qed.

(** * Further properties of the code *)

(** ** deleteOverlay and the selectors *)

Lemma find_cons {A} (p : A -> bool) (a : A) (l : list A) :
  find p (a :: l) = if p a then Some a else find p l.
Proof.
  unfold find. cbn [list_find].
  destruct (decide (p a = true)) as [H|H].
  - rewrite H. reflexivity.
  - destruct (p a); [contradiction H; reflexivity|].
    destruct (list_find _ l) as [[j x]|]; reflexivity.
Qed.

Lemma find_filter_keeps {A} (p q : A -> bool) (l : list A) :
  (forall a, p a = true -> q a = true) ->
  find p (List.filter q l) = find p l.
Proof.
  intros Hpq. induction l as [|a l IH]; [reflexivity|].
  cbn [List.filter]. rewrite find_cons. destruct (q a) eqn:Hq.
  - rewrite find_cons, IH. reflexivity.
  - destruct (p a) eqn:Hp; [|exact IH].
    rewrite (Hpq a Hp) in Hq. discriminate.
Qed.

Lemma find_filter_out {A} (p : A -> bool) (l : list A) :
  find p (List.filter (fun a => negb (p a)) l) = None.
Proof.
  induction l as [|a l IH]; [reflexivity|].
  cbn [List.filter]. destruct (p a) eqn:Hp; cbn [negb]; [exact IH|].
  rewrite find_cons, Hp. exact IH.
Qed.

Lemma filter_all {A} (q : A -> bool) (l : list A) :
  (forall a, In a l -> q a = true) -> List.filter q l = l.
Proof.
  induction l as [|a l IH]; intros H; [reflexivity|].
  cbn [List.filter]. rewrite (H a (or_introl eq_refl)).
  f_equal. apply IH. intros b Hb. apply H. now right.
Qed.

Lemma has_id_differs id id' o :
  id' <> id -> has_id id' o = true -> negb (has_id id o) = true.
Proof.
  intros Hne H'. destruct (has_id id o) eqn:E; [|reflexivity].
  contradiction Hne. exact (has_id_unique o _ _ H' E).
Qed.

(** X1.  [delete(id)].  When the remote store accepts, the call returns
    after that single request; afterwards no record carries the id, a lookup
    by any other id answers as before, the records kept are the old ones
    without the id, and a collection that did not hold the id is unchanged.
    When the remote store rejects, the error is re-thrown after a full
    re-fetch, with the message of the extraction rule in [error]. *)
Theorem deleteOverlay_removes_or_refetches
    (srv : remote) (id : string) (m : machine) :
  let del := DeleteOverlay id in
  let r := fst (deleteOverlay srv id m) in
  let m' := snd (deleteOverlay srv id m) in
  match mutation_reply srv (length (sent m)) del with
  | Resolve _ =>
      r = Returned tt /\
      sent m' = sent m ++ [del] /\
      error (ui m') = error (ui m) /\
      getOverlay (overlays (ui m')) id = None /\
      (forall id', id' <> id ->
         getOverlay (overlays (ui m')) id' = getOverlay (overlays (ui m)) id') /\
      (forall o, In o (overlays (ui m')) <->
                 In o (overlays (ui m)) /\ has_id id o = false) /\
      (getOverlay (overlays (ui m)) id = None -> overlays (ui m') = overlays (ui m))
  | Reject e =>
      r = Thrown e /\
      sent m' = sent m ++ [del; GetOverlays] /\
      overlays (ui m') =
        match overlays_reply srv (S (length (sent m))) with
        | Resolve data => data
        | Reject _ => overlays (ui m)
        end /\
      error (ui m') = apiUtils.handleError e (VStr "Failed to delete overlay")
  end.
Proof.
  intros del r m'. subst del r m'.
  destruct (mutation_reply srv (length (sent m)) (DeleteOverlay id))
    as [response|e] eqn:Hreply.
  - rewrite (deleteOverlay_resolved srv id m response Hreply).
    cbn [fst snd ui overlays sent error].
    refine (conj eq_refl (conj eq_refl (conj eq_refl (conj _ (conj _ (conj _ _)))))).
    + apply find_filter_out.
    + intros id' Hne. unfold getOverlay. apply find_filter_keeps.
      intros o Ho. exact (has_id_differs id id' o Hne Ho).
    + intros o. rewrite filter_In. rewrite negb_true_iff. reflexivity.
    + intros Habsent. apply filter_all. intros o Hin.
      apply list_elem_of_In, list_elem_of_lookup in Hin. destruct Hin as (j & Hj).
      rewrite (find_None_has_id id _ Habsent j o Hj). reflexivity.
  - rewrite (deleteOverlay_rejected srv id m e Hreply).
    cbv zeta. cbn [fst snd ui overlays sent error].
    rewrite after_fetch_recorded. repeat split; reflexivity.
Qed.

(** ** Lookups after an update *)

Lemma find_aligned (p : obj -> bool) (l l' : list obj) :
  length l' = length l ->
  (forall j o o', l !! j = Some o -> l' !! j = Some o' -> p o' = p o) ->
  match find p l with
  | None => find p l' = None
  | Some o => exists j, l !! j = Some o /\ p o = true /\ find p l' = l' !! j
  end.
Proof.
  revert l'. induction l as [|a l IH]; intros [|a' l'] Hlen Hp; try discriminate.
  - reflexivity.
  - rewrite !find_cons. rewrite (Hp 0 a a' eq_refl eq_refl).
    destruct (p a) eqn:Ha.
    + exists 0. repeat split. exact Ha.
    + specialize (IH l' ltac:(simpl in Hlen; lia)
                    (fun j o o' Hj Hj' => Hp (S j) o o' Hj Hj')).
      destruct (find p l) as [o|]; [|exact IH].
      destruct IH as (j & Hj & Ho & Hfind). exists (S j). repeat split; assumption.
Qed.

(** After an accepted update whose patch does not rename the record, a
    lookup by the id finds the merged record and a lookup by another id
    answers as before. *)
Lemma updateOverlay_resolved_lookup srv id updateData m response :
  updateData !! "_id" = None ->
  mutation_reply srv (length (sent m)) (PutOverlay id updateData) = Resolve response ->
  exists m',
    updateOverlay srv id updateData m = (Returned tt, m') /\
    sent m' = sent m ++ [PutOverlay id updateData] /\
    ticks m <= ticks m' /\
    error (ui m') = error (ui m) /\
    (forall id', id' <> id ->
       getOverlay (overlays (ui m')) id' = getOverlay (overlays (ui m)) id') /\
    match getOverlay (overlays (ui m)) id with
    | None => getOverlay (overlays (ui m')) id = None
    | Some o =>
        exists t, ticks m <= t < ticks m' /\
          getOverlay (overlays (ui m')) id
            = Some (merged o updateData (toISOString srv t))
    end.
Proof.
  intros Hno_id Hreply.
  destruct (updateOverlay_resolved srv id updateData m response Hreply)
    as (l' & k & Hrun & Hlen & Hl').
  eexists. split; [exact Hrun|]. cbn [ui sent ticks overlays error].
  assert (Haligned : forall id' j o o', overlays (ui m) !! j = Some o ->
            l' !! j = Some o' -> has_id id' o' = has_id id' o).
  { intros id' j o o' Hj Hj'. specialize (Hl' j o Hj).
    destruct (has_id id o).
    - destruct Hl' as (t & _ & Hl't). rewrite Hj' in Hl't. injection Hl't as ->.
      now apply has_id_merged.
    - rewrite Hj' in Hl'. injection Hl' as ->. reflexivity. }
  refine (conj eq_refl (conj _ (conj eq_refl (conj _ _)))).
  - lia.
  - intros id' Hne. unfold getOverlay.
    pose proof (find_aligned (has_id id') _ l' Hlen (Haligned id')) as H.
    destruct (find (has_id id') (overlays (ui m))) as [o|]; [|exact H].
    destruct H as (j & Hj & Ho & Hfind). rewrite Hfind.
    specialize (Hl' j o Hj).
    destruct (has_id id o) eqn:E; [|exact Hl'].
    contradiction Hne. exact (has_id_unique o _ _ Ho E).
  - unfold getOverlay.
    pose proof (find_aligned (has_id id) _ l' Hlen (Haligned id)) as H.
    destruct (find (has_id id) (overlays (ui m))) as [o|]; [|exact H].
    destruct H as (j & Hj & Ho & Hfind). rewrite Hfind.
    specialize (Hl' j o Hj). rewrite Ho in Hl'. exact Hl'.
Qed.

(** X2.  Update then look up.  After [update(id, patch)] accepted by the
    remote store, with a patch that does not overwrite [_id], looking the id
    up finds the record found before merged with the patch and freshly
    stamped: each field of the patch has the patch's value, each other field
    its old value, and [updated_at] a reading of the clock taken during the
    call (or it finds still nothing, when the id was absent); and looking
    any other id up finds exactly what it found before. *)
Theorem updateOverlay_then_getOverlay
    (srv : remote) (id : string) (updateData : obj) (m : machine) (response : value) :
  updateData !! "_id" = None ->
  mutation_reply srv (length (sent m)) (PutOverlay id updateData) = Resolve response ->
  let m' := snd (updateOverlay srv id updateData m) in
  (forall id', id' <> id ->
     getOverlay (overlays (ui m')) id' = getOverlay (overlays (ui m)) id') /\
  match getOverlay (overlays (ui m)) id with
  | None => getOverlay (overlays (ui m')) id = None
  | Some o =>
      exists t, ticks m <= t < ticks m' /\
        getOverlay (overlays (ui m')) id
          = Some (merged o updateData (toISOString srv t)) /\
        exists updated,
          getOverlay (overlays (ui m')) id = Some updated /\
          updated !! "updated_at" = Some (VStr (toISOString srv t)) /\
          forall k, k <> "updated_at" ->
            updated !! k = match updateData !! k with
                           | Some v => Some v
                           | None => o !! k
                           end
  end.
Proof.
  intros Hno_id Hreply m'. subst m'.
  destruct (updateOverlay_resolved_lookup srv id updateData m response Hno_id Hreply)
    as (m' & Hrun & _ & _ & _ & Hother & Hsame).
  rewrite Hrun. cbn [snd]. split; [exact Hother|].
  destruct (getOverlay (overlays (ui m)) id) as [o|]; [|exact Hsame].
  destruct Hsame as (t & Ht & Hfound).
  exists t. split; [exact Ht|]. split; [exact Hfound|].
  eexists. split; [exact Hfound|]. split.
  - rewrite merged_lookup. reflexivity.
  - intros k Hk. rewrite merged_lookup.
    destruct (String.eqb_spec k "updated_at"); [contradiction|reflexivity].
Qed.

(** Moving [A]: the lookup of [B] is unaffected. *)
Lemma updateOverlay_then_getOverlay_witness :
  getOverlay
    (overlays (ui (snd (updateOverlay (Examples.accepting []) "A"
                          (Examples.move_to 50 60)
                          (Examples.started Examples.two_overlays))))) "B"
  = Some (Examples.overlay "B" 300 40 true).
Proof.
  exact (proj1 (updateOverlay_then_getOverlay (Examples.accepting []) "A"
                  (Examples.move_to 50 60) (Examples.started Examples.two_overlays)
                  VNull eq_refl eq_refl)
               "B" ltac:(discriminate)).
Defined.

(** The callback of the current render is the one that captured the
    current collection. *)
Lemma toggleOverlayVisibility_current srv id m :
  toggleOverlayVisibility srv id m
  = toggleOverlayVisibility_of srv (overlays (ui m)) id m.
Proof. reflexivity. Qed.

Lemma toggleOverlayVisibility_of_found srv captured id m overlay :
  getOverlay captured id = Some overlay ->
  toggleOverlayVisibility_of srv captured id m =
    updateOverlay srv id
      {[ "visible" := VBool (negb (truthy (prop overlay "visible"))) ]} m.
Proof.
  intros H. unfold toggleOverlayVisibility_of.
  unfold getOverlay in H. rewrite H. apply try_catch_rethrow.
Qed.

(** X3.  Toggling twice.  Take a record whose [visible] is a boolean [b]
    and toggle it twice, the remote store accepting both updates.  When the
    second call is made on the callback of the re-render that follows the
    first call, which has captured the collection the first call left, the
    two calls send the opposite updates [{visible: !b}] and [{visible: b}]
    and leave a record that agrees with the original on every field except
    [updated_at].  When the same callback is called twice, it still holds
    the collection of its own render: both calls send [{visible: !b}], and
    the record is left with [visible = !b]. *)
Theorem toggleOverlayVisibility_twice
    (srv : remote) (id : string) (m : machine) (o : obj) (b : bool)
    (response1 : value) :
  getOverlay (overlays (ui m)) id = Some o ->
  o !! "visible" = Some (VBool b) ->
  let flip := PutOverlay id {[ "visible" := VBool (negb b) ]} in
  let back := PutOverlay id {[ "visible" := VBool b ]} in
  mutation_reply srv (length (sent m)) flip = Resolve response1 ->
  let captured := overlays (ui m) in
  let m1 := snd (toggleOverlayVisibility_of srv captured id m) in
  (forall response2,
     mutation_reply srv (S (length (sent m))) back = Resolve response2 ->
     let m2 := snd (toggleOverlayVisibility_of srv (overlays (ui m1)) id m1) in
     sent m2 = sent m ++ [flip; back] /\
     exists o2,
       getOverlay (overlays (ui m2)) id = Some o2 /\
       forall k, k <> "updated_at" -> o2 !! k = o !! k) /\
  (forall response2,
     mutation_reply srv (S (length (sent m))) flip = Resolve response2 ->
     let m2 := snd (toggleOverlayVisibility_of srv captured id m1) in
     sent m2 = sent m ++ [flip; flip] /\
     exists o2,
       getOverlay (overlays (ui m2)) id = Some o2 /\
       o2 !! "visible" = Some (VBool (negb b)) /\
       forall k, k <> "updated_at" -> k <> "visible" -> o2 !! k = o !! k).
Proof.
  intros Hget Hvis flip back Hreply1 captured m1. subst flip back captured m1.
  assert (Hno_id : forall c : bool, ({[ "visible" := VBool c ]} : obj) !! "_id" = None).
  { intros c. apply lookup_singleton_ne. discriminate. }
  assert (E1 : forall m0, toggleOverlayVisibility_of srv (overlays (ui m)) id m0 =
               updateOverlay srv id {[ "visible" := VBool (negb b) ]} m0).
  { intros m0. rewrite (toggleOverlayVisibility_of_found srv _ id m0 o Hget).
    unfold prop. rewrite Hvis. reflexivity. }
  rewrite E1.
  destruct (updateOverlay_resolved_lookup srv id _ m response1 (Hno_id _) Hreply1)
    as (m1 & Hrun1 & Hsent1 & _ & _ & _ & Hget1).
  rewrite Hrun1. cbn [snd]. rewrite Hget in Hget1.
  destruct Hget1 as (t1 & _ & Hget1).
  assert (Hlen1 : length (sent m1) = S (length (sent m))).
  { rewrite Hsent1, length_app. simpl. lia. }
  split.
  - intros response2 Hreply2. cbv zeta.
    assert (E2 : toggleOverlayVisibility_of srv (overlays (ui m1)) id m1 =
                 updateOverlay srv id {[ "visible" := VBool b ]} m1).
    { rewrite (toggleOverlayVisibility_of_found srv _ id m1 _ Hget1).
      unfold prop. rewrite merged_visible. simpl.
      rewrite Bool.negb_involutive. reflexivity. }
    rewrite E2. rewrite <- Hlen1 in Hreply2.
    destruct (updateOverlay_resolved_lookup srv id _ m1 response2 (Hno_id _) Hreply2)
      as (m2 & Hrun2 & Hsent2 & _ & _ & _ & Hget2).
    rewrite Hrun2. cbn [snd]. rewrite Hget1 in Hget2.
    destruct Hget2 as (t2 & _ & Hget2).
    split.
    + rewrite Hsent2, Hsent1, <- app_assoc. reflexivity.
    + eexists. split; [exact Hget2|].
      intros k Hk. rewrite !merged_visible.
      destruct (String.eqb_spec k "updated_at"); [contradiction|].
      destruct (String.eqb_spec k "visible") as [->|]; [now rewrite Hvis|reflexivity].
  - intros response2 Hreply2. cbv zeta.
    rewrite E1. rewrite <- Hlen1 in Hreply2.
    destruct (updateOverlay_resolved_lookup srv id _ m1 response2 (Hno_id _) Hreply2)
      as (m2 & Hrun2 & Hsent2 & _ & _ & _ & Hget2).
    rewrite Hrun2. cbn [snd]. rewrite Hget1 in Hget2.
    destruct Hget2 as (t2 & _ & Hget2).
    split.
    + rewrite Hsent2, Hsent1, <- app_assoc. reflexivity.
    + eexists. split; [exact Hget2|]. split.
      * rewrite merged_visible. reflexivity.
      * intros k Hk Hk'. rewrite !merged_visible.
        destruct (String.eqb_spec k "updated_at"); [contradiction|].
        destruct (String.eqb_spec k "visible"); [contradiction|reflexivity].
Qed.

(** Hiding [A] twice from the same callback: it stays hidden. *)
Lemma toggleOverlayVisibility_twice_witness :
  exists o2,
    getOverlay
      (overlays (ui (snd (toggleOverlayVisibility_of (Examples.accepting [])
                            Examples.two_overlays "A"
                       (snd (toggleOverlayVisibility_of (Examples.accepting [])
                               Examples.two_overlays "A"
                               (Examples.started Examples.two_overlays))))))) "A"
    = Some o2 /\
    o2 !! "visible" = Some (VBool false).
Proof.
  destruct (proj2 (toggleOverlayVisibility_twice (Examples.accepting []) "A"
                     (Examples.started Examples.two_overlays)
                     (Examples.overlay "A" 10 10 true) true VNull
                     eq_refl eq_refl eq_refl)
                  VNull eq_refl)
    as (_ & o2 & Hget & Hhidden & _).
  exists o2. split; [exact Hget|exact Hhidden].
Defined.

(** Hiding [A] and, after the re-render, showing it again. *)
Example toggle_after_rerender :
  let m1 := snd (toggleOverlayVisibility (Examples.accepting []) "A"
                   (Examples.started Examples.two_overlays)) in
  let m2 := snd (toggleOverlayVisibility (Examples.accepting []) "A" m1) in
  sent m2 = [ PutOverlay "A" {[ "visible" := VBool false ]};
              PutOverlay "A" {[ "visible" := VBool true ]} ]
  /\ (getOverlay (overlays (ui m2)) "A" ≫= (.!! "visible")) = Some (VBool true).
Proof. vm_compute. split; reflexivity. Qed.

(** ** The statistics of the hook *)

Lemma has_type_exclusive o :
  has_type "text" o = true -> has_type "logo" o = true -> False.
Proof.
  unfold has_type. destruct (o !! "type") as [[| | | |s|]|]; try discriminate.
  intros H1 H2. apply String.eqb_eq in H1, H2. subst. discriminate.
Qed.

(** X4.  The counters of [stats]: the visible ones and the typed ones never
    exceed the total; an overlay is never counted both as text and as logo;
    text and logo add up to the total exactly when every overlay has one of
    the two types; and the overlays not counted as visible are those whose
    [visible] is [false] (an absent flag counts as visible). *)
Theorem stats_counts (overlays : list obj) :
  let s := stats overlays in
  visible s <= total s /\
  text s + logo s <= total s /\
  (text s + logo s = total s <->
   forall o, In o overlays -> has_type "text" o || has_type "logo" o = true) /\
  visible s + length (List.filter (fun o => is_false (prop o "visible")) overlays)
    = total s /\
  visible s = length (getVisibleOverlays overlays) /\
  text s = length (getOverlaysByType overlays "text") /\
  logo s = length (getOverlaysByType overlays "logo").
Proof.
  cbv zeta. unfold stats; cbn [total visible text logo].
  assert (Hle : forall (p : obj -> bool) l, length (List.filter p l) <= length l).
  { intros p l. induction l as [|a l IH]; simpl; [lia|].
    destruct (p a); simpl; lia. }
  assert (Hsum : length (List.filter (has_type "text") overlays)
                 + length (List.filter (has_type "logo") overlays)
                 <= length overlays /\
                 (length (List.filter (has_type "text") overlays)
                  + length (List.filter (has_type "logo") overlays)
                  = length overlays <->
                  forall o, In o overlays ->
                    has_type "text" o || has_type "logo" o = true)).
  { induction overlays as [|a l [IHle IHeq]].
    - simpl. split; [lia|]. split; [intros _ o []|reflexivity].
    - cbn [List.filter length].
      pose proof (has_type_exclusive a) as Hex.
      pose proof (Hle (has_type "text") l) as Ht.
      pose proof (Hle (has_type "logo") l) as Hl.
      destruct (has_type "text" a) eqn:E1, (has_type "logo" a) eqn:E2;
        cbn [length]; try (exfalso; now apply Hex).
      + split; [lia|]. split.
        * intros H o [<-|Hin]; [rewrite E1; reflexivity|].
          apply IHeq; [lia|exact Hin].
        * intros H. assert (Hrest : forall o, In o l ->
                    has_type "text" o || has_type "logo" o = true)
            by (intros o Hin; apply H; now right).
          apply IHeq in Hrest. lia.
      + split; [lia|]. split.
        * intros H o [<-|Hin]; [rewrite E1, E2; reflexivity|].
          apply IHeq; [lia|exact Hin].
        * intros H. assert (Hrest : forall o, In o l ->
                    has_type "text" o || has_type "logo" o = true)
            by (intros o Hin; apply H; now right).
          apply IHeq in Hrest. lia.
      + split; [lia|]. split.
        * intros H. exfalso. lia.
        * intros H. specialize (H a (or_introl eq_refl)).
          rewrite E1, E2 in H. discriminate. }
  destruct Hsum as [Hsum1 Hsum2].
  assert (Hvis : length (List.filter shown overlays)
                 + length (List.filter (fun o => is_false (prop o "visible")) overlays)
                 = length overlays).
  { clear. induction overlays as [|a l IH]; [reflexivity|].
    cbn [List.filter length]. unfold shown at 1.
    destruct (is_false (prop a "visible")); cbn [negb length]; lia. }
  exact (conj (Hle _ _) (conj Hsum1 (conj Hsum2 (conj Hvis
           (conj eq_refl (conj eq_refl eq_refl)))))).
Qed.

(** ** Refreshing *)

Lemma refreshOverlays_run srv m :
  refreshOverlays srv m = (Returned tt, after_fetch srv m).
Proof. unfold refreshOverlays, bind. rewrite fetchOverlays_run. reflexivity. Qed.

(** X5.  A refresh that the remote store answers replaces the whole hook
    state by the fetched collection with [loading] and [error] cleared,
    whatever the state was before (an error left by an earlier failure is
    gone); so refreshing twice, with the same answer, gives the same state as
    refreshing once. *)
Theorem refreshOverlays_idempotent
    (srv : remote) (m : machine) (data : list obj) :
  overlays_reply srv (length (sent m)) = Resolve data ->
  overlays_reply srv (S (length (sent m))) = Resolve data ->
  let once := snd (refreshOverlays srv m) in
  let twice := snd (refreshOverlays srv once) in
  ui once = {| overlays := data; loading := false; error := VNull |} /\
  ui twice = ui once /\
  sent twice = sent m ++ [GetOverlays; GetOverlays].
Proof.
  intros H1 H2 once twice. subst once twice.
  assert (Hfetch : forall m0, overlays_reply srv (length (sent m0)) = Resolve data ->
            after_fetch srv m0 =
              {| ui := {| overlays := data; loading := false; error := VNull |};
                 sent := sent m0 ++ [GetOverlays]; ticks := ticks m0 |}).
  { intros m0 H0. unfold after_fetch. rewrite H0. reflexivity. }
  rewrite (refreshOverlays_run srv m), (Hfetch m H1). cbn [snd].
  rewrite refreshOverlays_run, Hfetch.
  - cbn [snd ui sent]. rewrite <- app_assoc. repeat split.
  - cbn [sent]. rewrite length_app, Nat.add_1_r. exact H2.
Qed.

(** The mount of the hook followed by a refresh, the backend serving two
    overlays. *)
Lemma refreshOverlays_idempotent_witness :
  ui (snd (refreshOverlays (Examples.accepting Examples.two_overlays)
             (snd (refreshOverlays (Examples.accepting Examples.two_overlays)
                     {| ui := initial; sent := []; ticks := 0 |}))))
  = {| overlays := Examples.two_overlays; loading := false; error := VNull |}.
Proof.
  destruct (refreshOverlays_idempotent (Examples.accepting Examples.two_overlays)
              {| ui := initial; sent := []; ticks := 0 |} Examples.two_overlays
              eq_refl eq_refl) as (Honce & Htwice & _).
  rewrite Htwice. exact Honce.
Defined.

(** ** What validateOverlay reports and accepts *)

(** The mapping, field by field. *)
Lemma validateOverlay_errors_by_field
    (StringToNumber : string -> number) (draft : obj) :
  let type := prop draft "type" in
  let position := prop draft "position" in
  let size := prop draft "size" in
  let e := errors (validateOverlay StringToNumber draft) in
  e !! "type" =
    (if negb (truthy type) || negb (is_text_or_logo type)
     then Some (VStr type_message) else None) /\
  e !! "content" =
    (if negb (truthy (prop draft "content"))
     then Some (VStr "Content is required") else None) /\
  e !! "position" =
    (if truthy position
        && (lt_num StringToNumber (opt_member position "x") 0
            || lt_num StringToNumber (opt_member position "y") 0)
     then Some (VStr "Position coordinates must be non-negative")
     else if negb (truthy position)
             || negb (is_number (opt_member position "x"))
             || negb (is_number (opt_member position "y"))
     then Some (VStr "Valid position coordinates are required")
     else None) /\
  e !! "size" =
    (if truthy size
        && (gt_num StringToNumber (opt_member size "width") 1920
            || gt_num StringToNumber (opt_member size "height") 1080)
     then Some (VStr "Size dimensions are too large")
     else if truthy size
             && (le_num StringToNumber (opt_member size "width") 0
                 || le_num StringToNumber (opt_member size "height") 0)
     then Some (VStr "Size dimensions must be positive")
     else if negb (truthy size)
             || negb (is_number (opt_member size "width"))
             || negb (is_number (opt_member size "height"))
     then Some (VStr "Valid size dimensions are required")
     else None) /\
  (forall k, k <> "type" -> k <> "content" -> k <> "position" -> k <> "size" ->
     e !! k = None).
Proof.
  cbv zeta. unfold validateOverlay. cbn [errors].
  generalize (negb (truthy (prop draft "type"))
              || negb (is_text_or_logo (prop draft "type"))).
  generalize (negb (truthy (prop draft "content"))).
  generalize (negb (truthy (prop draft "position"))
              || negb (is_number (opt_member (prop draft "position") "x"))
              || negb (is_number (opt_member (prop draft "position") "y"))).
  generalize (negb (truthy (prop draft "size"))
              || negb (is_number (opt_member (prop draft "size") "width"))
              || negb (is_number (opt_member (prop draft "size") "height"))).
  generalize (lt_num StringToNumber (opt_member (prop draft "position") "x") 0
              || lt_num StringToNumber (opt_member (prop draft "position") "y") 0).
  generalize (le_num StringToNumber (opt_member (prop draft "size") "width") 0
              || le_num StringToNumber (opt_member (prop draft "size") "height") 0).
  generalize (gt_num StringToNumber (opt_member (prop draft "size") "width") 1920
              || gt_num StringToNumber (opt_member (prop draft "size") "height") 1080).
  generalize (truthy (prop draft "position")).
  generalize (truthy (prop draft "size")).
  intros ts tp c7 c6 c5 c4 c3 c2 c1.
  destruct ts, tp, c7, c6, c5, c4, c3, c2, c1; cbn [andb orb negb];
    (split; [reflexivity|]); (split; [reflexivity|]);
    (split; [reflexivity|]); (split; [reflexivity|]);
    intros k H1 H2 H3 H4;
    repeat (rewrite lookup_insert_ne by congruence);
    apply lookup_empty.
Qed.

(** X6.  The mapping [validateOverlay] returns, field by field.  It never
    has a key besides [type], [content], [position] and [size]; a field has
    at most one message, and where several tests fail the later one wins:
    for [position], a negative coordinate over a missing or non-numeric
    one; for [size], too large over not positive over missing or
    non-numeric. *)
Theorem validateOverlay_messages
    (StringToNumber : string -> number) (draft : obj) :
  let type := prop draft "type" in
  let position := prop draft "position" in
  let size := prop draft "size" in
  let e := errors (validateOverlay StringToNumber draft) in
  e !! "type" =
    (if negb (truthy type) || negb (is_text_or_logo type)
     then Some (VStr type_message) else None) /\
  e !! "content" =
    (if negb (truthy (prop draft "content"))
     then Some (VStr "Content is required") else None) /\
  e !! "position" =
    (if truthy position
        && (lt_num StringToNumber (opt_member position "x") 0
            || lt_num StringToNumber (opt_member position "y") 0)
     then Some (VStr "Position coordinates must be non-negative")
     else if negb (truthy position)
             || negb (is_number (opt_member position "x"))
             || negb (is_number (opt_member position "y"))
     then Some (VStr "Valid position coordinates are required")
     else None) /\
  e !! "size" =
    (if truthy size
        && (gt_num StringToNumber (opt_member size "width") 1920
            || gt_num StringToNumber (opt_member size "height") 1080)
     then Some (VStr "Size dimensions are too large")
     else if truthy size
             && (le_num StringToNumber (opt_member size "width") 0
                 || le_num StringToNumber (opt_member size "height") 0)
     then Some (VStr "Size dimensions must be positive")
     else if negb (truthy size)
             || negb (is_number (opt_member size "width"))
             || negb (is_number (opt_member size "height"))
     then Some (VStr "Valid size dimensions are required")
     else None) /\
  (forall k, k <> "type" -> k <> "content" -> k <> "position" -> k <> "size" ->
     e !! k = None).
Proof. exact (validateOverlay_errors_by_field StringToNumber draft). Qed.

Lemma position_accepted_iff StringToNumber (v : value) :
  position_accepted v = true <->
  truthy v = true /\
  is_number (opt_member v "x") = true /\
  is_number (opt_member v "y") = true /\
  lt_num StringToNumber (opt_member v "x") 0
  || lt_num StringToNumber (opt_member v "y") 0 = false.
Proof.
  destruct v as [| |b|n|s|p]; unfold opt_member, member, prop; simpl;
    try (split; [discriminate|intros (_ & H & _); discriminate]).
  destruct (p !! "x") as [[| |bx|nx|sx|ox]|]; simpl;
    try (split; [discriminate|intros (_ & H & _); discriminate]).
  destruct (p !! "y") as [[| |by'|ny|sy|oy]|]; simpl;
    try (split; [discriminate|intros (_ & _ & H & _); discriminate]).
  unfold lt_num, ToNumber.
  destruct (lt nx (Fin 0)), (lt ny (Fin 0)); cbn [negb andb orb];
    intuition discriminate.
Qed.

Lemma size_accepted_iff StringToNumber (v : value) :
  size_accepted v = true <->
  truthy v = true /\
  is_number (opt_member v "width") = true /\
  is_number (opt_member v "height") = true /\
  le_num StringToNumber (opt_member v "width") 0
  || le_num StringToNumber (opt_member v "height") 0 = false /\
  gt_num StringToNumber (opt_member v "width") 1920
  || gt_num StringToNumber (opt_member v "height") 1080 = false.
Proof.
  destruct v as [| |b|n|s|p]; unfold opt_member, member, prop; cbn [default is_number truthy size_accepted];
    try (split; [discriminate|intros (_ & H & _); discriminate]).
  destruct (p !! "width") as [[| |bx|nx|sx|ox]|]; cbn [default is_number truthy size_accepted];
    try (split; [discriminate|intros (_ & H & _); discriminate]).
  destruct (p !! "height") as [[| |by'|ny|sy|oy]|]; cbn [default is_number truthy size_accepted];
    try (split; [discriminate|intros (_ & _ & H & _); discriminate]).
  unfold le_num, gt_num, ToNumber, id. cbn [is_number].
  destruct (le nx (Fin 0)), (le ny (Fin 0)), (lt (Fin 1920) nx), (lt (Fin 1080) ny);
    cbn [negb andb orb]; intuition discriminate.
Qed.

Lemma validateOverlay_valid_iff_empty StringToNumber (draft : obj) :
  isValid (validateOverlay StringToNumber draft) = true <->
  errors (validateOverlay StringToNumber draft) = ∅.
Proof.
  unfold validateOverlay at 1. cbn [isValid]. rewrite Nat.eqb_eq.
  fold (errors (validateOverlay StringToNumber draft)).
  apply map_size_empty_iff.
Qed.

Lemma validateOverlay_valid_iff StringToNumber (draft : obj) :
  isValid (validateOverlay StringToNumber draft) = true <->
  is_text_or_logo (prop draft "type") = true /\
  truthy (prop draft "content") = true /\
  position_accepted (prop draft "position") = true /\
  size_accepted (prop draft "size") = true.
Proof.
  rewrite validateOverlay_valid_iff_empty.
  rewrite (position_accepted_iff StringToNumber), (size_accepted_iff StringToNumber).
  destruct (validateOverlay_errors_by_field StringToNumber draft)
    as (Ht & Hc & Hp & Hs & Hk).
  cbv zeta in Ht, Hc, Hp, Hs, Hk.
  assert (Htl : is_text_or_logo (prop draft "type") = true ->
                truthy (prop draft "type") = true).
  { destruct (prop draft "type") as [| | | |s|]; try discriminate.
    simpl. intros H. apply orb_true_iff in H.
    destruct H as [H|H]; apply String.eqb_eq in H; subst; reflexivity. }
  split.
  - intros Hempty. rewrite Hempty, lookup_empty in Ht, Hc, Hp, Hs.
    destruct (truthy (prop draft "type")), (is_text_or_logo (prop draft "type"));
      try discriminate.
    destruct (truthy (prop draft "content")); try discriminate.
    destruct (truthy (prop draft "position")); try discriminate.
    destruct (truthy (prop draft "size")); try discriminate.
    cbn [andb orb negb] in Hp, Hs.
    destruct (lt_num _ _ 0 || lt_num _ _ 0); try discriminate.
    destruct (gt_num _ _ 1920 || gt_num _ _ 1080); try discriminate.
    destruct (le_num _ _ 0 || le_num _ _ 0); try discriminate.
    destruct (is_number (opt_member (prop draft "position") "x")); try discriminate.
    destruct (is_number (opt_member (prop draft "position") "y")); try discriminate.
    destruct (is_number (opt_member (prop draft "size") "width")); try discriminate.
    destruct (is_number (opt_member (prop draft "size") "height")); try discriminate.
    repeat split.
  - intros (Htype & Hcontent & (Hp1 & Hp2 & Hp3 & Hp4) & (Hs1 & Hs2 & Hs3 & Hs4 & Hs5)).
    rewrite (Htl Htype), Htype in Ht. rewrite Hcontent in Hc.
    rewrite Hp1, Hp2, Hp3, Hp4 in Hp. rewrite Hs1, Hs2, Hs3, Hs4, Hs5 in Hs.
    cbn [andb orb negb] in Ht, Hc, Hp, Hs.
    apply map_eq. intros k. rewrite lookup_empty.
    destruct (String.eqb_spec k "type") as [->|H1]; [exact Ht|].
    destruct (String.eqb_spec k "content") as [->|H2]; [exact Hc|].
    destruct (String.eqb_spec k "position") as [->|H3]; [exact Hp|].
    destruct (String.eqb_spec k "size") as [->|H4]; [exact Hs|].
    exact (Hk k H1 H2 H3 H4).
Qed.

(** X7.  [validateOverlay] answers valid exactly for the drafts whose type
    is ['text'] or ['logo'], whose content is not empty, whose position is
    an object with numbers [x] and [y] neither of which is below 0, and whose
    size is an object with numbers [width] and [height] neither of which is
    at most 0 or above 1920 and 1080; a [NaN] among these numbers fails none
    of the comparisons and is let through. *)
Theorem validateOverlay_accepts_exactly
    (StringToNumber : string -> number) (draft : obj) :
  isValid (validateOverlay StringToNumber draft) = true <->
  is_text_or_logo (prop draft "type") = true /\
  truthy (prop draft "content") = true /\
  position_accepted (prop draft "position") = true /\
  size_accepted (prop draft "size") = true.
Proof. exact (validateOverlay_valid_iff StringToNumber draft). Qed.

Lemma accepted_of_ok (v : value) :
  (position_ok v = true -> position_accepted v = true) /\
  (size_ok v = true -> size_accepted v = true) /\
  (position_accepted v = true -> finite_fields v "x" "y" = true ->
   position_ok v = true) /\
  (size_accepted v = true -> finite_fields v "width" "height" = true ->
   size_ok v = true).
Proof.
  destruct v as [| |b|n|s|p]; simpl; try (repeat split; discriminate).
  repeat split.
  - destruct (p !! "x") as [[| | |[|px]| |]|]; try discriminate.
    destruct (p !! "y") as [[| | |[|py]| |]|]; try discriminate.
    unfold lt. rewrite !Bool.negb_involutive. trivial.
  - destruct (p !! "width") as [[| | |[|w]| |]|]; try discriminate.
    destruct (p !! "height") as [[| | |[|h]| |]|]; try discriminate.
    unfold lt, le, Qlt_bool. rewrite !Bool.negb_involutive.
    rewrite !andb_true_iff. tauto.
  - destruct (p !! "x") as [[| | |[|px]| |]|]; try discriminate.
    destruct (p !! "y") as [[| | |[|py]| |]|]; try discriminate.
    unfold lt. rewrite !Bool.negb_involutive. trivial.
  - destruct (p !! "width") as [[| | |[|w]| |]|]; try discriminate.
    destruct (p !! "height") as [[| | |[|h]| |]|]; try discriminate.
    unfold lt, le, Qlt_bool. rewrite !Bool.negb_involutive.
    rewrite !andb_true_iff. tauto.
Qed.

(** X8.  The validator against the bounds of the data model.  A draft with
    a valid type, some content and size and position within the bounds is
    answered valid with an empty mapping.  Conversely a draft answered valid
    is within the bounds as soon as its four numbers are finite. *)
Theorem validateOverlay_and_bounds
    (StringToNumber : string -> number) (draft : obj) :
  (is_text_or_logo (prop draft "type") = true ->
   truthy (prop draft "content") = true ->
   bounds_ok draft = true ->
   validateOverlay StringToNumber draft = {| isValid := true; errors := ∅ |}) /\
  (isValid (validateOverlay StringToNumber draft) = true ->
   finite_fields (prop draft "position") "x" "y" = true ->
   finite_fields (prop draft "size") "width" "height" = true ->
   bounds_ok draft = true).
Proof.
  split.
  - intros Htype Hcontent Hb. unfold bounds_ok in Hb.
    apply andb_true_iff in Hb. destruct Hb as [Hs Hp].
    assert (Hvalid : isValid (validateOverlay StringToNumber draft) = true).
    { apply validateOverlay_valid_iff. repeat split; try assumption.
      - now apply (accepted_of_ok (prop draft "position")).
      - now apply (accepted_of_ok (prop draft "size")). }
    pose proof (proj1 (validateOverlay_valid_iff_empty _ _) Hvalid) as Hempty.
    destruct (validateOverlay StringToNumber draft) as [v e].
    cbn [isValid errors] in *. now subst.
  - intros Hvalid Hfp Hfs. apply validateOverlay_valid_iff in Hvalid.
    destruct Hvalid as (_ & _ & Hp & Hs). unfold bounds_ok.
    apply andb_true_iff. split.
    + now apply (accepted_of_ok (prop draft "size")).
    + now apply (accepted_of_ok (prop draft "position")).
Qed.

(** The theorem at a text overlay of the examples. *)
Lemma validateOverlay_and_bounds_witness :
  validateOverlay Examples.no_numeric_strings (Examples.overlay "A" 10 10 true)
  = {| isValid := true; errors := ∅ |}.
Proof.
  exact (proj1 (validateOverlay_and_bounds Examples.no_numeric_strings
                  (Examples.overlay "A" 10 10 true))
               eq_refl eq_refl eq_refl).
Defined.

(** A width that is [NaN] passes the validator. *)
Example validateOverlay_lets_NaN_through :
  isValid (validateOverlay Examples.no_numeric_strings
             (<["size" := VObj (<["height" := num 50]> {[ "width" := VNum NaN ]})]>
                (Examples.overlay "A" 10 10 true))) = true.
Proof. vm_compute. reflexivity. Qed.

(** ** The drag gesture *)

Lemma Qround_comp (a b : Q) : (a == b)%Q -> Qround a = Qround b.
Proof. intros H. unfold Qround. now rewrite H. Qed.

Lemma Qround_nonneg (c : Q) : (0 <= c)%Q -> (0 <= Qround c)%Z.
Proof.
  intros H. unfold Qround.
  change 0%Z with (Qfloor (1 # 2)). apply Qfloor_resp_le. lra.
Qed.

Lemma Qround_inject_Z (z : Z) : Qround (inject_Z z) = z.
Proof.
  pose proof (Qround_rounded (inject_Z z)) as [Hlo Hhi].
  set (r := Qround (inject_Z z)) in *.
  assert (H1 : (inject_Z r < inject_Z (z + 1))%Q)
    by (rewrite inject_Z_plus; change (inject_Z 1) with 1%Q; lra).
  assert (H2 : (inject_Z z < inject_Z (r + 1))%Q)
    by (rewrite inject_Z_plus; change (inject_Z 1) with 1%Q; lra).
  rewrite <- Zlt_Qlt in H1, H2. lia.
Qed.

(** A move while the drag of an overlay with a numeric size is active. *)
Lemma handleMouseMove_active StringToNumber d videoRect overlays clientX clientY
    id (overlay size : obj) (w h : Q) :
  VideoPlayer.draggedOverlay d = Some id ->
  id <> "" ->
  VideoPlayer.isDragging d = true ->
  find (has_id id) overlays = Some overlay ->
  overlay !! "size" = Some (VObj size) ->
  size !! "width" = Some (VNum (Fin w)) ->
  size !! "height" = Some (VNum (Fin h)) ->
  VideoPlayer.handleMouseMove StringToNumber d (Some videoRect) overlays true
    clientX clientY
  = VideoPlayer.Update id
      (VideoPlayer.position_patch
         (Fin (inject_Z (Qround (Qmax 0 (Qmin
            (Double.minus (Double.minus clientX (VideoPlayer.left videoRect))
                          (VideoPlayer.x (VideoPlayer.dragOffset d)))
            (Double.minus (VideoPlayer.width videoRect) w))))))
         (Fin (inject_Z (Qround (Qmax 0 (Qmin
            (Double.minus (Double.minus clientY (VideoPlayer.top videoRect))
                          (VideoPlayer.y (VideoPlayer.dragOffset d)))
            (Double.minus (VideoPlayer.height videoRect) h))))))).
Proof.
  intros Hd Hid Hdrag Hfind Hsize Hw Hh.
  unfold VideoPlayer.handleMouseMove. rewrite Hd, Hdrag.
  destruct (String.eqb_spec id ""); [contradiction|]. simpl.
  rewrite Hfind. unfold prop. rewrite Hsize. simpl. unfold prop.
  rewrite Hw, Hh. reflexivity.
Qed.

Lemma dragged_id_has_id overlay id :
  overlay !! "_id" = Some (VStr id) -> VideoPlayer.dragged_id overlay = Some id.
Proof. intros H. unfold VideoPlayer.dragged_id. now rewrite H. Qed.

(** The difference of two coordinates of a grid is exact, and so is the
    difference of such a difference and a third one. *)
Lemma minus_on_grid (g : Z) (a b : Q) :
  (Double.emin <= g)%Z -> on_grid g a -> on_grid g b ->
  (Double.minus a b == a - b)%Q.
Proof.
  intros Hg (za & Hza & Ha) (zb & Hzb & Hb).
  apply round_representable. exists (za - zb)%Z, g.
  split; [lia|]. split; [exact Hg|].
  unfold Z.sub. rewrite inject_Z_plus, inject_Z_opp, Ha, Hb. ring.
Qed.

Lemma minus_minus_on_grid (g : Z) (a b c e : Q) :
  (Double.emin <= g)%Z -> on_grid g a -> on_grid g b -> on_grid g c -> on_grid g e ->
  (Double.minus (Double.minus a b) (Double.minus c e) == a - b - (c - e))%Q.
Proof.
  intros Hg (za & Hza & Ha) (zb & Hzb & Hb) (zc & Hzc & Hc) (ze & Hze & He).
  assert (Hab : (Double.minus a b == a - b)%Q)
    by (apply (minus_on_grid g); [exact Hg|exists za|exists zb]; split; assumption).
  assert (Hce : (Double.minus c e == c - e)%Q)
    by (apply (minus_on_grid g); [exact Hg|exists zc|exists ze]; split; assumption).
  unfold Double.minus at 1.
  rewrite round_representable; [rewrite Hab, Hce; reflexivity|].
  exists (za - zb - (zc - ze))%Z, g.
  split; [lia|]. split; [exact Hg|].
  rewrite Hab, Hce. unfold Z.sub.
  rewrite !inject_Z_plus, !inject_Z_opp, !inject_Z_plus, !inject_Z_opp, Ha, Hb, Hc, He.
  ring.
Qed.

(** X9.  Grab and move.  Take pointer and box coordinates on a common
    binary grid (whole pixels, or halves, quarters, ... of a pixel).
    Pressing on an overlay whose box sits at [(px, py)] inside the container
    and then moving the pointer by [(dx, dy)] asks for the position
    [(px + dx, py + dy)], rounded, as long as that position is within the
    range of the clamp: the overlay follows the pointer from where it was,
    wherever inside the box it was grabbed.  Off such a grid the subtractions
    round, and the position asked for can be a pixel away. *)
Theorem drag_follows_pointer
    (StringToNumber : string -> number) (d : VideoPlayer.drag)
    (videoRect rect : VideoPlayer.rect) (overlays : list obj)
    (id : string) (overlay size : obj) (g : Z)
    (w h px py clientX clientY dx dy : Q) :
  overlay !! "_id" = Some (VStr id) ->
  id <> "" ->
  find (has_id id) overlays = Some overlay ->
  overlay !! "size" = Some (VObj size) ->
  size !! "width" = Some (VNum (Fin w)) ->
  size !! "height" = Some (VNum (Fin h)) ->
  (Double.emin <= g)%Z ->
  Forall (on_grid g)
    [ clientX; (clientX + dx)%Q; VideoPlayer.left videoRect; VideoPlayer.left rect;
      clientY; (clientY + dy)%Q; VideoPlayer.top videoRect; VideoPlayer.top rect ] ->
  (VideoPlayer.left rect == VideoPlayer.left videoRect + px)%Q ->
  (VideoPlayer.top rect == VideoPlayer.top videoRect + py)%Q ->
  (0 <= px + dx <= Double.minus (VideoPlayer.width videoRect) w)%Q ->
  (0 <= py + dy <= Double.minus (VideoPlayer.height videoRect) h)%Q ->
  let pressed :=
    VideoPlayer.handleOverlayMouseDown d (Some videoRect) rect overlay
      clientX clientY in
  VideoPlayer.handleMouseMove StringToNumber pressed (Some videoRect) overlays true
    (clientX + dx) (clientY + dy)
  = VideoPlayer.Update id
      {[ "position" := VObj (<["y" := VNum (Math_round (Fin (py + dy)))]>
                               {[ "x" := VNum (Math_round (Fin (px + dx))) ]}) ]}.
Proof.
  intros Hid Hne Hfind Hsize Hw Hh Hg Hgrid Hleft Htop Hx Hy pressed. subst pressed.
  rewrite !Forall_cons in Hgrid.
  destruct Hgrid as (GcX & GcX' & Gvl & Grl & GcY & GcY' & Gvt & Grt & _).
  rewrite (handleMouseMove_active StringToNumber _ videoRect overlays _ _
             id overlay size w h); try assumption.
  - cbn [VideoPlayer.handleOverlayMouseDown VideoPlayer.dragOffset
         VideoPlayer.x VideoPlayer.y Math_round].
    unfold VideoPlayer.position_patch.
    pose proof (minus_minus_on_grid g _ _ _ _ Hg GcX' Gvl GcX Grl) as HnewX.
    pose proof (minus_minus_on_grid g _ _ _ _ Hg GcY' Gvt GcY Grt) as HnewY.
    f_equal. f_equal. f_equal. f_equal; [do 3 f_equal|do 4 f_equal]; apply Qround_comp.
    + destruct (max_min_clamped
                  (Double.minus (Double.minus (clientY + dy) (VideoPlayer.top videoRect))
                                (Double.minus clientY (VideoPlayer.top rect)))
                  (Double.minus (VideoPlayer.height videoRect) h))
        as (_ & _ & Hin & _).
      rewrite Hin; rewrite ?HnewY, ?Htop; lra.
    + destruct (max_min_clamped
                  (Double.minus (Double.minus (clientX + dx) (VideoPlayer.left videoRect))
                                (Double.minus clientX (VideoPlayer.left rect)))
                  (Double.minus (VideoPlayer.width videoRect) w))
        as (_ & _ & Hin & _).
      rewrite Hin; rewrite ?HnewX, ?Hleft; lra.
  - cbn [VideoPlayer.handleOverlayMouseDown VideoPlayer.draggedOverlay].
    now apply dragged_id_has_id.
  - reflexivity.
Qed.

(** [A] grabbed at (150, 50) in whole pixels and moved by (25, 5): the
    position asked for is (35, 15). *)
Lemma drag_follows_pointer_witness :
  VideoPlayer.handleMouseMove Examples.no_numeric_strings
    (VideoPlayer.handleOverlayMouseDown Examples.idle (Some Examples.container)
       Examples.box_of_A (Examples.overlay "A" 10 10 true) 150 50)
    (Some Examples.container) Examples.two_overlays true (150 + 25) (50 + 5)
  = VideoPlayer.Update "A"
      {[ "position" := VObj (<["y" := VNum (Math_round (Fin (10 + 5)))]>
                               {[ "x" := VNum (Math_round (Fin (10 + 25))) ]}) ]}.
Proof.
  apply (drag_follows_pointer Examples.no_numeric_strings Examples.idle
           Examples.container Examples.box_of_A Examples.two_overlays "A"
           (Examples.overlay "A" 10 10 true)
           (<["height" := num 50]> {[ "width" := num 200 ]}) 0
           200 50 10 10 150 50 25 5);
    try reflexivity; try discriminate.
  - repeat constructor;
      [exists 150%Z|exists 175%Z|exists 100%Z|exists 110%Z
      |exists 50%Z|exists 55%Z|exists 20%Z|exists 30%Z];
      (split; [reflexivity|vm_compute; reflexivity]).
  - vm_compute. split; discriminate.
  - vm_compute. split; discriminate.
Defined.

(** Off the grid.  The container's corner is at [0.1], the overlay sits in
    that corner, the pointer is pressed at [0.2] and moved to [0.7]: the
    move is by less than half a pixel, yet the position asked for is 1. *)
Example drag_off_grid :
  VideoPlayer.handleMouseMove Examples.no_numeric_strings
    (VideoPlayer.handleOverlayMouseDown Examples.idle (Some Examples.offset_container)
       Examples.corner_box (Examples.overlay "A" 0 0 true) Examples.fifth 0)
    (Some Examples.offset_container) [Examples.overlay "A" 0 0 true] true
    Examples.seven_tenths 0
  = VideoPlayer.Update "A" (Examples.move_to 1 0)
  /\ (Examples.seven_tenths - Examples.fifth < 1 # 2)%Q.
Proof. split; vm_compute; reflexivity. Qed.

Lemma Math_round_coordinate (newV : Q) (maxV : number) :
  drag_coordinate (Math_round (Math_max (Fin 0) (Math_min (Fin newV) maxV))).
Proof.
  destruct maxV as [|hi]; [left; reflexivity|].
  right. cbn [Math_min Math_max lift2 Math_round].
  exists (Qround (Qmax 0 (Qmin newV hi))). split; [|reflexivity].
  apply Qround_nonneg.
  destruct (max_min_clamped newV hi) as (Hneg & Hpos & _).
  destruct (Qlt_le_dec hi 0) as [H|H].
  - rewrite (Hneg H). lra.
  - apply (Hpos H).
Qed.

(** X10.  What a pointer-move can do.  Whatever the state and the overlay
    records, a move that calls the update path does so for the overlay being
    dragged, which is still in the collection, while the drag is on; the
    patch it passes is [{ position: { x, y } }] with no other field, and its
    coordinates are whole, non-negative numbers (or [NaN] when the record's
    size is not numeric).  After the pointer is released, or with no
    container, no move calls the update path at all. *)
Theorem handleMouseMove_only_moves_the_dragged
    (StringToNumber : string -> number) (d : VideoPlayer.drag)
    (videoRect : option VideoPlayer.rect) (overlays : list obj)
    (onOverlayUpdate : bool) (clientX clientY : Q) :
  (forall id updateData,
     VideoPlayer.handleMouseMove StringToNumber d videoRect overlays
       onOverlayUpdate clientX clientY = VideoPlayer.Update id updateData ->
     VideoPlayer.draggedOverlay d = Some id /\
     VideoPlayer.isDragging d = true /\
     (exists overlay, getOverlay overlays id = Some overlay) /\
     exists px py,
       updateData = VideoPlayer.position_patch px py /\
       updateData = {[ "position" := VObj (<["y" := VNum py]> {[ "x" := VNum px ]}) ]} /\
       drag_coordinate px /\ drag_coordinate py) /\
  VideoPlayer.handleMouseMove StringToNumber (VideoPlayer.handleMouseUp d) videoRect
    overlays onOverlayUpdate clientX clientY = VideoPlayer.Ignored /\
  VideoPlayer.handleMouseMove StringToNumber d None overlays onOverlayUpdate
    clientX clientY = VideoPlayer.Ignored.
Proof.
  split; [|split].
  - intros id updateData. unfold VideoPlayer.handleMouseMove, getOverlay.
    destruct (VideoPlayer.draggedOverlay d) as [id0|]; [|discriminate].
    destruct (String.eqb id0 ""); [discriminate|].
    destruct (VideoPlayer.isDragging d); [|discriminate]. cbn [negb orb].
    destruct videoRect as [R|]; [|discriminate].
    destruct (find (has_id id0) overlays) as [overlay|] eqn:Hfind; [|discriminate].
    destruct (member (prop overlay "size") "width") as [w|]; [|discriminate].
    destruct (member (prop overlay "size") "height") as [h|]; [|discriminate].
    destruct onOverlayUpdate; [|discriminate].
    intros H. injection H as <- <-.
    refine (conj eq_refl (conj eq_refl (conj (ex_intro _ overlay Hfind) _))).
    do 2 eexists. split; [reflexivity|]. split; [reflexivity|].
    split; apply Math_round_coordinate.
  - reflexivity.
  - unfold VideoPlayer.handleMouseMove.
    destruct (VideoPlayer.draggedOverlay d) as [id0|]; [|reflexivity].
    destruct (String.eqb id0 "" || negb (VideoPlayer.isDragging d)); reflexivity.
Qed.

Lemma position_patch_ok (zx zy : Z) :
  (0 <= zx)%Z -> (0 <= zy)%Z ->
  patch_ok (VideoPlayer.position_patch (Fin (inject_Z zx)) (Fin (inject_Z zy))) = true.
Proof.
  intros Hx Hy. unfold patch_ok, VideoPlayer.position_patch.
  rewrite lookup_singleton_ne by discriminate.
  rewrite lookup_singleton_eq. cbn [andb position_ok].
  rewrite lookup_insert_ne by discriminate. rewrite lookup_singleton_eq.
  rewrite lookup_insert_eq.
  apply andb_true_iff. split; apply Qle_bool_iff;
    change 0%Q with (inject_Z 0); rewrite <- Zle_Qle; assumption.
Qed.

Lemma clamped_round_nonneg (v hi : Q) : (0 <= Qround (Qmax 0 (Qmin v hi)))%Z.
Proof.
  apply Qround_nonneg.
  destruct (max_min_clamped v hi) as (Hneg & Hpos & _).
  destruct (Qlt_le_dec hi 0) as [H|H]; [rewrite (Hneg H); lra|apply (Hpos H)].
Qed.

(** X11.  Dragging cannot break the bounds.  While a drag of an overlay
    with a numeric size is on, the update a pointer-move asks of the store
    carries a position within the bounds of the data model; handed to
    [update], and whether the remote store accepts it or not, it leaves
    every local overlay within the bounds, provided they were so before and
    the remote store only serves overlays within the bounds. *)
Theorem drag_update_keeps_bounds
    (srv : remote) (StringToNumber : string -> number) (d : VideoPlayer.drag)
    (videoRect : VideoPlayer.rect) (m : machine) (clientX clientY : Q)
    (id : string) (overlay size : obj) (w h : Q) :
  VideoPlayer.draggedOverlay d = Some id ->
  id <> "" ->
  VideoPlayer.isDragging d = true ->
  getOverlay (overlays (ui m)) id = Some overlay ->
  overlay !! "size" = Some (VObj size) ->
  size !! "width" = Some (VNum (Fin w)) ->
  size !! "height" = Some (VNum (Fin h)) ->
  remote_within_bounds srv ->
  forallb bounds_ok (overlays (ui m)) = true ->
  exists updateData,
    VideoPlayer.handleMouseMove StringToNumber d (Some videoRect) (overlays (ui m))
      true clientX clientY = VideoPlayer.Update id updateData /\
    patch_ok updateData = true /\
    forallb bounds_ok (overlays (ui (snd (updateOverlay srv id updateData m)))) = true.
Proof.
  intros Hd Hid Hdrag Hfind Hsize Hw Hh Hsrv Hm.
  eexists. split.
  - exact (handleMouseMove_active StringToNumber d videoRect _ clientX clientY
             id overlay size w h Hd Hid Hdrag Hfind Hsize Hw Hh).
  - assert (Hok : forall vx hx vy hy,
              patch_ok
                (VideoPlayer.position_patch
                   (Fin (inject_Z (Qround (Qmax 0 (Qmin vx hx)))))
                   (Fin (inject_Z (Qround (Qmax 0 (Qmin vy hy)))))) = true)
      by (intros; apply position_patch_ok; apply clamped_round_nonneg).
    split; [apply Hok|].
    apply updateOverlay_bounds; [exact Hsrv|exact Hm|apply Hok].
Qed.

(** The drag of [A] of the examples, handed to the store. *)
Lemma drag_update_keeps_bounds_witness :
  exists updateData,
    VideoPlayer.handleMouseMove Examples.no_numeric_strings Examples.dragging_A
      (Some Examples.container) Examples.two_overlays true 855 65
    = VideoPlayer.Update "A" updateData /\
    forallb bounds_ok
      (overlays (ui (snd (updateOverlay (Examples.accepting Examples.two_overlays)
                            "A" updateData
                            (Examples.started Examples.two_overlays))))) = true.
Proof.
  destruct (drag_update_keeps_bounds (Examples.accepting Examples.two_overlays)
              Examples.no_numeric_strings Examples.dragging_A Examples.container
              (Examples.started Examples.two_overlays) 855 65 "A"
              (Examples.overlay "A" 10 10 true)
              (<["height" := num 50]> {[ "width" := num 200 ]}) 200 50
              eq_refl ltac:(discriminate) eq_refl eq_refl eq_refl eq_refl eq_refl
              ltac:(intros n data H; injection H as <-; reflexivity) eq_refl)
    as (updateData & Hmove & _ & Hbounds).
  exists updateData. split; assumption.
Defined.

(** X12.  Staying inside the container.  During a drag of an overlay with
    a numeric size that is not larger than the container, each coordinate
    asked for is a whole number from 0 up to at most half a pixel beyond the
    upper end of the clamp, which is the container's size less the overlay's
    as doubles subtract them, and not beyond that end when it is a whole
    number.  When container and overlay sizes are whole pixels the
    subtraction is exact and the coordinate is at most their difference: the
    overlay stays inside.  With fractional sizes the coordinate can exceed
    the exact difference by more than half a pixel. *)
Theorem drag_stays_inside
    (StringToNumber : string -> number) (d : VideoPlayer.drag)
    (videoRect : VideoPlayer.rect) (overlays : list obj) (clientX clientY : Q)
    (id : string) (overlay size : obj) (w h : Q) :
  VideoPlayer.draggedOverlay d = Some id ->
  id <> "" ->
  VideoPlayer.isDragging d = true ->
  find (has_id id) overlays = Some overlay ->
  overlay !! "size" = Some (VObj size) ->
  size !! "width" = Some (VNum (Fin w)) ->
  size !! "height" = Some (VNum (Fin h)) ->
  (w <= VideoPlayer.width videoRect)%Q ->
  (h <= VideoPlayer.height videoRect)%Q ->
  let maxX := Double.minus (VideoPlayer.width videoRect) w in
  let maxY := Double.minus (VideoPlayer.height videoRect) h in
  exists px py : Z,
    VideoPlayer.handleMouseMove StringToNumber d (Some videoRect) overlays true
      clientX clientY
    = VideoPlayer.Update id
        {[ "position" := VObj (<["y" := VNum (Fin (inject_Z py))]>
                                 {[ "x" := VNum (Fin (inject_Z px)) ]}) ]} /\
    (0 <= px)%Z /\ (0 <= py)%Z /\
    (inject_Z px <= maxX + (1 # 2))%Q /\
    (inject_Z py <= maxY + (1 # 2))%Q /\
    (forall k : Z, (maxX == inject_Z k)%Q -> (px <= k)%Z) /\
    (forall k : Z, (maxY == inject_Z k)%Q -> (py <= k)%Z) /\
    (forall W w' : Z, (Z.abs W < 2 ^ 52)%Z -> (Z.abs w' < 2 ^ 52)%Z ->
       (VideoPlayer.width videoRect == inject_Z W)%Q -> (w == inject_Z w')%Q ->
       (px <= W - w')%Z) /\
    (forall H h' : Z, (Z.abs H < 2 ^ 52)%Z -> (Z.abs h' < 2 ^ 52)%Z ->
       (VideoPlayer.height videoRect == inject_Z H)%Q -> (h == inject_Z h')%Q ->
       (py <= H - h')%Z).
Proof.
  intros Hd Hid Hdrag Hfind Hsize Hw Hh HmaxX HmaxY maxX maxY.
  assert (Hfacts : forall v hi, (0 <= hi)%Q ->
            (0 <= Qround (Qmax 0 (Qmin v hi)))%Z /\
            (inject_Z (Qround (Qmax 0 (Qmin v hi))) <= hi + (1 # 2))%Q /\
            (forall k : Z, (hi == inject_Z k)%Q ->
               (Qround (Qmax 0 (Qmin v hi)) <= k)%Z)).
  { intros v hi Hhi.
    destruct (max_min_clamped v hi) as (_ & Hin & _). specialize (Hin Hhi).
    pose proof (Qround_rounded (Qmax 0 (Qmin v hi))) as [Hlo _].
    split; [apply Qround_nonneg; lra|]. split; [lra|].
    intros k Hk.
    assert (H1 : (inject_Z (Qround (Qmax 0 (Qmin v hi))) < inject_Z (k + 1))%Q)
      by (rewrite inject_Z_plus; change (inject_Z 1) with 1%Q; lra).
    rewrite <- Zlt_Qlt in H1. lia. }
  assert (Hwhole : forall a b (A B : Z), (Z.abs A < 2 ^ 52)%Z -> (Z.abs B < 2 ^ 52)%Z ->
            (a == inject_Z A)%Q -> (b == inject_Z B)%Q ->
            (Double.minus a b == inject_Z (A - B))%Q).
  { intros a b A B HA HB Ha Hb. unfold Double.minus.
    assert (E : (a - b == inject_Z (A - B))%Q)
      by (unfold Z.sub; rewrite inject_Z_plus, inject_Z_opp, Ha, Hb; ring).
    rewrite round_representable; [exact E|].
    exists (A - B)%Z, 0%Z. split; [lia|]. split; [discriminate|].
    rewrite E. change (Double.pow2 0) with 1%Q. ring. }
  assert (H0X : (0 <= maxX)%Q) by (apply round_nonneg; lra).
  assert (H0Y : (0 <= maxY)%Q) by (apply round_nonneg; lra).
  destruct (Hfacts (Double.minus (Double.minus clientX (VideoPlayer.left videoRect))
                                 (VideoPlayer.x (VideoPlayer.dragOffset d))) _ H0X)
    as (Hx1 & Hx2 & Hx3).
  destruct (Hfacts (Double.minus (Double.minus clientY (VideoPlayer.top videoRect))
                                 (VideoPlayer.y (VideoPlayer.dragOffset d))) _ H0Y)
    as (Hy1 & Hy2 & Hy3).
  eexists _, _. split.
  - exact (handleMouseMove_active StringToNumber d videoRect _ clientX clientY
             id overlay size w h Hd Hid Hdrag Hfind Hsize Hw Hh).
  - refine (conj Hx1 (conj Hy1 (conj Hx2 (conj Hy2 (conj Hx3 (conj Hy3 (conj _ _))))))).
    + intros W w' HW Hw' HeqW Heqw. apply Hx3. now apply Hwhole.
    + intros H h' HH Hh' HeqH Heqh. apply Hy3. now apply Hwhole.
Qed.

(** The drag of [A] of the examples: 200 wide in a container of 800. *)
Lemma drag_stays_inside_witness :
  exists px py : Z,
    VideoPlayer.handleMouseMove Examples.no_numeric_strings Examples.dragging_A
      (Some Examples.container) Examples.two_overlays true 2000 65
    = VideoPlayer.Update "A"
        {[ "position" := VObj (<["y" := VNum (Fin (inject_Z py))]>
                                 {[ "x" := VNum (Fin (inject_Z px)) ]}) ]} /\
    (px <= 800 - 200)%Z.
Proof.
  destruct (drag_stays_inside Examples.no_numeric_strings Examples.dragging_A
              Examples.container Examples.two_overlays 2000 65 "A"
              (Examples.overlay "A" 10 10 true)
              (<["height" := num 50]> {[ "width" := num 200 ]}) 200 50
              eq_refl ltac:(discriminate) eq_refl eq_refl eq_refl eq_refl eq_refl
              ltac:(vm_compute; discriminate) ltac:(vm_compute; discriminate))
    as (px & py & Hmove & _ & _ & _ & _ & _ & _ & Hk & _).
  exists px, py. split; [exact Hmove|].
  apply Hk; reflexivity.
Defined.

(** Fractional sizes.  A container [300.7] wide and an overlay [100.2] wide:
    the doubles subtract to [200.5], so that a drag to the far right asks
    for 201, which is more than half a pixel beyond the exact difference of
    the two widths. *)
Example drag_fractional_sizes :
  VideoPlayer.handleMouseMove Examples.no_numeric_strings Examples.dragging_A
    (Some Examples.fractional_container) [Examples.fractional_A] true 2000 65
  = VideoPlayer.Update "A" (Examples.move_to 201 60)
  /\ (Examples.d300_7 - Examples.d100_2 + (1 # 2) < 201)%Q.
Proof. split; vm_compute; reflexivity. Qed.

(** ** apiUtils.retry *)

Lemma backoff_from (delay : Q) (i : Z) (k : nat) :
  Double.times delay (inject_Z (i + 1))
    :: map (fun j => Double.times delay (inject_Z (i + 1 + Z.of_nat j + 1))) (seq 0 k)
  = map (fun j => Double.times delay (inject_Z (i + Z.of_nat j + 1))) (seq 0 (S k)).
Proof.
  cbn [seq map]. f_equal.
  - do 2 f_equal. lia.
  - rewrite <- seq_shift, map_map. apply map_ext. intros j. do 2 f_equal. lia.
Qed.

(** The loop, from any iteration on: [k] attempts are made, each from the
    state the one before left; all but the last throw an error that is not a
    client error, and each of those is followed by a wait. *)
Lemma retry_loop_attempts {A} StringToNumber (apiCall : M A) (maxRetries : Z)
    (delay : Q) (remaining : nat) :
  forall (i : Z) (lastError : value) (waits : list Q) (m : machine) r m' waits',
  (1 <= remaining -> (Z.of_nat remaining + i)%Z = maxRetries) ->
  apiUtils.retry_loop StringToNumber apiCall maxRetries delay remaining i
    lastError waits m = (r, m', waits') ->
  let step := fun m0 => snd (apiCall m0) in
  exists k : nat,
    k <= remaining /\ (1 <= remaining -> 1 <= k) /\
    m' = Nat.iter k step m /\
    waits' = waits ++ map (fun j => Double.times delay (inject_Z (i + Z.of_nat j + 1)))
                        (seq 0 (k - 1)) /\
    (forall j, j < k - 1 ->
       exists e, fst (apiCall (Nat.iter j step m)) = Thrown e /\
                 apiUtils.is_client_error StringToNumber e = false) /\
    match r with
    | apiUtils.Got a =>
        1 <= k /\ fst (apiCall (Nat.iter (k - 1) step m)) = Returned a
    | apiUtils.Gave_up thrown =>
        (k = 0 /\ thrown = lastError) \/
        (1 <= k /\ exists e, thrown = VObj e /\
           fst (apiCall (Nat.iter (k - 1) step m)) = Thrown e /\
           (apiUtils.is_client_error StringToNumber e = true \/
            (k = remaining /\ apiUtils.is_client_error StringToNumber e = false)))
    end.
Proof.
  induction remaining as [|remaining IH]; intros i lastError waits m r m' waits' Hinv Hrun step.
  - cbn [apiUtils.retry_loop] in Hrun. injection Hrun as <- <- <-.
    exists 0. cbn [Nat.iter nat_rect seq map Nat.sub]. rewrite app_nil_r.
    repeat split; try lia. left. split; reflexivity.
  - cbn [apiUtils.retry_loop] in Hrun.
    destruct (apiCall m) as [[a|error] m1] eqn:Hcall.
    + injection Hrun as <- <- <-. exists 1.
      cbn [Nat.iter nat_rect seq map Nat.sub]. rewrite app_nil_r.
      repeat split; try lia.
      * unfold step; cbn beta; now rewrite Hcall.
      * now rewrite Hcall.
    + destruct (apiUtils.is_client_error StringToNumber error) eqn:Hclient.
      * injection Hrun as <- <- <-. exists 1.
        cbn [Nat.iter nat_rect seq map Nat.sub]. rewrite app_nil_r.
        repeat split; try lia.
        -- unfold step; cbn beta; now rewrite Hcall.
        -- right. split; [lia|]. exists error. rewrite Hcall.
           repeat split. now left.
      * apply IH in Hrun; [|lia].
        destruct Hrun as (k & Hk & Hk1 & Hm' & Hwaits & Hbefore & Hlast).
        assert (Hm1 : m1 = step m) by (unfold step; cbn beta; now rewrite Hcall).
        exists (S k). cbn [Nat.sub]. rewrite Nat.sub_0_r.
        split; [lia|]. split; [lia|].
        split; [rewrite Nat.iter_succ_r, <- Hm1; exact Hm'|].
        split; [|split].
        -- rewrite Hwaits. destruct k as [|k].
           ++ assert (remaining = 0) by lia. subst remaining.
              destruct (Z.ltb_spec i (maxRetries - 1)); [lia|].
              cbn [seq map Nat.sub]. reflexivity.
           ++ destruct (Z.ltb_spec i (maxRetries - 1)); [|lia].
              cbn [Nat.sub]. rewrite Nat.sub_0_r, <- app_assoc. cbn [app].
              rewrite backoff_from. reflexivity.
        -- intros [|j] Hj.
           ++ exists error. cbn [Nat.iter nat_rect]. rewrite Hcall. split; [reflexivity|exact Hclient].
           ++ rewrite Nat.iter_succ_r, <- Hm1. apply Hbefore. lia.
        -- destruct r as [a|thrown].
           ++ destruct Hlast as (Hk' & Hret). split; [lia|].
              destruct k as [|k]; [lia|].
              cbn [Nat.sub] in Hret. rewrite Nat.sub_0_r in Hret.
              rewrite Nat.iter_succ_r, <- Hm1. exact Hret.
           ++ right. split; [lia|].
              destruct Hlast as [(-> & ->)|(Hk' & e & -> & Hthrown & Hwhy)].
              ** exists error. cbn [Nat.iter nat_rect]. rewrite Hcall.
                 repeat split. right. split; [lia|exact Hclient].
              ** exists e. destruct k as [|k]; [lia|].
                 cbn [Nat.sub] in Hthrown. rewrite Nat.sub_0_r in Hthrown.
                 rewrite Nat.iter_succ_r, <- Hm1.
                 repeat split; [exact Hthrown|].
                 destruct Hwhy as [H|[H1 H2]]; [now left|right; split; [lia|exact H2]].
Qed.

Lemma retry_given {A} StringToNumber (apiCall : M A) maxRetries delay m :
  apiUtils.retry StringToNumber apiCall (Some maxRetries) (Some delay) m
  = apiUtils.retry_loop StringToNumber apiCall maxRetries delay
      (Z.to_nat maxRetries) 0 VUndefined [] m.
Proof. reflexivity. Qed.

(** X13.  [retry(apiCall, maxRetries, delay)].  Some number [k] of attempts
    is made, at most [maxRetries] and none when [maxRetries] is not positive,
    each from the state the one before left.  All attempts but the last throw
    an error that is not a client error (status 400 to 499); the waits
    between attempts are [delay], [2 * delay], ..., [(k - 1) * delay], with
    no wait after the last.  The call returns what the last attempt returns;
    otherwise it throws the error of the last attempt, which is a client
    error or the error of attempt number [maxRetries]; with no attempt at
    all it throws [undefined]. *)
Theorem retry_attempts_and_backoff {A : Type}
    (StringToNumber : string -> number) (apiCall : M A)
    (maxRetries : Z) (delay : Q) (m : machine) :
  let step := fun m0 => snd (apiCall m0) in
  let result := apiUtils.retry StringToNumber apiCall (Some maxRetries) (Some delay) m in
  exists k : nat,
    (Z.of_nat k <= Z.max 0 maxRetries)%Z /\
    (k = 0 <-> (maxRetries <= 0)%Z) /\
    snd (fst result) = Nat.iter k step m /\
    snd result = backoff delay (k - 1) /\
    (forall j, j < k - 1 ->
       exists e, fst (apiCall (Nat.iter j step m)) = Thrown e /\
                 apiUtils.is_client_error StringToNumber e = false) /\
    match fst (fst result) with
    | apiUtils.Got a =>
        1 <= k /\ fst (apiCall (Nat.iter (k - 1) step m)) = Returned a
    | apiUtils.Gave_up thrown =>
        (k = 0 /\ thrown = VUndefined) \/
        (1 <= k /\ exists e, thrown = VObj e /\
           fst (apiCall (Nat.iter (k - 1) step m)) = Thrown e /\
           (apiUtils.is_client_error StringToNumber e = true \/
            Z.of_nat k = maxRetries))
    end.
Proof.
  intros step result. subst result. rewrite retry_given.
  destruct (apiUtils.retry_loop StringToNumber apiCall maxRetries delay
              (Z.to_nat maxRetries) 0 VUndefined [] m) as [[r m'] waits'] eqn:Hrun.
  apply retry_loop_attempts in Hrun; [|lia].
  destruct Hrun as (k & Hk & Hk1 & Hm' & Hwaits & Hbefore & Hlast).
  exists k. cbn [fst snd].
  split; [lia|]. split; [lia|]. split; [exact Hm'|].
  split; [|split; [exact Hbefore|]].
  - rewrite Hwaits. cbn [app]. unfold backoff. apply map_ext.
    intros j. do 2 f_equal.
  - destruct r as [a|thrown]; [exact Hlast|].
    destruct Hlast as [H|(Hk' & e & He & Hthrown & Hwhy)]; [now left|].
    right. split; [exact Hk'|]. exists e. repeat split; try assumption.
    destruct Hwhy as [H|[H _]]; [now left|right; lia].
Qed.

(** X14.  A call that keeps failing.  When every attempt throws an error
    that is not a client error and [maxRetries] is at least 1, [retry] makes
    exactly [maxRetries] attempts, waits [delay], ..., [(maxRetries - 1) *
    delay] between them, and throws the error of the last attempt. *)
Theorem retry_exhausted {A : Type}
    (StringToNumber : string -> number) (apiCall : M A)
    (maxRetries : Z) (delay : Q) (m : machine) :
  (1 <= maxRetries)%Z ->
  (forall m0, exists e, fst (apiCall m0) = Thrown e /\
                        apiUtils.is_client_error StringToNumber e = false) ->
  let step := fun m0 => snd (apiCall m0) in
  let n := Z.to_nat maxRetries in
  exists e,
    fst (apiCall (Nat.iter (n - 1) step m)) = Thrown e /\
    apiUtils.retry StringToNumber apiCall (Some maxRetries) (Some delay) m
    = (apiUtils.Gave_up (VObj e), Nat.iter n step m, backoff delay (n - 1)).
Proof.
  intros Hmax Hfail step n. rewrite retry_given. fold n.
  destruct (apiUtils.retry_loop StringToNumber apiCall maxRetries delay n
              0 VUndefined [] m) as [[r m'] waits'] eqn:Hrun.
  apply retry_loop_attempts in Hrun; [|unfold n; lia].
  destruct Hrun as (k & Hk & Hk1 & Hm' & Hwaits & Hbefore & Hlast).
  fold step in Hm', Hbefore, Hlast.
  assert (Hn : 1 <= n) by (unfold n; lia).
  destruct r as [a|thrown].
  - destruct Hlast as (_ & Hret).
    destruct (Hfail (Nat.iter (k - 1) step m)) as (e & He & _). congruence.
  - destruct Hlast as [(H0 & _)|(Hk' & e & -> & Hthrown & Hwhy)]; [lia|].
    assert (k = n) as ->.
    { destruct Hwhy as [Hclient|[H _]]; [|exact H].
      destruct (Hfail (Nat.iter (k - 1) step m)) as (e' & He' & Hnot). congruence. }
    exists e. split; [exact Hthrown|].
    rewrite Hm', Hwaits. cbn [app]. do 2 f_equal.
Qed.

(** An update retried with the default parameters against a backend that
    answers 503: three requests, waits of one and two seconds. *)
Lemma retry_exhausted_witness :
  exists e,
    apiUtils.retry Examples.no_numeric_strings
      (overlayAPI.update Examples.overloaded "A" (Examples.move_to 50 60))
      (Some 3%Z) (Some 1000%Q) (Examples.started Examples.two_overlays)
    = (apiUtils.Gave_up (VObj e),
       Nat.iter 3 (fun m0 => snd (overlayAPI.update Examples.overloaded "A"
                                    (Examples.move_to 50 60) m0))
         (Examples.started Examples.two_overlays),
       backoff 1000 2).
Proof.
  destruct (retry_exhausted Examples.no_numeric_strings
              (overlayAPI.update Examples.overloaded "A" (Examples.move_to 50 60))
              3 1000 (Examples.started Examples.two_overlays) ltac:(lia))
    as (e & _ & Hrun).
  - intros m0. exists Examples.server_down. split; reflexivity.
  - exists e. exact Hrun.
Defined.

Example retry_default_parameters :
  apiUtils.retry Examples.no_numeric_strings
    (overlayAPI.update Examples.overloaded "A" (Examples.move_to 50 60))
    None None (Examples.started Examples.two_overlays)
  = (apiUtils.Gave_up (VObj Examples.server_down),
     {| ui := ui (Examples.started Examples.two_overlays);
        sent := [ PutOverlay "A" (Examples.move_to 50 60);
                  PutOverlay "A" (Examples.move_to 50 60);
                  PutOverlay "A" (Examples.move_to 50 60) ];
        ticks := 0 |},
     [1000; 2000]%Q).
Proof. vm_compute. reflexivity. Qed.

(** The waits are products of doubles: with a delay of [0.1] the third wait
    is [0.30000000000000004]. *)
Example retry_fractional_delay :
  snd (apiUtils.retry Examples.no_numeric_strings
         (overlayAPI.update Examples.overloaded "A" (Examples.move_to 50 60))
         (Some 4%Z) (Some Examples.tenth) (Examples.started Examples.two_overlays))
  = [Examples.tenth; Examples.fifth; 1351079888211149 # 4503599627370496]
  /\ (Examples.tenth * 3 < 1351079888211149 # 4503599627370496)%Q.
Proof. split; vm_compute; reflexivity. Qed.

(** A 404 is not retried. *)
Example retry_stops_on_client_error :
  apiUtils.retry Examples.no_numeric_strings
    (overlayAPI.update Examples.forgetful "A" (Examples.move_to 50 60))
    None None (Examples.started Examples.two_overlays)
  = (apiUtils.Gave_up (VObj Examples.gone),
     {| ui := ui (Examples.started Examples.two_overlays);
        sent := [ PutOverlay "A" (Examples.move_to 50 60) ];
        ticks := 0 |},
     []).
Proof. vm_compute. reflexivity. Qed.

(** ** apiUtils.testConnection *)

Lemma server_message_chain (error : obj) :
  let server := opt_member (opt_member (prop error "response") "data") "error" in
  (if truthy server then Some server else None) = server_message error.
Proof.
  unfold server_message, provided, opt_member, member, prop. cbv zeta.
  destruct (error !! "response") as [[| | | | |response]|]; simpl; try reflexivity.
  destruct (response !! "data") as [[| | | | |data]|]; simpl; try reflexivity.
  destruct (data !! "error") as [msg|]; simpl; reflexivity.
Qed.

(** X15.  [testConnection()] never throws and leaves the state the health
    request leaves.  It reports success exactly when the request resolves;
    when the request is rejected it reports the structured server message if
    there is one and ['API connection failed'] otherwise, never the
    transport's own message. *)
Theorem testConnection_reports (check : M value) (m : machine) :
  snd (apiUtils.testConnection check m) = snd (check m) /\
  fst (apiUtils.testConnection check m) =
    Returned
      match fst (check m) with
      | Returned _ =>
          {| apiUtils.success := true;
             apiUtils.message := VStr "API connection successful" |}
      | Thrown e =>
          {| apiUtils.success := false;
             apiUtils.message :=
               match server_message e with
               | Some msg => msg
               | None => VStr "API connection failed"
               end |}
      end.
Proof.
  unfold apiUtils.testConnection, try_catch, bind, ret.
  destruct (check m) as [[v|e] m']; cbn [fst snd]; [split; reflexivity|].
  split; [reflexivity|]. do 2 f_equal.
  pose proof (server_message_chain e) as H. cbv zeta in H.
  rewrite <- H. destruct (truthy _); reflexivity.
Qed.

(** A network error has a transport message and no server message. *)
Example testConnection_network_error :
  fst (apiUtils.testConnection (throw Examples.network_error)
         (Examples.started []))
  = Returned {| apiUtils.success := false;
                apiUtils.message := VStr "API connection failed" |}.
Proof. vm_compute. reflexivity. Qed.

(** ** The time display *)

Lemma two_digits (s : Z) :
  (0 <= s < 60)%Z ->
  VideoPlayer.padStart 2 "0" (pretty s)
  = (if (s <? 10)%Z then "0" +:+ pretty s else pretty s) /\
  String.length (VideoPlayer.padStart 2 "0" (pretty s)) = 2.
Proof.
  intros Hs. rewrite <- (Z2Nat.id s) by lia.
  assert (Hn : Z.to_nat s < 60) by lia.
  generalize dependent (Z.to_nat s). clear. intros n Hn.
  do 60 (destruct n as [|n]; [vm_compute; split; reflexivity|]).
  lia.
Qed.

(** X16.  [formatTime] on a time that is not negative and below [2^53]
    seconds shows the whole seconds as minutes, a colon, and the seconds
    within the minute on exactly two digits: with [t] the time rounded down,
    the minutes are [t / 60] and the seconds [t mod 60], a zero in front
    when below ten; the rounding of the division never reaches the next
    minute.  Zero, [NaN] and the infinities show as ['0:00']. *)
Theorem formatTime_minutes_and_seconds (q : Q) :
  Double.representable q ->
  (0 <= q < inject_Z (2 ^ 53))%Q ->
  let t := Qfloor q in
  let mins := (t / 60)%Z in
  let secs := (t mod 60)%Z in
  VideoPlayer.formatTime (VideoPlayer.Time (Fin q))
  = Some (pretty mins +:+ ":" +:+
          (if (secs <? 10)%Z then "0" +:+ pretty secs else pretty secs)) /\
  String.length (if (secs <? 10)%Z then "0" +:+ pretty secs else pretty secs) = 2 /\
  (0 <= secs < 60)%Z /\ (60 * mins + secs)%Z = t /\
  VideoPlayer.formatTime (VideoPlayer.Time NaN) = Some "0:00" /\
  (forall negative, VideoPlayer.formatTime (VideoPlayer.Infinite negative) = Some "0:00").
Proof.
  intros Hrep [Hq Hbound] t mins secs.
  assert (Hsecs : (0 <= secs < 60)%Z) by (unfold secs; apply Z.mod_pos_bound; lia).
  assert (Hsum : (60 * mins + secs)%Z = t)
    by (unfold mins, secs; symmetry; apply Z.div_mod; lia).
  destruct (two_digits secs Hsecs) as [Hpad Hlen]. rewrite <- Hpad.
  refine (conj _ (conj Hlen (conj Hsecs (conj Hsum (conj eq_refl (fun _ => eq_refl)))))).
  unfold VideoPlayer.formatTime.
  destruct (Qeq_bool q 0) eqn:Hzero.
  - apply Qeq_bool_eq in Hzero.
    assert (Ht : t = 0%Z) by (unfold t; rewrite Hzero; reflexivity).
    unfold mins, secs. rewrite Ht. reflexivity.
  - assert (Hpos : (0 < q)%Q).
    { destruct (Qeq_dec q 0) as [E|E]; [|lra].
      apply Qeq_bool_iff in E. congruence. }
    pose proof (Qfloor_le q) as H1. pose proof (Qlt_floor q) as H2.
    fold t in H1, H2. rewrite inject_Z_plus in H2.
    change (inject_Z 1) with 1%Q in H2.
    assert (Ht0 : (0 <= t)%Z).
    { unfold t. change 0%Z with (Qfloor 0). apply Qfloor_resp_le. exact Hq. }
    assert (Ht53 : (t < 2 ^ 53)%Z) by (rewrite Zlt_Qlt; lra).
    assert (Hm0 : (0 <= mins)%Z) by (unfold mins; apply Z.div_pos; lia).
    assert (Hm53 : (mins < 2 ^ 53)%Z).
    { unfold mins. apply Z.le_lt_trans with t; [|exact Ht53].
      apply Z.div_le_upper_bound; lia. }
    assert (Hinj : (inject_Z t == 60 * inject_Z mins + inject_Z secs)%Q).
    { rewrite <- Hsum at 1. rewrite inject_Z_plus, inject_Z_mult. reflexivity. }
    assert (Hs1 : (0 <= inject_Z secs)%Q)
      by (change 0%Q with (inject_Z 0); rewrite <- Zle_Qle; lia).
    assert (Hs2 : (inject_Z secs <= 59)%Q)
      by (change 59%Q with (inject_Z 59); rewrite <- Zle_Qle; lia).
    assert (Hexact : Qfloor (q / 60) = mins).
    { apply Qfloor_unique. split.
      - apply Qle_shift_div_l; lra.
      - apply Qlt_shift_div_r; lra. }
    assert (Hmins : Qfloor (Double.divide q 60) = mins)
      by (rewrite (divide_60_floor q Hrep Hpos Hbound); exact Hexact).
    assert (Htrunc : VideoPlayer.Qtrunc (q / 60) = mins).
    { unfold VideoPlayer.Qtrunc.
      destruct (Qle_bool 0 (q / 60)) eqn:E; [exact Hexact|].
      apply Qle_bool_false in E. exfalso.
      assert (0 <= q / 60)%Q by (apply Qle_shift_div_l; lra). lra. }
    assert (Hrem : Qfloor (VideoPlayer.remainder q 60) = secs).
    { unfold VideoPlayer.remainder. rewrite Htrunc.
      apply Qfloor_unique. lra. }
    assert (Hprint : forall z, (0 <= z < 2 ^ 53)%Z ->
              VideoPlayer.toString z = Some (pretty z)).
    { intros z Hz. unfold VideoPlayer.toString.
      destruct (Z.ltb_spec (Z.abs z) (10 ^ 21)) as [_|Hbig]; [reflexivity|].
      exfalso. change (10 ^ 21)%Z with 1000000000000000000000%Z in Hbig.
      change (2 ^ 53)%Z with 9007199254740992%Z in Hz. lia. }
    cbv zeta. rewrite Hmins, Hrem, (Hprint mins), (Hprint secs); [reflexivity| |].
    + change (2 ^ 53)%Z with 9007199254740992%Z. lia.
    + split; [exact Hm0|exact Hm53].
Qed.

(** Two minutes and five seconds and a half. *)
Lemma formatTime_minutes_and_seconds_witness :
  VideoPlayer.formatTime (VideoPlayer.Time (Fin (251 # 2))) = Some "2:05".
Proof.
  refine (proj1 (formatTime_minutes_and_seconds (251 # 2) _ _)).
  - exists 251%Z, (-1)%Z. split; [reflexivity|]. split; [discriminate|reflexivity].
  - split; [discriminate|reflexivity].
Defined.

(** A negative time is not guarded against. *)
Example formatTime_negative :
  VideoPlayer.formatTime (VideoPlayer.Time (Fin (-5))) = Some "-1:-5".
Proof. vm_compute. reflexivity. Qed.

(** Far beyond [2^53] the division rounds: [10^21 / 60] is
    [16666666666666666666.6...], and the double nearest to it is
    [16666666666666665984].  From [10^21] on the minutes would print with an
    exponent, which [toString] leaves out. *)
Example formatTime_division_rounds :
  Qfloor (Double.divide (inject_Z (10 ^ 21)) 60) = 16666666666666665984%Z
  /\ Qfloor (inject_Z (10 ^ 21) / 60) = 16666666666666666666%Z
  /\ VideoPlayer.formatTime (VideoPlayer.Time (Fin (inject_Z (10 ^ 21 * 60)))) = None.
Proof. repeat split; vm_compute; reflexivity. Qed.

(** ** The handlers of App.js *)

Lemma server_error_or_message (error : obj) (fallback : string) :
  App.server_error_or error fallback =
    match server_message error with
    | Some msg => msg
    | None => VStr fallback
    end.
Proof.
  unfold App.server_error_or.
  pose proof (server_message_chain error) as H. cbv zeta in H.
  rewrite <- H. destruct (truthy _); reflexivity.
Qed.

Lemma handleMouseMove_update_shape StringToNumber d videoRect overlays
    onOverlayUpdate clientX clientY id updateData :
  VideoPlayer.handleMouseMove StringToNumber d videoRect overlays onOverlayUpdate
    clientX clientY = VideoPlayer.Update id updateData ->
  exists px py, updateData = VideoPlayer.position_patch px py.
Proof.
  unfold VideoPlayer.handleMouseMove.
  destruct (VideoPlayer.draggedOverlay d) as [id0|]; [|discriminate].
  destruct (String.eqb id0 "" || negb (VideoPlayer.isDragging d)); [discriminate|].
  destruct videoRect as [R|]; [|discriminate].
  destruct (find (has_id id0) overlays) as [overlay|]; [|discriminate].
  destruct (member (prop overlay "size") "width") as [w|]; [|discriminate].
  destruct (member (prop overlay "size") "height") as [h|]; [|discriminate].
  destruct onOverlayUpdate; [|discriminate].
  intros H. injection H as <- <-. eauto.
Qed.

Lemma position_patch_truthy px py :
  truthy (prop (VideoPlayer.position_patch px py) "position") = true.
Proof.
  unfold prop, VideoPlayer.position_patch. rewrite lookup_singleton_eq. reflexivity.
Qed.

(** X17.  Drag updates are silent.  Whatever update a pointer-move asks
    for, passing it through [handleOverlayUpdate] never throws and shows no
    toast, whether the remote store accepts it or rejects it; the hook is
    left as [update] leaves it, so a rejection is seen only in the hook's
    [error] and in the re-fetched collection. *)
Theorem drag_update_is_silent
    (srv : remote) (StringToNumber : string -> number) (d : VideoPlayer.drag)
    (videoRect : option VideoPlayer.rect) (overlays : list obj)
    (clientX clientY : Q) (id : string) (updateData : obj) (m : machine) :
  VideoPlayer.handleMouseMove StringToNumber d videoRect overlays true
    clientX clientY = VideoPlayer.Update id updateData ->
  App.handleOverlayUpdate srv id updateData m
  = (Returned tt, snd (updateOverlay srv id updateData m), []).
Proof.
  intros Hmove.
  destruct (handleMouseMove_update_shape _ _ _ _ _ _ _ _ _ Hmove) as (px & py & ->).
  unfold App.handleOverlayUpdate. rewrite position_patch_truthy. cbn [negb].
  destruct (updateOverlay srv id _ m) as [[u|e] m']; reflexivity.
Qed.

(** The drag of [A] against a backend that is down. *)
Lemma drag_update_is_silent_witness :
  App.handleOverlayUpdate Examples.unreachable "A" (Examples.move_to 600 40)
    (Examples.started Examples.two_overlays)
  = (Returned tt,
     snd (updateOverlay Examples.unreachable "A" (Examples.move_to 600 40)
            (Examples.started Examples.two_overlays)),
     []).
Proof.
  exact (drag_update_is_silent Examples.unreachable Examples.no_numeric_strings
           Examples.dragging_A (Some Examples.container) Examples.two_overlays
           855 65 "A" (Examples.move_to 600 40)
           (Examples.started Examples.two_overlays) eq_refl).
Defined.

(** X18.  The two messages of a failed operation.  When the remote store
    rejects a create, [handleOverlayCreate] re-throws the error and shows one
    error toast; the toast carries the structured server message if there is
    one and the fixed text otherwise, while the hook's [error] carries what
    the extraction rule gives.  The two agree when the server sent a message
    or the transport has none; for an error with only a transport message,
    the hook shows that message and the toast the fixed text.  A failed
    update or delete is not re-thrown by its handler. *)
Theorem handlers_report_failures
    (srv : remote) (m : machine) :
  (forall draft e,
     mutation_reply srv (length (sent m)) (PostOverlay draft) = Reject e ->
     let toasted :=
       match server_message e with
       | Some msg => msg
       | None => VStr "Failed to create overlay"
       end in
     let m' := snd (createOverlay srv draft m) in
     App.handleOverlayCreate srv draft m = (Thrown e, m', [App.toast_error toasted]) /\
     error (ui m') = extraction_rule e (VStr "Failed to create overlay") /\
     (server_message e <> None \/ transport_message e = None ->
      error (ui m') = toasted) /\
     (forall msg, server_message e = None -> transport_message e = Some msg ->
        error (ui m') = msg /\ toasted = VStr "Failed to create overlay")) /\
  (forall id updateData, fst (fst (App.handleOverlayUpdate srv id updateData m)) = Returned tt) /\
  (forall id, fst (fst (App.handleOverlayDelete srv id m)) = Returned tt).
Proof.
  split; [|split].
  - intros draft e Hreply toasted m'. subst toasted m'.
    unfold App.handleOverlayCreate.
    rewrite (createOverlay_rejected srv draft m e Hreply). cbn [snd ui error].
    rewrite server_error_or_message, handleError_extraction_rule.
    unfold extraction_rule.
    split; [reflexivity|]. split; [reflexivity|]. split.
    + intros [H|H].
      * destruct (server_message e); [reflexivity|contradiction].
      * rewrite H. destruct (server_message e); reflexivity.
    + intros msg H1 H2. rewrite H1, H2. split; reflexivity.
  - intros id updateData. unfold App.handleOverlayUpdate.
    destruct (updateOverlay srv id updateData m) as [[u|e] m']; reflexivity.
  - intros id. unfold App.handleOverlayDelete.
    destruct (deleteOverlay srv id m) as [[u|e] m']; reflexivity.
Qed.

(** A create while the backend is down: the toast and the hook disagree. *)
Lemma handlers_report_failures_witness :
  App.handleOverlayCreate Examples.unreachable (Examples.overlay "A" 10 10 true)
    (Examples.started [])
  = (Thrown Examples.network_error,
     snd (createOverlay Examples.unreachable (Examples.overlay "A" 10 10 true)
            (Examples.started [])),
     [App.toast_error (VStr "Failed to create overlay")]) /\
  error (ui (snd (createOverlay Examples.unreachable
                    (Examples.overlay "A" 10 10 true) (Examples.started []))))
  = VStr "Network Error".
Proof.
  destruct (proj1 (handlers_report_failures Examples.unreachable (Examples.started []))
              (Examples.overlay "A" 10 10 true) Examples.network_error eq_refl)
    as (Hrun & _ & _ & Hdiffer).
  split; [exact Hrun|].
  exact (proj1 (Hdiffer (VStr "Network Error") eq_refl eq_refl)).
Defined.

(** ** The form of the overlay manager *)

Section FormFacts.
Variable trim : string -> string.
Variable isValidUrl : string -> bool.
Variable StringToNumber : string -> number.

(** What a form that validates tells about its data. *)
Lemma validateForm_valid (formData : obj) :
  OverlayManager.validateForm trim isValidUrl StringToNumber formData = Some ∅ ->
  exists content px py w h,
    prop formData "content" = VStr content /\
    String.eqb (trim content) "" = false /\
    OverlayManager.is_logo (prop formData "type")
      && negb (String.eqb (trim content) "") && negb (isValidUrl content) = false /\
    member (prop formData "position") "x" = Some px /\
    member (prop formData "position") "y" = Some py /\
    member (prop formData "size") "width" = Some w /\
    member (prop formData "size") "height" = Some h /\
    lt_num StringToNumber px 0 || lt_num StringToNumber py 0 = false /\
    le_num StringToNumber w 0 || le_num StringToNumber h 0 = false /\
    gt_num StringToNumber w 1920 || gt_num StringToNumber h 1080 = false.
Proof.
  unfold OverlayManager.validateForm.
  destruct (prop formData "content") as [| | | |content|]; try discriminate.
  destruct (member (prop formData "position") "x") as [px|]; [|discriminate].
  destruct (member (prop formData "position") "y") as [py|]; [|discriminate].
  destruct (member (prop formData "size") "width") as [w|]; [|discriminate].
  destruct (member (prop formData "size") "height") as [h|]; [|discriminate].
  intros H. injection H as H.
  exists content, px, py, w, h.
  destruct (String.eqb (trim content) "");
    [exfalso; revert H;
     repeat match goal with |- context [if ?b then _ else _] => destruct b end;
     apply insert_non_empty|].
  destruct (OverlayManager.is_logo (prop formData "type") && negb false
            && negb (isValidUrl content));
    [exfalso; revert H;
     repeat match goal with |- context [if ?b then _ else _] => destruct b end;
     apply insert_non_empty|].
  destruct (lt_num StringToNumber px 0 || lt_num StringToNumber py 0);
    [exfalso; revert H;
     repeat match goal with |- context [if ?b then _ else _] => destruct b end;
     apply insert_non_empty|].
  destruct (le_num StringToNumber w 0 || le_num StringToNumber h 0);
    [exfalso; revert H;
     repeat match goal with |- context [if ?b then _ else _] => destruct b end;
     apply insert_non_empty|].
  destruct (gt_num StringToNumber w 1920 || gt_num StringToNumber h 1080);
    [exfalso; revert H; apply insert_non_empty|].
  repeat split; reflexivity.
Qed.

Lemma validateForm_patch_ok (formData : obj) :
  OverlayManager.validateForm trim isValidUrl StringToNumber formData = Some ∅ ->
  finite_fields (prop formData "position") "x" "y" = true ->
  finite_fields (prop formData "size") "width" "height" = true ->
  position_ok (prop formData "position") = true /\
  size_ok (prop formData "size") = true.
Proof.
  intros Hvalid Hfp Hfs.
  destruct (validateForm_valid formData Hvalid)
    as (content & px & py & w & h & _ & _ & _ & Hx & Hy & Hw & Hh & Hlt & Hle & Hgt).
  apply orb_false_iff in Hlt, Hle, Hgt.
  destruct Hlt as [Hlt1 Hlt2], Hle as [Hle1 Hle2], Hgt as [Hgt1 Hgt2].
  split.
  - destruct (prop formData "position") as [| | | | |p]; try discriminate.
    cbn [member] in Hx, Hy. injection Hx as <-. injection Hy as <-.
    unfold prop in Hlt1, Hlt2. cbn [finite_fields position_ok] in Hfp |- *.
    destruct (p !! "x") as [[| | |[|qx]| |]|]; try discriminate.
    destruct (p !! "y") as [[| | |[|qy]| |]|]; try discriminate.
    unfold lt_num, lt, default, id in Hlt1, Hlt2.
    cbn [from_option ToNumber] in Hlt1, Hlt2.
    apply negb_false_iff in Hlt1, Hlt2. now rewrite Hlt1, Hlt2.
  - destruct (prop formData "size") as [| | | | |s]; try discriminate.
    cbn [member] in Hw, Hh. injection Hw as <-. injection Hh as <-.
    unfold prop in Hle1, Hle2, Hgt1, Hgt2. cbn [finite_fields size_ok] in Hfs |- *.
    destruct (s !! "width") as [[| | |[|qw]| |]|]; try discriminate.
    destruct (s !! "height") as [[| | |[|qh]| |]|]; try discriminate.
    unfold le_num, gt_num, le, lt, default, id in Hle1, Hle2, Hgt1, Hgt2.
    cbn [from_option ToNumber] in Hle1, Hle2, Hgt1, Hgt2.
    apply negb_false_iff in Hgt1, Hgt2. unfold Qlt_bool.
    now rewrite Hle1, Hle2, Hgt1, Hgt2.
Qed.

End FormFacts.

(** X19.  Saving an edit.  When the form validates and an overlay with a
    string id is being edited, [handleSubmit] sends the whole form as the
    patch and then always resets and closes the form without any toast,
    whether the remote store accepted the update or rejected it: the form
    carries a position, which silences the toasts, and the update handler
    does not re-throw.  The hook is left as [update] leaves it. *)
Theorem handleSubmit_edit_always_closes
    (trim : string -> string) (isValidUrl : string -> bool)
    (StringToNumber : string -> number) (srv : remote)
    (f : OverlayManager.form) (m : machine) (overlay : obj) (id : string) :
  OverlayManager.editingOverlay f = Some overlay ->
  overlay !! "_id" = Some (VStr id) ->
  OverlayManager.validateForm trim isValidUrl StringToNumber
    (OverlayManager.formData f) = Some ∅ ->
  truthy (prop (OverlayManager.formData f) "position") = true ->
  OverlayManager.handleSubmit trim isValidUrl StringToNumber srv f m
  = Some (OverlayManager.resetForm,
          snd (updateOverlay srv id (OverlayManager.formData f) m),
          []).
Proof.
  intros Hedit Hid Hvalid Hpos.
  unfold OverlayManager.handleSubmit. rewrite Hvalid.
  cbn [OverlayManager.editingOverlay OverlayManager.formData].
  rewrite Hedit. unfold OverlayManager.id_of. rewrite Hid.
  change (Nat.eqb (base.size (∅ : obj)) 0) with true. cbn [negb].
  unfold App.handleOverlayUpdate. rewrite Hpos. cbn [negb].
  destruct (updateOverlay srv id (OverlayManager.formData f) m) as [[u|e] m'];
    reflexivity.
Qed.

(** Renaming [A] while the backend is down: the form closes all the same. *)
Lemma handleSubmit_edit_always_closes_witness :
  OverlayManager.handleSubmit Examples.no_trim Examples.any_url
    Examples.no_numeric_strings Examples.unreachable Examples.editing_A
    (Examples.started Examples.two_overlays)
  = Some (OverlayManager.resetForm,
          snd (updateOverlay Examples.unreachable "A" Examples.renamed_A
                 (Examples.started Examples.two_overlays)),
          []).
Proof.
  exact (handleSubmit_edit_always_closes Examples.no_trim Examples.any_url
           Examples.no_numeric_strings Examples.unreachable Examples.editing_A
           (Examples.started Examples.two_overlays)
           (Examples.overlay "A" 10 10 true) "A" eq_refl eq_refl eq_refl eq_refl).
Defined.

(** X20.  Saving a new overlay.  A form with errors sends nothing: the
    errors are stored and the form stays.  A form that validates, with no
    overlay being edited, posts its data; when the remote store accepts, a
    success toast is shown and the form is reset and closed; when it
    rejects, an error toast is shown and the form stays open with its
    data. *)
Theorem handleSubmit_create
    (trim : string -> string) (isValidUrl : string -> bool)
    (StringToNumber : string -> number) (srv : remote)
    (f : OverlayManager.form) (m : machine) (errors : obj) :
  OverlayManager.validateForm trim isValidUrl StringToNumber
    (OverlayManager.formData f) = Some errors ->
  let kept :=
    {| OverlayManager.showForm := OverlayManager.showForm f;
       OverlayManager.editingOverlay := OverlayManager.editingOverlay f;
       OverlayManager.formData := OverlayManager.formData f;
       OverlayManager.formErrors := errors |} in
  let submitted := OverlayManager.handleSubmit trim isValidUrl StringToNumber srv f m in
  (errors <> ∅ -> submitted = Some (kept, m, [])) /\
  (errors = ∅ -> OverlayManager.editingOverlay f = None ->
   let m' := snd (createOverlay srv (OverlayManager.formData f) m) in
   match mutation_reply srv (length (sent m))
           (PostOverlay (OverlayManager.formData f)) with
   | Resolve _ =>
       submitted =
         Some (OverlayManager.resetForm, m',
               [App.toast_success (VStr "Overlay created successfully!")])
   | Reject e =>
       submitted =
         Some (kept, m',
               [App.toast_error (App.server_error_or e "Failed to create overlay")])
   end).
Proof.
  intros Hvalid kept submitted. subst kept submitted.
  unfold OverlayManager.handleSubmit. rewrite Hvalid.
  cbn [OverlayManager.editingOverlay OverlayManager.formData].
  split.
  - intros Hne.
    destruct (base.size errors) eqn:Hsize; [|reflexivity].
    apply map_size_empty_iff in Hsize. contradiction.
  - intros -> Hnew. rewrite Hnew.
    change (Nat.eqb (base.size (∅ : obj)) 0) with true. cbn [negb].
    unfold App.handleOverlayCreate.
    destruct (mutation_reply srv (length (sent m))
                (PostOverlay (OverlayManager.formData f))) as [response|e] eqn:Hreply.
    + rewrite (createOverlay_resolved srv _ m response Hreply). reflexivity.
    + rewrite (createOverlay_rejected srv _ m e Hreply). reflexivity.
Qed.

(** A new text overlay while the backend is down: the form stays open. *)
Lemma handleSubmit_create_witness :
  OverlayManager.handleSubmit Examples.no_trim Examples.any_url
    Examples.no_numeric_strings Examples.unreachable Examples.creating
    (Examples.started [])
  = Some (Examples.creating,
          snd (createOverlay Examples.unreachable Examples.new_text (Examples.started [])),
          [App.toast_error (VStr "Failed to create overlay")]).
Proof.
  exact (proj2 (handleSubmit_create Examples.no_trim Examples.any_url
                  Examples.no_numeric_strings Examples.unreachable Examples.creating
                  (Examples.started []) ∅ eq_refl)
               eq_refl eq_refl).
Defined.

(** X21.  What the form lets through.  A form that validates has a content
    that is not blank, a valid URL as content when it is a logo, and, its
    position and size being finite numbers (as the inputs of the form store
    them), a position and a size within the bounds of the data model.
    Submitting it, as an edit or as a new overlay, leaves every local overlay
    within the bounds, provided they were so before and the remote store only
    serves overlays within the bounds. *)
Theorem validateForm_keeps_bounds
    (trim : string -> string) (isValidUrl : string -> bool)
    (StringToNumber : string -> number) (srv : remote)
    (f : OverlayManager.form) (m : machine) :
  OverlayManager.validateForm trim isValidUrl StringToNumber
    (OverlayManager.formData f) = Some ∅ ->
  finite_fields (prop (OverlayManager.formData f) "position") "x" "y" = true ->
  finite_fields (prop (OverlayManager.formData f) "size") "width" "height" = true ->
  remote_within_bounds srv ->
  forallb bounds_ok (overlays (ui m)) = true ->
  (exists content,
     prop (OverlayManager.formData f) "content" = VStr content /\
     trim content <> "" /\
     (OverlayManager.is_logo (prop (OverlayManager.formData f) "type") = true ->
      isValidUrl content = true)) /\
  bounds_ok (OverlayManager.formData f) = true /\
  (forall f' m' toasts,
     OverlayManager.handleSubmit trim isValidUrl StringToNumber srv f m
       = Some (f', m', toasts) ->
     forallb bounds_ok (overlays (ui m')) = true).
Proof.
  intros Hvalid Hfp Hfs Hsrv Hm.
  destruct (validateForm_patch_ok trim isValidUrl StringToNumber _ Hvalid Hfp Hfs)
    as [Hpos Hsize].
  destruct (validateForm_valid trim isValidUrl StringToNumber _ Hvalid)
    as (content & _ & _ & _ & _ & Hcontent & Hblank & Hurl & _).
  assert (Hbounds : bounds_ok (OverlayManager.formData f) = true)
    by (unfold bounds_ok; now rewrite Hsize, Hpos).
  assert (Hpatch : patch_ok (OverlayManager.formData f) = true).
  { unfold patch_ok. unfold prop in Hpos, Hsize.
    destruct (OverlayManager.formData f !! "size"); [|discriminate].
    destruct (OverlayManager.formData f !! "position"); [|discriminate].
    unfold default, id in Hpos, Hsize. cbn [from_option] in Hpos, Hsize.
    now rewrite Hsize, Hpos. }
  split; [|split; [exact Hbounds|]].
  - exists content. split; [exact Hcontent|]. split.
    + intros H. rewrite H in Hblank. discriminate.
    + intros Hlogo. rewrite Hlogo, Hblank in Hurl. cbn [negb andb] in Hurl.
      now apply negb_false_iff in Hurl.
  - intros f' m' toasts. unfold OverlayManager.handleSubmit. rewrite Hvalid.
    cbn [OverlayManager.editingOverlay OverlayManager.formData].
    change (Nat.eqb (base.size (∅ : obj)) 0) with true. cbn [negb].
    destruct (OverlayManager.editingOverlay f) as [overlay|].
    + destruct (OverlayManager.id_of overlay) as [id|]; [|discriminate].
      unfold App.handleOverlayUpdate.
      pose proof (updateOverlay_bounds srv id _ m Hsrv Hm Hpatch) as Hkept.
      destruct (updateOverlay srv id (OverlayManager.formData f) m) as [[u|e] m1];
        intros H; injection H as _ <- _; exact Hkept.
    + unfold App.handleOverlayCreate.
      assert (Hkept : forallb bounds_ok
                (overlays (ui (snd (createOverlay srv (OverlayManager.formData f) m))))
                = true).
      { destruct (mutation_reply srv (length (sent m))
                    (PostOverlay (OverlayManager.formData f))) as [response|e] eqn:Hreply.
        - rewrite (createOverlay_resolved srv _ m response Hreply). cbn [snd].
          now apply after_fetch_bounds.
        - rewrite (createOverlay_rejected srv _ m e Hreply). exact Hm. }
      destruct (createOverlay srv (OverlayManager.formData f) m) as [[u|e] m1];
        intros H; injection H as _ <- _; exact Hkept.
Qed.

(** The renaming of [A] of the examples is within the bounds. *)
Lemma validateForm_keeps_bounds_witness :
  bounds_ok Examples.renamed_A = true.
Proof.
  exact (proj1 (proj2
    (validateForm_keeps_bounds Examples.no_trim Examples.any_url
       Examples.no_numeric_strings (Examples.accepting Examples.two_overlays)
       Examples.editing_A (Examples.started Examples.two_overlays)
       eq_refl eq_refl eq_refl
       ltac:(intros n data H; injection H as <-; reflexivity) eq_refl))).
Defined.

(** X22.  The toggle of the manager against the toggle of the hook.  For an
    overlay with a string id that is the record the hook holds under that id,
    the manager's [toggleVisibility] leaves the hook exactly as the hook's
    own [toggleVisibility(id)] does, and adds one toast: success when the
    remote store accepted, error otherwise.  For an overlay the hook no
    longer holds, the hook's toggle sends nothing but the manager's still
    sends the update. *)
Theorem manager_toggle_matches_hook
    (srv : remote) (overlay : obj) (id : string) (m : machine) :
  overlay !! "_id" = Some (VStr id) ->
  let patch := {[ "visible" := VBool (negb (truthy (prop overlay "visible"))) ]} : obj in
  (getOverlay (overlays (ui m)) id = Some overlay ->
   exists toast,
     OverlayManager.toggleVisibility srv overlay m
       = Some (snd (toggleOverlayVisibility srv id m), [toast]) /\
     toast =
       match mutation_reply srv (length (sent m)) (PutOverlay id patch) with
       | Resolve _ => App.toast_success (VStr "Overlay updated successfully!")
       | Reject e => App.toast_error (App.server_error_or e "Failed to update overlay")
       end) /\
  (getOverlay (overlays (ui m)) id = None ->
   sent (snd (toggleOverlayVisibility srv id m)) = sent m /\
   exists m' toasts rest,
     OverlayManager.toggleVisibility srv overlay m = Some (m', toasts) /\
     sent m' = sent m ++ PutOverlay id patch :: rest).
Proof.
  intros Hid patch. subst patch.
  unfold OverlayManager.toggleVisibility, OverlayManager.id_of. rewrite Hid.
  unfold App.handleOverlayUpdate.
  assert (Hvis : truthy (prop ({[ "visible" :=
                   VBool (negb (truthy (prop overlay "visible"))) ]} : obj)
                   "position") = false).
  { unfold prop. rewrite lookup_singleton_ne by discriminate. reflexivity. }
  rewrite Hvis. cbn [negb].
  split.
  - intros Hget. rewrite (toggleOverlayVisibility_found srv id m overlay Hget).
    destruct (mutation_reply srv (length (sent m)) _) as [response|e] eqn:Hreply.
    + destruct (updateOverlay_resolved srv id _ m response Hreply)
        as (l' & k & Hrun & _). rewrite Hrun. eexists. split; reflexivity.
    + rewrite (updateOverlay_rejected srv id _ m e Hreply).
      eexists. split; reflexivity.
  - intros Habsent. rewrite (toggleOverlayVisibility_absent srv id m Habsent).
    split; [reflexivity|].
    destruct (mutation_reply srv (length (sent m))
                (PutOverlay id {[ "visible" :=
                   VBool (negb (truthy (prop overlay "visible"))) ]}))
      as [response|e] eqn:Hreply.
    + destruct (updateOverlay_resolved srv id _ m response Hreply)
        as (l' & k & Hrun & _). rewrite Hrun.
      do 3 eexists. split; [reflexivity|]. cbn [sent]. reflexivity.
    + rewrite (updateOverlay_rejected srv id _ m e Hreply).
      do 3 eexists. split; [reflexivity|]. cbn [sent]. reflexivity.
Qed.

(** Hiding [A] from the manager. *)
Lemma manager_toggle_matches_hook_witness :
  exists toast,
    OverlayManager.toggleVisibility (Examples.accepting [])
      (Examples.overlay "A" 10 10 true) (Examples.started Examples.two_overlays)
    = Some (snd (toggleOverlayVisibility (Examples.accepting []) "A"
                   (Examples.started Examples.two_overlays)),
            [toast]) /\
    toast = App.toast_success (VStr "Overlay updated successfully!").
Proof.
  exact (proj1 (manager_toggle_matches_hook (Examples.accepting [])
                  (Examples.overlay "A" 10 10 true) "A"
                  (Examples.started Examples.two_overlays) eq_refl)
               eq_refl).
Defined.
